(** * Spindle front end: command-line resolution ([src/fe/launchmon/parseargs.cc])

    A shallow embedding of the argp callback [parse], of the entry point
    [parseArgs] and of the accessors of [parseargs.cc], together with the
    properties of the resolved configuration.

    The file-scope variables of the translation unit are gathered in the
    record [globals]; every function that reads or writes them takes the
    record and returns the updated one.  [argp_error] terminates the
    process ([parseArgs] passes only [ARGP_IN_ORDER] to [argp_parse]), which
    is the outcome [Exits].

    The constants of [spindle_launch.h] and [config.h] are not part of the
    translation unit: they are the fields of [Header] and [Config], and
    [header_ok] states what the file relies on in the first.

    The statements C1 to C10 of the specification are the theorems whose
    names begin with their number; the theorems X1 to X24 are further
    properties of the code: what the accessors return after [parseArgs],
    how a run can end and on which command lines it returns, the returned
    word as a function of the options, and the set of python prefixes. *)

From Stdlib Require Import ZArith List Bool String Ascii Lia Sorting.Sorted Sorting.Permutation.
From Stdlib Require Import DecimalString DecimalZ DecimalPos Nnat.
From Stdlib Require DecimalFacts.
Import ListNotations.

Local Open Scope string_scope.
Local Open Scope Z_scope.

(** ** Machine integers *)

Definition ULONG_BITS : Z := 64.
Definition UINT_BITS : Z := 32.

(** [~v] on an [unsigned long]. *)
Definition not_ul (v : Z) : Z := Z.land (Z.lnot v) (Z.ones ULONG_BITS).

(** [v - 1] on an [unsigned long]. *)
Definition pred_ul (v : Z) : Z := (v - 1) mod 2 ^ ULONG_BITS.

(** Conversion of an [int] to [unsigned int]. *)
Definition to_uint (v : Z) : Z := v mod 2 ^ UINT_BITS.

(** Character constants are [int]s. *)
Definition chr (c : ascii) : Z := Z.of_N (N_of_ascii c).

(** ** Outcomes of a call *)

Inductive outcome (A : Type) : Type :=
| Returns (a : A)            (* the call returns *)
| Exits (msg : string)       (* argp_error: message on stderr, exit *)
| Aborts                     (* a failed assert *)
| Undefined.                 (* behaviour the language leaves undefined *)

Arguments Returns {A} a.
Arguments Exits {A} msg.
Arguments Aborts {A}.
Arguments Undefined {A}.

Definition bind {A B} (o : outcome A) (k : A -> outcome B) : outcome B :=
  match o with
  | Returns a => k a
  | Exits m => Exits m
  | Aborts => Aborts
  | Undefined => Undefined
  end.

Notation "x <- c ;; k" := (bind c (fun x => k))
  (at level 61, c at next level, right associativity).

(** ** The constants the file takes from its headers *)

(** [spindle_launch.h]: the feature bits, the security models and the
    place of the security field in the option word. *)
Class Header : Type := {
  OPT_COBO : Z;
  OPT_DEBUG : Z;
  OPT_FOLLOWFORK : Z;
  OPT_PRELOAD : Z;
  OPT_PUSH : Z;
  OPT_PULL : Z;
  OPT_RELOCAOUT : Z;
  OPT_RELOCSO : Z;
  OPT_RELOCEXEC : Z;
  OPT_RELOCPY : Z;
  OPT_STRIP : Z;
  OPT_NOCLEAN : Z;
  OPT_NOHIDE : Z;
  OPT_NOMPI : Z;
  OPT_REMAPEXEC : Z;
  OPT_SEC_MUNGE : Z;
  OPT_SEC_KEYLMON : Z;
  OPT_SEC_KEYFILE : Z;
  OPT_SEC_NULL : Z;
  OPT_SEC_SHIFT : Z
}.

(** [config.h]: what configure defined. *)
Class Config : Type := {
  MUNGE : bool;
  SECLMON : bool;
  KEYFILE : bool;
  ENABLE_NULL_ENCRYPTION : bool;
  USAGE_LOGGING_FILE : bool;
  SPINDLE_PORT : Z;
  SPINDLE_LOC : string;
  PYTHON_INST_PREFIX : string
}.

(** ** argp *)

Definition ARGP_KEY_ARG : Z := 0.
Definition ARGP_KEY_ARGS : Z := 0x1000006.
Definition ARGP_KEY_END : Z := 0x1000001.
Definition ARGP_KEY_NO_ARGS : Z := 0x1000002.
Definition ARGP_KEY_INIT : Z := 0x1000003.
Definition ARGP_KEY_SUCCESS : Z := 0x1000004.
Definition ARGP_KEY_FINI : Z := 0x1000007.
Definition ARGP_ERR_UNKNOWN : Z := 7.
Definition OPTION_HIDDEN : Z := 2.

(** The fields of [struct argp_state] that [parse] reads. *)
Record argp_state : Type := {
  st_argc : Z;
  st_argv : list string;
  st_next : Z
}.

Record argp_option : Type := {
  o_name : option string;
  o_key : Z;
  o_arg : option string;
  o_flags : Z;
  o_doc : option string;
  o_group : Z
}.

Definition argp_error {A} (state : argp_state) (msg : string) : outcome A :=
  Exits msg.

(** ** atoi

    Leading white space, an optional sign, then the longest run of decimal
    digits; glibc computes it as [(int) strtol (nptr, NULL, 10)]. *)

Definition isspace (c : ascii) : bool :=
  let n := chr c in (n =? 32) || ((9 <=? n) && (n <=? 13)).

Definition isdigit (c : ascii) : bool :=
  let n := chr c in (48 <=? n) && (n <=? 57).

Fixpoint skip_spaces (s : string) : string :=
  match s with
  | String c r => if isspace c then skip_spaces r else s
  | EmptyString => s
  end.

Fixpoint digits (acc : Z) (s : string) : Z :=
  match s with
  | String c r => if isdigit c then digits (10 * acc + (chr c - 48)) r else acc
  | EmptyString => acc
  end.

Definition LONG_MAX : Z := 2 ^ 63 - 1.
Definition LONG_MIN : Z := - 2 ^ 63.

Definition strtol10 (s : string) : Z :=
  let v := match skip_spaces s with
           | String "-" r => - digits 0 r
           | String "+" r => digits 0 r
           | t => digits 0 t
           end in
  Z.max LONG_MIN (Z.min LONG_MAX v).

(** Conversion of a [long] to [int]. *)
Definition to_int (v : Z) : Z := (v + 2 ^ 31) mod 2 ^ 32 - 2 ^ 31.

Definition atoi (s : string) : Z := to_int (strtol10 s).

(** ** File-scope definitions of parseargs.cc *)

Definition RELOCAOUT : Z := chr "a".
Definition COBO : Z := chr "c".
Definition DEBUG : Z := chr "d".
Definition PRELOAD : Z := chr "e".
Definition FOLLOWFORK : Z := chr "f".
Definition HIDE : Z := chr "h".
Definition RELOCSO : Z := chr "l".
Definition NOMPI : Z := chr "m".
Definition NOCLEAN : Z := chr "n".
Definition LOCATION : Z := chr "o".
Definition PUSH : Z := chr "p".
Definition PULL : Z := chr "q".
Definition PYTHONPREFIX : Z := chr "r".
Definition STRIP : Z := chr "s".
Definition PORT : Z := chr "t".
Definition RELOCEXEC : Z := chr "x".
Definition RELOCPY : Z := chr "y".
Definition DISABLE_LOGGING : Z := chr "z".

Definition GROUP_RELOC : Z := 1.
Definition GROUP_PUSHPULL : Z := 2.
Definition GROUP_NETWORK : Z := 3.
Definition GROUP_SEC : Z := 4.
Definition GROUP_MISC : Z := 5.

Definition YESNO : string := "yes|no".

(** The variables of the translation unit. *)
Record globals : Type := {
  enabled_opts : Z;
  disabled_opts : Z;
  preload_file : option string;
  mpi_argv : list string;
  mpi_argc : Z;
  done : bool;
  use_mpi : bool;
  hide_fd : bool;
  sec_model : Z;
  python_prefixes : list string;
  user_python_prefixes : option string;
  logging_enabled : bool;
  spindle_port : Z;
  spindle_location : string;
  opts : Z
}.

(** Assignment to one variable. *)

Definition set_enabled_opts (v : Z) (g : globals) : globals :=
  {| enabled_opts := v; disabled_opts := disabled_opts g;
     preload_file := preload_file g; mpi_argv := mpi_argv g;
     mpi_argc := mpi_argc g; done := done g; use_mpi := use_mpi g;
     hide_fd := hide_fd g; sec_model := sec_model g;
     python_prefixes := python_prefixes g;
     user_python_prefixes := user_python_prefixes g;
     logging_enabled := logging_enabled g; spindle_port := spindle_port g;
     spindle_location := spindle_location g; opts := opts g |}.

Definition set_disabled_opts (v : Z) (g : globals) : globals :=
  {| enabled_opts := enabled_opts g; disabled_opts := v;
     preload_file := preload_file g; mpi_argv := mpi_argv g;
     mpi_argc := mpi_argc g; done := done g; use_mpi := use_mpi g;
     hide_fd := hide_fd g; sec_model := sec_model g;
     python_prefixes := python_prefixes g;
     user_python_prefixes := user_python_prefixes g;
     logging_enabled := logging_enabled g; spindle_port := spindle_port g;
     spindle_location := spindle_location g; opts := opts g |}.

Definition set_preload_file (v : option string) (g : globals) : globals :=
  {| enabled_opts := enabled_opts g; disabled_opts := disabled_opts g;
     preload_file := v; mpi_argv := mpi_argv g; mpi_argc := mpi_argc g;
     done := done g; use_mpi := use_mpi g; hide_fd := hide_fd g;
     sec_model := sec_model g; python_prefixes := python_prefixes g;
     user_python_prefixes := user_python_prefixes g;
     logging_enabled := logging_enabled g; spindle_port := spindle_port g;
     spindle_location := spindle_location g; opts := opts g |}.

Definition set_mpi (v : list string) (c : Z) (g : globals) : globals :=
  {| enabled_opts := enabled_opts g; disabled_opts := disabled_opts g;
     preload_file := preload_file g; mpi_argv := v; mpi_argc := c;
     done := done g; use_mpi := use_mpi g; hide_fd := hide_fd g;
     sec_model := sec_model g; python_prefixes := python_prefixes g;
     user_python_prefixes := user_python_prefixes g;
     logging_enabled := logging_enabled g; spindle_port := spindle_port g;
     spindle_location := spindle_location g; opts := opts g |}.

Definition set_done (v : bool) (g : globals) : globals :=
  {| enabled_opts := enabled_opts g; disabled_opts := disabled_opts g;
     preload_file := preload_file g; mpi_argv := mpi_argv g;
     mpi_argc := mpi_argc g; done := v; use_mpi := use_mpi g;
     hide_fd := hide_fd g; sec_model := sec_model g;
     python_prefixes := python_prefixes g;
     user_python_prefixes := user_python_prefixes g;
     logging_enabled := logging_enabled g; spindle_port := spindle_port g;
     spindle_location := spindle_location g; opts := opts g |}.

Definition set_use_mpi (v : bool) (g : globals) : globals :=
  {| enabled_opts := enabled_opts g; disabled_opts := disabled_opts g;
     preload_file := preload_file g; mpi_argv := mpi_argv g;
     mpi_argc := mpi_argc g; done := done g; use_mpi := v;
     hide_fd := hide_fd g; sec_model := sec_model g;
     python_prefixes := python_prefixes g;
     user_python_prefixes := user_python_prefixes g;
     logging_enabled := logging_enabled g; spindle_port := spindle_port g;
     spindle_location := spindle_location g; opts := opts g |}.

Definition set_hide_fd (v : bool) (g : globals) : globals :=
  {| enabled_opts := enabled_opts g; disabled_opts := disabled_opts g;
     preload_file := preload_file g; mpi_argv := mpi_argv g;
     mpi_argc := mpi_argc g; done := done g; use_mpi := use_mpi g;
     hide_fd := v; sec_model := sec_model g;
     python_prefixes := python_prefixes g;
     user_python_prefixes := user_python_prefixes g;
     logging_enabled := logging_enabled g; spindle_port := spindle_port g;
     spindle_location := spindle_location g; opts := opts g |}.

Definition set_sec_model (v : Z) (g : globals) : globals :=
  {| enabled_opts := enabled_opts g; disabled_opts := disabled_opts g;
     preload_file := preload_file g; mpi_argv := mpi_argv g;
     mpi_argc := mpi_argc g; done := done g; use_mpi := use_mpi g;
     hide_fd := hide_fd g; sec_model := v;
     python_prefixes := python_prefixes g;
     user_python_prefixes := user_python_prefixes g;
     logging_enabled := logging_enabled g; spindle_port := spindle_port g;
     spindle_location := spindle_location g; opts := opts g |}.

Definition set_python_prefixes (v : list string) (g : globals) : globals :=
  {| enabled_opts := enabled_opts g; disabled_opts := disabled_opts g;
     preload_file := preload_file g; mpi_argv := mpi_argv g;
     mpi_argc := mpi_argc g; done := done g; use_mpi := use_mpi g;
     hide_fd := hide_fd g; sec_model := sec_model g; python_prefixes := v;
     user_python_prefixes := user_python_prefixes g;
     logging_enabled := logging_enabled g; spindle_port := spindle_port g;
     spindle_location := spindle_location g; opts := opts g |}.

Definition set_user_python_prefixes (v : option string) (g : globals) : globals :=
  {| enabled_opts := enabled_opts g; disabled_opts := disabled_opts g;
     preload_file := preload_file g; mpi_argv := mpi_argv g;
     mpi_argc := mpi_argc g; done := done g; use_mpi := use_mpi g;
     hide_fd := hide_fd g; sec_model := sec_model g;
     python_prefixes := python_prefixes g; user_python_prefixes := v;
     logging_enabled := logging_enabled g; spindle_port := spindle_port g;
     spindle_location := spindle_location g; opts := opts g |}.

Definition set_logging_enabled (v : bool) (g : globals) : globals :=
  {| enabled_opts := enabled_opts g; disabled_opts := disabled_opts g;
     preload_file := preload_file g; mpi_argv := mpi_argv g;
     mpi_argc := mpi_argc g; done := done g; use_mpi := use_mpi g;
     hide_fd := hide_fd g; sec_model := sec_model g;
     python_prefixes := python_prefixes g;
     user_python_prefixes := user_python_prefixes g; logging_enabled := v;
     spindle_port := spindle_port g;
     spindle_location := spindle_location g; opts := opts g |}.

Definition set_spindle_port (v : Z) (g : globals) : globals :=
  {| enabled_opts := enabled_opts g; disabled_opts := disabled_opts g;
     preload_file := preload_file g; mpi_argv := mpi_argv g;
     mpi_argc := mpi_argc g; done := done g; use_mpi := use_mpi g;
     hide_fd := hide_fd g; sec_model := sec_model g;
     python_prefixes := python_prefixes g;
     user_python_prefixes := user_python_prefixes g;
     logging_enabled := logging_enabled g; spindle_port := v;
     spindle_location := spindle_location g; opts := opts g |}.

Definition set_spindle_location (v : string) (g : globals) : globals :=
  {| enabled_opts := enabled_opts g; disabled_opts := disabled_opts g;
     preload_file := preload_file g; mpi_argv := mpi_argv g;
     mpi_argc := mpi_argc g; done := done g; use_mpi := use_mpi g;
     hide_fd := hide_fd g; sec_model := sec_model g;
     python_prefixes := python_prefixes g;
     user_python_prefixes := user_python_prefixes g;
     logging_enabled := logging_enabled g; spindle_port := spindle_port g;
     spindle_location := v; opts := opts g |}.

Definition set_opts (v : Z) (g : globals) : globals :=
  {| enabled_opts := enabled_opts g; disabled_opts := disabled_opts g;
     preload_file := preload_file g; mpi_argv := mpi_argv g;
     mpi_argc := mpi_argc g; done := done g; use_mpi := use_mpi g;
     hide_fd := hide_fd g; sec_model := sec_model g;
     python_prefixes := python_prefixes g;
     user_python_prefixes := user_python_prefixes g;
     logging_enabled := logging_enabled g; spindle_port := spindle_port g;
     spindle_location := spindle_location g; opts := v |}.

Section Parseargs.

Context {hdr : Header} {cfg : Config}.

Definition SECMUNGE : Z := 256 + OPT_SEC_MUNGE.
Definition SECKEYLMON : Z := 256 + OPT_SEC_KEYLMON.
Definition SECKEYFILE : Z := 256 + OPT_SEC_KEYFILE.
Definition SECNULL : Z := 256 + OPT_SEC_NULL.

(** The [#if defined(MUNGE) ... #elif ...] chain; a configuration with none
    of the four macros stops at [#error] and has no program. *)
Definition DEFAULT_SEC : Z :=
  if MUNGE then OPT_SEC_MUNGE
  else if SECLMON then OPT_SEC_KEYFILE
  else if KEYFILE then OPT_SEC_KEYFILE
  else OPT_SEC_NULL.

Definition has_security_model : bool :=
  MUNGE || SECLMON || KEYFILE || ENABLE_NULL_ENCRYPTION.

Definition all_reloc_opts : Z :=
  Z.lor (Z.lor (Z.lor (Z.lor OPT_RELOCAOUT OPT_RELOCSO) OPT_RELOCEXEC) OPT_RELOCPY)
        OPT_FOLLOWFORK.
Definition all_network_opts : Z := OPT_COBO.
Definition all_pushpull_opts : Z := Z.lor OPT_PUSH OPT_PULL.
Definition all_misc_opts : Z :=
  Z.lor (Z.lor (Z.lor OPT_STRIP OPT_DEBUG) OPT_PRELOAD) OPT_NOCLEAN.

Definition default_reloc_opts : Z :=
  Z.lor (Z.lor (Z.lor (Z.lor OPT_RELOCAOUT OPT_RELOCSO) OPT_RELOCEXEC) OPT_RELOCPY)
        OPT_FOLLOWFORK.
Definition default_network_opts : Z := OPT_COBO.
Definition default_pushpull_opts : Z := OPT_PUSH.
Definition default_misc_opts : Z := OPT_STRIP.
Definition default_sec : Z := DEFAULT_SEC.

Definition DEFAULT_LOGGING_ENABLED : bool := USAGE_LOGGING_FILE.
Definition DISABLE_LOGGING_FLAGS : Z := if USAGE_LOGGING_FILE then 0 else OPTION_HIDDEN.

(** Modelled from the spec: the macro [OPT_SET_SEC] of [spindle_launch.h],
    which stores the security model in a reserved sub-range of the option
    word: the model shifted to the place of the field is or-ed in. *)
Definition OPT_SET_SEC (o x : Z) : Z := Z.lor o (Z.shiftl x OPT_SEC_SHIFT).

Definition mk_option (n : string) (k : Z) (a : option string) (f : Z) (g : Z)
  : argp_option :=
  {| o_name := Some n; o_key := k; o_arg := a; o_flags := f; o_doc := None;
     o_group := g |}.

(** The entry [{0}] that closes the table. *)
Definition null_option : argp_option :=
  {| o_name := None; o_key := 0; o_arg := None; o_flags := 0; o_doc := None;
     o_group := 0 |}.

(** The table [options]; the help texts are left out. *)
Definition options : list argp_option :=
  [ mk_option "reloc-aout" RELOCAOUT (Some YESNO) 0 GROUP_RELOC;
    mk_option "reloc-libs" RELOCSO (Some YESNO) 0 GROUP_RELOC;
    mk_option "reloc-python" RELOCPY (Some YESNO) 0 GROUP_RELOC;
    mk_option "reloc-exec" RELOCEXEC (Some YESNO) 0 GROUP_RELOC;
    mk_option "follow-fork" FOLLOWFORK (Some YESNO) 0 GROUP_RELOC;
    mk_option "push" PUSH None 0 GROUP_PUSHPULL;
    mk_option "pull" PULL None 0 GROUP_PUSHPULL;
    mk_option "cobo" COBO None 0 GROUP_NETWORK;
    mk_option "port" PORT (Some "number") 0 GROUP_NETWORK;
    mk_option "location" LOCATION (Some "directory") 0 GROUP_NETWORK ]
  ++ (if MUNGE then [ mk_option "security-munge" SECMUNGE None 0 GROUP_SEC ] else [])
  ++ (if SECLMON then [ mk_option "security-lmon" SECKEYLMON None 0 GROUP_SEC ] else [])
  ++ (if KEYFILE then [ mk_option "security-keyfile" SECKEYFILE None 0 GROUP_SEC ] else [])
  ++ (if ENABLE_NULL_ENCRYPTION
      then [ mk_option "security-none" SECNULL None 0 GROUP_SEC ] else [])
  ++ [ mk_option "python-prefix" PYTHONPREFIX (Some "=path") 0 GROUP_MISC;
       mk_option "debug" DEBUG (Some YESNO) 0 GROUP_MISC;
       mk_option "preload" PRELOAD (Some "FILE") 0 GROUP_MISC;
       mk_option "strip" STRIP (Some YESNO) 0 GROUP_MISC;
       mk_option "noclean" NOCLEAN (Some YESNO) 0 GROUP_MISC;
       mk_option "disable-logging" DISABLE_LOGGING None DISABLE_LOGGING_FLAGS GROUP_MISC;
       mk_option "no-mpi" NOMPI None 0 0;
       mk_option "no-hide" HIDE None 0 GROUP_MISC;
       null_option ].

Definition opt_key_to_code (key : Z) : Z :=
  if key =? RELOCAOUT then OPT_RELOCAOUT
  else if key =? COBO then OPT_COBO
  else if key =? DEBUG then OPT_DEBUG
  else if key =? PRELOAD then OPT_PRELOAD
  else if key =? FOLLOWFORK then OPT_FOLLOWFORK
  else if key =? RELOCSO then OPT_RELOCSO
  else if key =? PUSH then OPT_PUSH
  else if key =? PULL then OPT_PULL
  else if key =? STRIP then OPT_STRIP
  else if key =? RELOCEXEC then OPT_RELOCEXEC
  else if key =? RELOCPY then OPT_RELOCPY
  else if key =? NOCLEAN then OPT_NOCLEAN
  else 0.

Definition multi_bits_set (v : Z) : bool :=
  negb (Z.land v (pred_ul v) =? 0).

(** [for (entry = options; entry->key; entry++) if (entry->key == key) break;] *)
Fixpoint find_entry (key : Z) (tbl : list argp_option) : argp_option :=
  match tbl with
  | [] => null_option
  | entry :: rest =>
      if o_key entry =? 0 then entry
      else if o_key entry =? key then entry
      else find_entry key rest
  end.

(** [entry->arg == YESNO]: the table points at the one literal. *)
Definition arg_is_YESNO (entry : argp_option) : bool :=
  match o_arg entry with
  | Some a => (a =? YESNO)%string
  | None => false
  end.

Definition arg_is_NULL (entry : argp_option) : bool :=
  match o_arg entry with
  | Some _ => false
  | None => true
  end.

Definition entry_name (entry : argp_option) : string :=
  match o_name entry with
  | Some n => n
  | None => "(null)"
  end.

(** The step [case ARGP_KEY_END] of [parse]. *)
Definition finalize (state : argp_state) (g : globals) : outcome (Z * globals) :=
  if negb (Z.land (enabled_opts g) (disabled_opts g) =? 0) then
    argp_error state "Cannot have the same option both enabled and disabled"
  else
    let enabled_network_opts := Z.land (enabled_opts g) all_network_opts in
    if multi_bits_set enabled_network_opts then
      argp_error state "Cannot enable multiple network options"
    else
      let o1 := Z.lor (opts g)
                  (if negb (enabled_network_opts =? 0) then enabled_network_opts
                   else default_network_opts) in
      let enabled_pushpull_opts := Z.land (enabled_opts g) all_pushpull_opts in
      if multi_bits_set enabled_pushpull_opts then
        argp_error state "Cannot enable both push and pull options"
      else
        let o2 := Z.lor o1
                    (if negb (enabled_pushpull_opts =? 0) then enabled_pushpull_opts
                     else default_pushpull_opts) in
        let o3 := Z.lor o2
                    (Z.land (Z.land all_reloc_opts (not_ul (disabled_opts g)))
                            (Z.lor (enabled_opts g) default_reloc_opts)) in
        let sm := if sec_model g =? -1 then default_sec else sec_model g in
        let o4 := OPT_SET_SEC o3 sm in
        let o5 := Z.lor o4
                    (Z.land (Z.land all_misc_opts (not_ul (disabled_opts g)))
                            (Z.lor (enabled_opts g) default_misc_opts)) in
        Returns (0, set_opts o5 (set_sec_model sm g)).

(** The messages and the pieces of the option word, by name. *)

Definition conflict_msg : string :=
  "Cannot have the same option both enabled and disabled".
Definition pushpull_msg : string := "Cannot enable both push and pull options".

(** What the distribution-model group contributes. *)
Definition pushpull_choice (e : Z) : Z :=
  if Z.land e all_pushpull_opts =? 0 then default_pushpull_opts
  else Z.land e all_pushpull_opts.

Definition reloc_part (e d : Z) : Z :=
  Z.land (Z.land all_reloc_opts (not_ul d)) (Z.lor e default_reloc_opts).

Definition misc_part (e d : Z) : Z :=
  Z.land (Z.land all_misc_opts (not_ul d)) (Z.lor e default_misc_opts).

Definition chosen_sec (g : globals) : Z :=
  if sec_model g =? -1 then default_sec else sec_model g.

(** The option word finalize leaves behind when it returns. *)
Definition resolved (g : globals) : Z :=
  Z.lor (Z.lor (Z.lor (Z.lor (Z.lor (opts g) default_network_opts)
                             (pushpull_choice (enabled_opts g)))
                      (reloc_part (enabled_opts g) (disabled_opts g)))
               (Z.shiftl (chosen_sec g) OPT_SEC_SHIFT))
        (misc_part (enabled_opts g) (disabled_opts g)).

Definition parse (key : Z) (arg : option string) (state : argp_state) (g : globals)
  : outcome (Z * globals) :=
  if done g && negb (key =? ARGP_KEY_END) then Returns (0, g)
  else
    let entry := find_entry key options in
    let opt := opt_key_to_code key in
    if arg_is_YESNO entry then
      match arg with
      | None => Undefined
      | Some a =>
          if ((a =? "yes") || (a =? "y"))%string then
            Returns (0, set_enabled_opts (Z.lor (enabled_opts g) opt) g)
          else if ((a =? "no") || (a =? "n"))%string then
            Returns (0, set_disabled_opts (Z.lor (disabled_opts g) opt) g)
          else
            argp_error state (entry_name entry ++ " must be 'yes' or 'no'")
      end
    else if negb (o_key entry =? 0) && arg_is_NULL entry && negb (opt =? 0) then
      Returns (0, set_enabled_opts (Z.lor (enabled_opts g) opt) g)
    else if o_key entry =? PRELOAD then
      Returns (0, set_preload_file arg (set_enabled_opts (Z.lor (enabled_opts g) opt) g))
    else if o_key entry =? PORT then
      match arg with
      | None => Undefined
      | Some a =>
          let port := to_uint (atoi a) in
          if port =? 0 then argp_error state "Port was given a 0 value"
          else Returns (0, set_spindle_port port g)
      end
    else if o_key entry =? LOCATION then
      match arg with
      | None => Undefined
      | Some a => Returns (0, set_spindle_location a g)
      end
    else if key =? DISABLE_LOGGING then
      Returns (0, set_logging_enabled false g)
    else if key =? NOMPI then
      Returns (0, set_opts (Z.lor (opts g) OPT_NOMPI) (set_use_mpi false g))
    else if key =? HIDE then
      Returns (0, set_opts (Z.lor (opts g) OPT_NOHIDE) (set_hide_fd false g))
    else if o_group entry =? GROUP_SEC then
      Returns (0, set_sec_model (key - 256) g)
    else if key =? ARGP_KEY_ARG then
      if st_argc state =? 0 then Returns (0, g)
      else Returns (ARGP_ERR_UNKNOWN, g)
    else if key =? PYTHONPREFIX then
      Returns (0, set_user_python_prefixes arg g)
    else if key =? ARGP_KEY_ARGS then
      Returns (0, set_done true
                    (set_mpi (skipn (Z.to_nat (st_next state)) (st_argv state))
                             (st_argc state - st_next state) g))
    else if key =? ARGP_KEY_END then
      finalize state g
    else if key =? ARGP_KEY_NO_ARGS then
      argp_error state "No MPI command line found"
    else
      Returns (0, g).

(** *** argp_parse as [parseArgs] drives it

    glibc's [argp_parse] is outside the repository.  With [ARGP_IN_ORDER]
    it calls the parser with [ARGP_KEY_INIT], then with every option in
    the order of the command line, then with [ARGP_KEY_ARG] for the first
    word that is not an option; when the parser answers
    [ARGP_ERR_UNKNOWN] the same word is offered again as [ARGP_KEY_ARGS]
    and, [state->next] being left alone, all remaining words count as
    consumed.  Without any such word [ARGP_KEY_NO_ARGS] is sent.  Then come
    [ARGP_KEY_END], [ARGP_KEY_SUCCESS] and [ARGP_KEY_FINI]. *)

Record cmdline : Type := {
  cl_head : list string;                (* argv[0] and the option words *)
  cl_opts : list (Z * option string);   (* the options getopt finds in them *)
  cl_cmd : list string                  (* the first other word and the rest *)
}.

Definition cl_argv (cl : cmdline) : list string := cl_head cl ++ cl_cmd cl.

Definition state_at (cl : cmdline) (next : nat) : argp_state :=
  {| st_argc := Z.of_nat (List.length (cl_argv cl)); st_argv := cl_argv cl;
     st_next := Z.of_nat next |}.

Fixpoint parse_options (state : argp_state) (toks : list (Z * option string))
  (g : globals) : outcome globals :=
  match toks with
  | [] => Returns g
  | (k, a) :: rest =>
      r <- parse k a state g ;;
      if fst r =? 0 then parse_options state rest (snd r)
      else Exits "unrecognized option"
  end.

Fixpoint parse_words (cl : cmdline) (idx : nat) (words : list string) (g : globals)
  : outcome globals :=
  match words with
  | [] => Returns g
  | w :: rest =>
      r <- parse ARGP_KEY_ARG (Some w) (state_at cl (S idx)) g ;;
      if fst r =? 0 then parse_words cl (S idx) rest (snd r)
      else
        r2 <- parse ARGP_KEY_ARGS None (state_at cl idx) (snd r) ;;
        if fst r2 =? 0 then Returns (snd r2) else Exits "Too many arguments"
  end.

Definition argp_parse (cl : cmdline) (g : globals) : outcome globals :=
  let argc := List.length (cl_argv cl) in
  r0 <- parse ARGP_KEY_INIT None (state_at cl 0) g ;;
  g1 <- parse_options (state_at cl (List.length (cl_head cl))) (cl_opts cl) (snd r0) ;;
  g2 <- match cl_cmd cl with
        | [] => r <- parse ARGP_KEY_NO_ARGS None (state_at cl argc) g1 ;; Returns (snd r)
        | _ => parse_words cl (List.length (cl_head cl)) (cl_cmd cl) g1
        end ;;
  r3 <- parse ARGP_KEY_END None (state_at cl argc) g2 ;;
  if fst r3 =? 0 then
    r4 <- parse ARGP_KEY_SUCCESS None (state_at cl argc) (snd r3) ;;
    r5 <- parse ARGP_KEY_FINI None (state_at cl argc) (snd r4) ;;
    Returns (snd r5)
  else Aborts.

(** The values the variables are initialised with. *)
Definition initial_globals : globals :=
  {| enabled_opts := 0; disabled_opts := 0; preload_file := None;
     mpi_argv := []; mpi_argc := 0; done := false; use_mpi := true;
     hide_fd := true; sec_model := -1; python_prefixes := [];
     user_python_prefixes := None; logging_enabled := DEFAULT_LOGGING_ENABLED;
     spindle_port := SPINDLE_PORT; spindle_location := SPINDLE_LOC; opts := 0 |}.

(** The block [if (opts & OPT_DEBUG) { ... }] of [parseArgs].  [~OPT_X] is
    the complement of an [int]; widened to [unsigned long] it keeps every
    other bit, as [Z.lnot] does. *)
Definition debug_override (o : Z) : Z :=
  if negb (Z.land o OPT_DEBUG =? 0) then
    Z.lor (Z.land (Z.land o (Z.lnot OPT_RELOCAOUT)) (Z.lnot OPT_RELOCEXEC))
          OPT_REMAPEXEC
  else o.

Definition parseArgs (cl : cmdline) (g : globals) : outcome (Z * globals) :=
  g1 <- argp_parse cl (set_done false g) ;;
  let g2 := set_opts (debug_override (opts g1)) g1 in
  Returns (opts g2, g2).

Definition getPreloadFile (g : globals) : option string := preload_file g.
Definition getPort (g : globals) : Z := spindle_port g.
Definition isLoggingEnabled (g : globals) : bool := logging_enabled g.
Definition isMPIJob (g : globals) : bool := use_mpi g.
Definition hideFDs (g : globals) : bool := hide_fd g.
Definition getAppArgs (g : globals) : Z * list string := (mpi_argc g, mpi_argv g).

(** *** The python prefixes

    [std::set<string>] keeps its members in increasing order of
    [std::string]'s [operator<] and without duplicates: a strictly
    increasing list. *)

Fixpoint set_insert (s : string) (l : list string) : list string :=
  match l with
  | [] => [s]
  | x :: r =>
      match String.compare s x with
      | Lt => s :: l
      | Eq => l
      | Gt => x :: set_insert s r
      end
  end.

Definition insert_nonempty (s : string) (l : list string) : list string :=
  match s with
  | EmptyString => l
  | _ => set_insert s l
  end.

(** The two loops of [parse_python_prefix]: [seg] holds the characters
    between [cur] and [colon]. *)
Fixpoint scan_prefix (seg : string) (p : string) (set : list string) : list string :=
  match p with
  | EmptyString => insert_nonempty seg set
  | String c r =>
      if Ascii.eqb c ":" then scan_prefix EmptyString r (insert_nonempty seg set)
      else scan_prefix (seg ++ String c EmptyString) r set
  end.

Definition parse_python_prefix (prefix : option string) (g : globals) : globals :=
  match prefix with
  | None => g
  | Some p => set_python_prefixes (scan_prefix EmptyString p (python_prefixes g)) g
  end.

(** The loop of [getPythonPrefixes] from the second member on. *)
Fixpoint join_rest (result : string) (l : list string) : string :=
  match l with
  | [] => result
  | x :: r => join_rest (result ++ ":" ++ x) r
  end.

Definition getPythonPrefixes (g : globals) : outcome (string * globals) :=
  let g1 := parse_python_prefix (Some PYTHON_INST_PREFIX) g in
  let g2 := parse_python_prefix (user_python_prefixes g1) g1 in
  match python_prefixes g2 with
  | [] => Undefined                      (* [*i] with [i == end()] *)
  | x :: r => Returns (join_rest x r, g2)
  end.

(** *** Well-formed headers and command lines *)

Definition feature_flags : list Z :=
  [ OPT_COBO; OPT_DEBUG; OPT_FOLLOWFORK; OPT_PRELOAD; OPT_PUSH; OPT_PULL;
    OPT_RELOCAOUT; OPT_RELOCSO; OPT_RELOCEXEC; OPT_RELOCPY; OPT_STRIP;
    OPT_NOCLEAN; OPT_NOHIDE; OPT_NOMPI; OPT_REMAPEXEC ].

Definition sec_models : list Z :=
  [ OPT_SEC_MUNGE; OPT_SEC_KEYLMON; OPT_SEC_KEYFILE; OPT_SEC_NULL ].

(** A feature bit: an [int] with exactly one bit set. *)
Definition single_bit (f : Z) : Prop :=
  0 < f < 2 ^ 31 /\ f = 2 ^ Z.log2 f.

Definition disjoint (a b : Z) : Prop := Z.land a b = 0.

(** What the file relies on in [spindle_launch.h]: the feature bits are
    distinct single bits, the security models are distinct small numbers,
    and the security field lies apart from the feature bits. *)
Record header_ok : Prop := {
  flags_single_bit : Forall single_bit feature_flags;
  flags_disjoint : ForallOrdPairs disjoint feature_flags;
  sec_shift_nonneg : 0 <= OPT_SEC_SHIFT;
  sec_models_range : Forall (fun m => 0 <= m < 0x1000000 - 256) sec_models;
  sec_models_distinct : NoDup sec_models;
  sec_field_int : Forall (fun m => Z.shiftl m OPT_SEC_SHIFT < 2 ^ 31) sec_models;
  sec_field_disjoint :
    Forall (fun m => Forall (disjoint (Z.shiftl m OPT_SEC_SHIFT)) feature_flags)
           sec_models
}.

(** getopt reports only options of the table. *)
Definition is_option_key (k : Z) : bool :=
  negb (k =? 0) && existsb (fun e => o_key e =? k) options.

Definition wf_cmdline (cl : cmdline) : Prop :=
  forallb (fun t => is_option_key (fst t)) (cl_opts cl) = true.

(** The options of the security group that the build has. *)
Definition compiled_sec_key (k : Z) : Prop :=
  (MUNGE = true /\ k = SECMUNGE) \/ (SECLMON = true /\ k = SECKEYLMON) \/
  (KEYFILE = true /\ k = SECKEYFILE) \/
  (ENABLE_NULL_ENCRYPTION = true /\ k = SECNULL).

(** [compiled_sec_key] as a test. *)
Definition is_sec_key (k : Z) : bool :=
  (MUNGE && (k =? SECMUNGE)) || (SECLMON && (k =? SECKEYLMON)) ||
  (KEYFILE && (k =? SECKEYFILE)) || (ENABLE_NULL_ENCRYPTION && (k =? SECNULL)).

(** The security option given last on a command line, if there is one. *)
Fixpoint last_sec_key (toks : list (Z * option string)) : option Z :=
  match toks with
  | [] => None
  | (k, _) :: rest =>
      match last_sec_key rest with
      | Some k' => Some k'
      | None => if is_sec_key k then Some k else None
      end
  end.

(** The security models that have an option in the table, in its order. *)
Definition sec_candidates : list Z :=
  map (fun e => o_key e - 256)
      (filter (fun e => o_group e =? GROUP_SEC) options).

Definition first_sec_candidate : option Z := hd_error sec_candidates.

(** The union of the compiled defaults. *)
Definition default_opts : Z :=
  Z.lor (Z.lor (Z.lor (Z.lor default_reloc_opts default_network_opts)
                      default_pushpull_opts)
               default_misc_opts)
        (Z.shiftl default_sec OPT_SEC_SHIFT).

(** *** What the specification says of the python prefixes *)

(** The pieces of [p] between colons; [seg] is the piece being read. *)
Fixpoint split_colon (seg : string) (p : string) : list string :=
  match p with
  | EmptyString => [seg]
  | String c r =>
      if Ascii.eqb c ":" then seg :: split_colon EmptyString r
      else split_colon (seg ++ String c EmptyString) r
  end.

Definition nonempty (s : string) : bool :=
  match s with
  | EmptyString => false
  | _ => true
  end.

Definition segments (p : option string) : list string :=
  match p with
  | None => []
  | Some p => filter nonempty (split_colon EmptyString p)
  end.

Definition string_lt (s t : string) : Prop := String.compare s t = Lt.

(** The segments of the compiled list and of the user's list that are not
    empty. *)
Definition all_segments (g : globals) : list string :=
  segments (Some PYTHON_INST_PREFIX) ++ segments (user_python_prefixes g).

(** *** Numeric strings, for the port *)

Fixpoint all_digits (s : string) : bool :=
  match s with
  | EmptyString => true
  | String c r => isdigit c && all_digits r
  end.

(** A decimal numeral: one digit or more and nothing else. *)
Definition numeric (s : string) : bool := nonempty s && all_digits s.

(** [atoi] finds a digit to start from. *)
Definition starts_numeric (s : string) : bool :=
  match skip_spaces s with
  | String "-" (String c _) => isdigit c
  | String "+" (String c _) => isdigit c
  | String c _ => isdigit c
  | EmptyString => false
  end.

(** *** Names used in the statements *)

(** The options that take yes or no. *)
Definition yesno_keys : list Z :=
  [RELOCAOUT; RELOCSO; RELOCPY; RELOCEXEC; FOLLOWFORK; DEBUG; STRIP; NOCLEAN].

(** [wf_cmdline] on the list of options alone. *)
Definition wf_opts (toks : list (Z * option string)) : Prop :=
  forallb (fun t => is_option_key (fst t)) toks = true.

(** [sec_model] is unset or holds a security model of the build. *)
Definition sec_model_ok (g : globals) : Prop :=
  sec_model g = -1 \/ compiled_sec_key (sec_model g + 256).

(** The variables once the command has been captured. *)
Definition captured (cl : cmdline) (g : globals) : globals :=
  set_done true (set_mpi (cl_cmd cl) (Z.of_nat (List.length (cl_cmd cl))) g).

(** The argp state at [ARGP_KEY_END] and during the scan. *)
Definition end_state (cl : cmdline) : argp_state :=
  state_at cl (List.length (cl_argv cl)).

Definition scan_state (cl : cmdline) : argp_state :=
  state_at cl (List.length (cl_head cl)).

(** *** The remaining accessor and names for what a command line gives *)

(** [snprintf (num_s, 32, "%d", number)]: an [int] prints in at most eleven
    characters, so the buffer never cuts it. *)
Definition snprintf_d (number : Z) : string :=
  NilZero.string_of_int (Z.to_int number).

Definition getLocation (number : Z) (g : globals) : string :=
  spindle_location g ++ "/spindle." ++ snprintf_d number.

(** The argument of the last option with key [k], if [k] was given. *)
Fixpoint last_arg (k : Z) (toks : list (Z * option string))
  : option (option string) :=
  match toks with
  | [] => None
  | (k', a) :: rest =>
      match last_arg k rest with
      | Some x => Some x
      | None => if k' =? k then Some a else None
      end
  end.

Definition given (k : Z) (toks : list (Z * option string)) : bool :=
  existsb (fun t => fst t =? k) toks.

Definition is_yes (a : string) : bool := ((a =? "yes") || (a =? "y"))%string.
Definition is_no (a : string) : bool := ((a =? "no") || (a =? "n"))%string.

(** The option [k] was given with yes, with no. *)
Definition given_yes (k : Z) (toks : list (Z * option string)) : bool :=
  existsb (fun t => (fst t =? k) &&
                    match snd t with Some a => is_yes a | None => false end) toks.

Definition given_no (k : Z) (toks : list (Z * option string)) : bool :=
  existsb (fun t => (fst t =? k) &&
                    match snd t with Some a => is_no a | None => false end) toks.

(** The keys of the table that are characters. *)
Definition char_keys : list Z :=
  yesno_keys ++ [PUSH; PULL; COBO; PRELOAD; PORT; LOCATION; DISABLE_LOGGING;
                 NOMPI; HIDE; PYTHONPREFIX].

(** The yes/no options with their long names. *)
Definition yesno_names : list (Z * string) :=
  [ (RELOCAOUT, "reloc-aout"); (RELOCSO, "reloc-libs"); (RELOCPY, "reloc-python");
    (RELOCEXEC, "reloc-exec"); (FOLLOWFORK, "follow-fork"); (DEBUG, "debug");
    (STRIP, "strip"); (NOCLEAN, "noclean") ].

(** A yes/no option is on by default when a default bundle holds its bit. *)
Definition default_on (k : Z) : bool :=
  negb (Z.land (Z.lor default_reloc_opts default_misc_opts) (opt_key_to_code k) =? 0).

(** What a command line decides for the yes/no option [k]: a no switches
    it off, otherwise a yes or the default switches it on. *)
Definition yesno_setting (k : Z) (toks : list (Z * option string)) : bool :=
  negb (given_no k toks) && (given_yes k toks || default_on k).

(** The options whose bits the debug mode clears. *)
Definition debug_hides (k : Z) : bool := (k =? RELOCAOUT) || (k =? RELOCEXEC).

(** All the feature bits. *)
Definition all_flags : Z := fold_right Z.lor 0 feature_flags.




(** No character of [s] is a colon. *)
Fixpoint colon_free (s : string) : bool :=
  match s with
  | EmptyString => true
  | String c r => negb (Ascii.eqb c ":") && colon_free r
  end.

(** The parser takes the argument of the option: yes, y, no or n for a
    yes/no option, a port that [atoi] does not read as 0, some directory
    for the location. *)
Definition arg_accepted (t : Z * option string) : bool :=
  if existsb (Z.eqb (fst t)) yesno_keys then
    match snd t with
    | Some s => is_yes s || is_no s
    | None => false
    end
  else if fst t =? PORT then
    match snd t with
    | Some s => negb (to_uint (atoi s) =? 0)
    | None => false
    end
  else if fst t =? LOCATION then
    match snd t with
    | Some _ => true
    | None => false
    end
  else true.

(** Some yes/no option is given with yes and with no. *)
Definition conflicting (toks : list (Z * option string)) : bool :=
  existsb (fun k => given_yes k toks && given_no k toks) yesno_keys.

(** The command lines [parseArgs] returns on. *)
Definition accepted (cl : cmdline) : bool :=
  forallb arg_accepted (cl_opts cl) &&
  negb (conflicting (cl_opts cl)) &&
  negb (given PUSH (cl_opts cl) && given PULL (cl_opts cl)) &&
  match cl_cmd cl with
  | [] => false
  | _ => true
  end.

(** The feature bits, each with what a command line decides for it. *)
Definition flag_bits (toks : list (Z * option string)) : list (Z * bool) :=
  [ (OPT_COBO, true);
    (OPT_DEBUG, yesno_setting DEBUG toks);
    (OPT_FOLLOWFORK, yesno_setting FOLLOWFORK toks);
    (OPT_PRELOAD, given PRELOAD toks);
    (OPT_PUSH, negb (given PULL toks));
    (OPT_PULL, given PULL toks);
    (OPT_RELOCAOUT, yesno_setting RELOCAOUT toks && negb (yesno_setting DEBUG toks));
    (OPT_RELOCSO, yesno_setting RELOCSO toks);
    (OPT_RELOCEXEC, yesno_setting RELOCEXEC toks && negb (yesno_setting DEBUG toks));
    (OPT_RELOCPY, yesno_setting RELOCPY toks);
    (OPT_STRIP, yesno_setting STRIP toks);
    (OPT_NOCLEAN, yesno_setting NOCLEAN toks);
    (OPT_NOHIDE, given HIDE toks);
    (OPT_NOMPI, given NOMPI toks);
    (OPT_REMAPEXEC, yesno_setting DEBUG toks) ].

(** The security model a command line selects. *)
Definition selected_model (toks : list (Z * option string)) : Z :=
  match last_sec_key toks with
  | Some k => k - 256
  | None => DEFAULT_SEC
  end.

(** The option word a command line stands for. *)
Definition option_word (toks : list (Z * option string)) : Z :=
  Z.lor (fold_right (fun (fb : Z * bool) acc => Z.lor (if snd fb then fst fb else 0) acc) 0
                    (flag_bits toks))
        (Z.shiftl (selected_model toks) OPT_SEC_SHIFT).

(** The entries of the table before the closing one. *)
Definition option_entries : list argp_option := removelast options.

End Parseargs.

(** ** A header and a configuration to run the definitions on *)

(** A layout of the option word that [header_ok] accepts: one bit for each
    feature and the security model above them. *)
Definition sample_header : Header :=
  {| OPT_COBO := Z.shiftl 1 1; OPT_DEBUG := Z.shiftl 1 2;
     OPT_FOLLOWFORK := Z.shiftl 1 3; OPT_PRELOAD := Z.shiftl 1 4;
     OPT_PUSH := Z.shiftl 1 5; OPT_PULL := Z.shiftl 1 6;
     OPT_RELOCAOUT := Z.shiftl 1 7; OPT_RELOCSO := Z.shiftl 1 8;
     OPT_RELOCEXEC := Z.shiftl 1 9; OPT_RELOCPY := Z.shiftl 1 10;
     OPT_STRIP := Z.shiftl 1 11; OPT_NOCLEAN := Z.shiftl 1 12;
     OPT_NOHIDE := Z.shiftl 1 13; OPT_REMAPEXEC := Z.shiftl 1 14;
     OPT_NOMPI := Z.shiftl 1 18;
     OPT_SEC_MUNGE := 0; OPT_SEC_KEYLMON := 1; OPT_SEC_KEYFILE := 2;
     OPT_SEC_NULL := 3; OPT_SEC_SHIFT := 19 |}.

Definition mk_config (munge seclmon keyfile null : bool) (prefix : string) : Config :=
  {| MUNGE := munge; SECLMON := seclmon; KEYFILE := keyfile;
     ENABLE_NULL_ENCRYPTION := null; USAGE_LOGGING_FILE := false;
     SPINDLE_PORT := 21940; SPINDLE_LOC := "/tmp"; PYTHON_INST_PREFIX := prefix |}.

Definition sample_config : Config := mk_config true true true true "/a:/b".

(** A build with LaunchMON key exchange as its only security model. *)
Definition lmon_config : Config := mk_config false true false false "/a:/b".

Definition sample_cmdline (toks : list (Z * option string)) : cmdline :=
  {| cl_head := ["spindle"]; cl_opts := toks; cl_cmd := ["mpirun"; "a.out"] |}.

(** An argp state and the initial variables for single calls of [parse]. *)
Definition sample_state : argp_state :=
  {| st_argc := 3; st_argv := ["spindle"; "mpirun"; "a.out"]; st_next := 3 |}.

Definition sample_globals : globals := @initial_globals sample_config.

(** A run of [parseArgs] on the sample build, from the initial variables. *)
Definition sample_run (toks : list (Z * option string)) : outcome (Z * globals) :=
  @parseArgs sample_header sample_config (sample_cmdline toks) sample_globals.

(** A command line without a command. *)
Definition bare_cmdline (toks : list (Z * option string)) : cmdline :=
  {| cl_head := ["spindle"]; cl_opts := toks; cl_cmd := [] |}.

(** The initial variables with a user list of python prefixes. *)
Definition prefix_globals : globals :=
  set_user_python_prefixes (Some "/b:/c:/a") sample_globals.

(** Turns the goal and the equations of the context into equations between
    the bits of index [n]. *)
Ltac push_testbit n Hn :=
  repeat first
    [ rewrite Z.land_spec | rewrite Z.lor_spec | rewrite Z.ldiff_spec
    | rewrite Z.lxor_spec | rewrite Z.bits_0
    | rewrite (Z.lnot_spec _ n Hn)
    | rewrite (Z.testbit_ones_nonneg 64 n ltac:(lia) Hn) ].

Ltac push_testbit_in H n Hn :=
  repeat first
    [ rewrite Z.land_spec in H | rewrite Z.lor_spec in H
    | rewrite Z.ldiff_spec in H | rewrite Z.lxor_spec in H
    | rewrite Z.bits_0 in H
    | rewrite (Z.lnot_spec _ n Hn) in H
    | rewrite (Z.testbit_ones_nonneg 64 n ltac:(lia) Hn) in H ].

Ltac name_bits :=
  repeat match goal with
    | |- context [Z.testbit ?a ?n] =>
        let b := fresh "b" in set (b := Z.testbit a n) in *; clearbody b
    | H : context [Z.testbit ?a ?n] |- _ =>
        let b := fresh "b" in set (b := Z.testbit a n) in *; clearbody b
    | |- context [?n <? 64] =>
        let b := fresh "b" in set (b := n <? 64) in *; clearbody b
    | H : context [?n <? 64] |- _ =>
        let b := fresh "b" in set (b := n <? 64) in *; clearbody b
    end.

(** Unit propagation: a bit that an equation of the context fixes is
    replaced by its value. *)
Ltac propagate_bits :=
  repeat (simpl in *; try discriminate;
          match goal with
          | H : ?b = true |- _ => is_var b; subst b
          | H : ?b = false |- _ => is_var b; subst b
          | H : true = ?b |- _ => is_var b; subst b
          | H : false = ?b |- _ => is_var b; subst b
          | H : negb ?b = true |- _ => is_var b; destruct b; [discriminate|]
          | H : negb ?b = false |- _ => is_var b; destruct b; [|discriminate]
          | H : ?b && _ = true |- _ => is_var b; destruct b; [|discriminate]
          | H : ?b || _ = false |- _ => is_var b; destruct b; [discriminate|]
          | H : true = true |- _ => clear H
          | H : false = false |- _ => clear H
          end).

Ltac split_goal_bit :=
  match goal with
  | b : bool |- ?G =>
      match G with context [b] => destruct b end
  end.

Ltac split_hyp_bit :=
  match goal with
  | b : bool, H : ?T |- _ =>
      match T with context [b] => destruct b end
  end.

Ltac split_bits :=
  propagate_bits; try reflexivity;
  repeat (split_goal_bit; propagate_bits; try reflexivity);
  repeat (split_hyp_bit; propagate_bits; try reflexivity).

(** Proves an equation between bit vectors from the equations between bit
    vectors of the context. *)
Ltac bitwise :=
  unfold not_ul, ULONG_BITS, disjoint in *;
  apply Z.bits_inj'; let n := fresh "n" in let Hn := fresh "Hn" in
  intros n Hn;
  repeat match goal with
    | H : @eq Z _ _ |- _ =>
        apply (f_equal (fun z => Z.testbit z n)) in H; cbv beta in H;
        push_testbit_in H n Hn; revert H
    end;
  push_testbit n Hn; intros; name_bits; clear n Hn; split_bits.

(** ** Single bits and [multi_bits_set] *)

Lemma single_bit_pow2 (f : Z) :
  single_bit f -> exists k, 0 <= k < 31 /\ f = 2 ^ k.
Proof.
  intros [[Hpos Hlt] Heq]. exists (Z.log2 f). split; [|exact Heq].
  split; [apply Z.log2_nonneg|].
  apply Z.log2_lt_pow2; assumption.
Qed.

Lemma land_pow2_cases (e k : Z) :
  0 <= k -> Z.land e (2 ^ k) = 0 \/ Z.land e (2 ^ k) = 2 ^ k.
Proof.
  intros Hk. destruct (Z.testbit e k) eqn:E; [right|left];
    apply Z.bits_inj'; intros n Hn;
    rewrite Z.land_spec, ?Z.bits_0, Z.pow2_bits_eqb by assumption;
    destruct (Z.eqb_spec k n) as [->|]; rewrite ?E, ?andb_false_r; reflexivity.
Qed.

Lemma land_single_bit_cases (e f : Z) :
  single_bit f -> Z.land e f = 0 \/ Z.land e f = f.
Proof.
  intros Hf. destruct (single_bit_pow2 f Hf) as (k & Hk & ->).
  apply land_pow2_cases; lia.
Qed.

Lemma single_bit_nonzero (f : Z) : single_bit f -> f <> 0.
Proof. intros [[Hpos _] _]. lia. Qed.

Lemma pred_ul_small (v : Z) : 0 < v < 2 ^ 64 -> pred_ul v = v - 1.
Proof.
  intros Hv. unfold pred_ul, ULONG_BITS. apply Z.mod_small. lia.
Qed.

Lemma testbit_pow2_plus (k m : Z) :
  0 <= k -> 0 <= m < 2 ^ k -> Z.testbit (2 ^ k + m) k = true.
Proof.
  intros Hk Hm. apply Z.testbit_true; [assumption|].
  replace ((2 ^ k + m) / 2 ^ k) with 1; [reflexivity|].
  apply Z.div_unique with (r := m); lia.
Qed.

Lemma multi_bits_set_single (f : Z) : single_bit f -> multi_bits_set f = false.
Proof.
  intros Hf. destruct (single_bit_pow2 f Hf) as (k & Hk & ->).
  unfold multi_bits_set.
  assert (H31 : 2 ^ k < 2 ^ 31) by (apply Z.pow_lt_mono_r; lia).
  assert (Hp : 0 < 2 ^ k) by (apply Z.pow_pos_nonneg; lia).
  rewrite pred_ul_small by lia.
  replace (2 ^ k - 1) with (Z.ones k) by (rewrite Z.ones_equiv; lia).
  replace (Z.land (2 ^ k) (Z.ones k)) with 0; [reflexivity|].
  symmetry. apply Z.bits_inj'; intros n Hn.
  rewrite Z.land_spec, Z.bits_0, Z.pow2_bits_eqb, Z.testbit_ones_nonneg by lia.
  destruct (Z.eqb_spec k n) as [->|]; [|reflexivity].
  rewrite Z.ltb_irrefl. reflexivity.
Qed.

Lemma multi_bits_set_pow2_pair (j k : Z) :
  0 <= j < k -> k < 31 -> multi_bits_set (Z.lor (2 ^ j) (2 ^ k)) = true.
Proof.
  intros Hj Hk. unfold multi_bits_set.
  assert (Hjk : 2 ^ j < 2 ^ k) by (apply Z.pow_lt_mono_r; lia).
  assert (H31 : 2 ^ k < 2 ^ 31) by (apply Z.pow_lt_mono_r; lia).
  assert (Hp : 0 < 2 ^ j) by (apply Z.pow_pos_nonneg; lia).
  assert (Hd : Z.land (2 ^ j) (2 ^ k) = 0).
  { apply Z.bits_inj'; intros n Hn.
    rewrite Z.land_spec, Z.bits_0, !Z.pow2_bits_eqb by lia.
    destruct (Z.eqb_spec j n), (Z.eqb_spec k n); try reflexivity; lia. }
  assert (Hsum : Z.lor (2 ^ j) (2 ^ k) = 2 ^ k + 2 ^ j).
  { pose proof (Z.add_lor_land (2 ^ j) (2 ^ k)) as E. rewrite Hd in E. lia. }
  rewrite Hsum, pred_ul_small by lia.
  apply negb_true_iff, Z.eqb_neq. intros H0.
  apply (f_equal (fun z => Z.testbit z k)) in H0.
  rewrite Z.land_spec, Z.bits_0 in H0.
  rewrite testbit_pow2_plus in H0 by lia.
  replace (2 ^ k + 2 ^ j - 1) with (2 ^ k + (2 ^ j - 1)) in H0 by lia.
  rewrite testbit_pow2_plus in H0 by lia.
  discriminate.
Qed.

Lemma multi_bits_set_pair (a b : Z) :
  single_bit a -> single_bit b -> disjoint a b ->
  multi_bits_set (Z.lor a b) = true.
Proof.
  intros Ha Hb Hd.
  destruct (single_bit_pow2 a Ha) as (j & Hj & ->).
  destruct (single_bit_pow2 b Hb) as (k & Hk & ->).
  assert (j <> k).
  { intros ->. unfold disjoint in Hd. rewrite Z.land_diag in Hd.
    assert (0 < 2 ^ k) by (apply Z.pow_pos_nonneg; lia). lia. }
  destruct (Z.lt_ge_cases j k).
  - apply multi_bits_set_pow2_pair; lia.
  - rewrite Z.lor_comm. apply multi_bits_set_pow2_pair; lia.
Qed.


(** ** atoi and the port *)

Lemma digits_nondigit (acc : Z) (c : ascii) (r : string) :
  isdigit c = false -> digits acc (String c r) = acc.
Proof. intros H. cbn [digits]. rewrite H. reflexivity. Qed.

Lemma strtol10_no_digits (s : string) : starts_numeric s = false -> strtol10 s = 0.
Proof.
  unfold starts_numeric, strtol10.
  destruct (skip_spaces s) as [|c r]; [reflexivity|].
  destruct c as [[] [] [] [] [] [] [] []]; cbv beta iota zeta; intros H;
    first
      [ rewrite (digits_nondigit _ _ _ H); reflexivity
      | destruct r as [|c' r']; cbv beta iota zeta in H |- *;
        [reflexivity | rewrite (digits_nondigit _ _ _ H); reflexivity] ].
Qed.

Lemma atoi_no_digits (s : string) : starts_numeric s = false -> atoi s = 0.
Proof. intros H. unfold atoi. rewrite (strtol10_no_digits s H). reflexivity. Qed.

Lemma isdigit_plain (c : ascii) :
  isdigit c = true -> isspace c = false /\ c <> "-"%char /\ c <> "+"%char.
Proof.
  destruct c as [[] [] [] [] [] [] [] []]; vm_compute; intros H;
    try discriminate; repeat split; discriminate.
Qed.

Lemma strtol10_numeric (s : string) :
  numeric s = true -> LONG_MIN <= digits 0 s <= LONG_MAX ->
  strtol10 s = digits 0 s.
Proof.
  unfold numeric. destruct s as [|c r]; [discriminate|].
  cbn [nonempty all_digits andb]. intros H Hr.
  apply andb_true_iff in H as [Hc _].
  destruct (isdigit_plain c Hc) as (Hs & Hm & Hp).
  unfold strtol10. cbn [skip_spaces]. rewrite Hs.
  destruct c as [[] [] [] [] [] [] [] []]; cbv beta iota zeta;
    first [lia | contradiction Hp; reflexivity | contradiction Hm; reflexivity].
Qed.

Lemma atoi_numeric (s : string) :
  numeric s = true -> 0 < digits 0 s < 2 ^ 31 ->
  to_uint (atoi s) = digits 0 s.
Proof.
  intros Hn Hr. unfold atoi.
  rewrite strtol10_numeric by (assumption || (unfold LONG_MIN, LONG_MAX; lia)).
  unfold to_int, to_uint, UINT_BITS.
  rewrite (Z.mod_small (digits 0 s + 2 ^ 31)) by lia.
  rewrite Z.mod_small by lia. lia.
Qed.

(** ** The header *)

Ltac invert_foralls :=
  repeat match goal with
    | H : ForallOrdPairs _ (_ :: _) |- _ => inversion H; clear H; subst
    | H : ForallOrdPairs _ [] |- _ => clear H
    | H : Forall _ (_ :: _) |- _ =>
        pose proof (Forall_inv H); apply Forall_inv_tail in H
    | H : Forall _ [] |- _ => clear H
    end.

Section Resolution.

Context {hdr : Header} {cfg : Config}.
Hypothesis Hok : header_ok.

(** The pairwise facts of [header_ok], put in the context. *)
Ltac flag_facts :=
  let H := fresh in
  pose proof (flags_disjoint Hok) as H; unfold feature_flags in H;
  invert_foralls.

Ltac sec_facts m Hm :=
  let H := fresh in
  pose proof (sec_field_disjoint Hok) as H;
  rewrite Forall_forall in H; specialize (H m Hm);
  unfold feature_flags in H; invert_foralls.

Lemma flag_single_bit (f : Z) : In f feature_flags -> single_bit f.
Proof.
  intros Hin. pose proof (flags_single_bit Hok) as H.
  rewrite Forall_forall in H. apply H, Hin.
Qed.

Ltac flag_in := unfold feature_flags; simpl; tauto.

Lemma cobo_single : single_bit OPT_COBO.
Proof. apply flag_single_bit. flag_in. Qed.
Lemma push_single : single_bit OPT_PUSH.
Proof. apply flag_single_bit. flag_in. Qed.
Lemma pull_single : single_bit OPT_PULL.
Proof. apply flag_single_bit. flag_in. Qed.
Lemma preload_single : single_bit OPT_PRELOAD.
Proof. apply flag_single_bit. flag_in. Qed.
Lemma push_pull_disjoint : disjoint OPT_PUSH OPT_PULL.
Proof. flag_facts. assumption. Qed.

(** ** The finalize step *)

Lemma finalize_conflict (st : argp_state) (g : globals) :
  Z.land (enabled_opts g) (disabled_opts g) <> 0 ->
  finalize st g = Exits conflict_msg.
Proof.
  intros H. unfold finalize.
  destruct (Z.eqb_spec (Z.land (enabled_opts g) (disabled_opts g)) 0);
    [contradiction|reflexivity].
Qed.

Lemma network_single_choice (e : Z) :
  multi_bits_set (Z.land e all_network_opts) = false /\
  (if negb (Z.land e all_network_opts =? 0) then Z.land e all_network_opts
   else default_network_opts) = default_network_opts.
Proof.
  unfold all_network_opts, default_network_opts.
  destruct (land_single_bit_cases e OPT_COBO cobo_single) as [-> | ->].
  - split; reflexivity.
  - split; [apply multi_bits_set_single, cobo_single|].
    destruct (Z.eqb_spec OPT_COBO 0); reflexivity.
Qed.

Lemma pushpull_cases (e : Z) :
  (Z.land e OPT_PUSH = OPT_PUSH /\ Z.land e OPT_PULL = OPT_PULL /\
   multi_bits_set (Z.land e all_pushpull_opts) = true) \/
  (multi_bits_set (Z.land e all_pushpull_opts) = false /\
   (Z.land e OPT_PUSH = 0 \/ Z.land e OPT_PULL = 0) /\
   Z.land e all_pushpull_opts = Z.lor (Z.land e OPT_PUSH) (Z.land e OPT_PULL)).
Proof.
  unfold all_pushpull_opts. rewrite Z.land_lor_distr_r.
  destruct (land_single_bit_cases e OPT_PUSH push_single) as [E1 | E1];
    destruct (land_single_bit_cases e OPT_PULL pull_single) as [E2 | E2];
    rewrite E1, E2.
  - right. repeat split; auto.
  - right. rewrite Z.lor_0_l.
    repeat split; auto. apply multi_bits_set_single, pull_single.
  - right. rewrite Z.lor_0_r.
    repeat split; auto. apply multi_bits_set_single, push_single.
  - left. repeat split.
    apply multi_bits_set_pair;
      [apply push_single | apply pull_single | apply push_pull_disjoint].
Qed.

Lemma finalize_both_push_pull (st : argp_state) (g : globals) :
  Z.land (enabled_opts g) (disabled_opts g) = 0 ->
  Z.land (enabled_opts g) OPT_PUSH = OPT_PUSH ->
  Z.land (enabled_opts g) OPT_PULL = OPT_PULL ->
  finalize st g = Exits pushpull_msg.
Proof.
  intros Hc Hpush Hpull. unfold finalize. rewrite Hc. simpl.
  destruct (network_single_choice (enabled_opts g)) as [-> _].
  destruct (pushpull_cases (enabled_opts g)) as [(_ & _ & ->) | (_ & [H0 | H0] & _)].
  - reflexivity.
  - rewrite H0 in Hpush. symmetry in Hpush.
    destruct (single_bit_nonzero _ push_single Hpush).
  - rewrite H0 in Hpull. symmetry in Hpull.
    destruct (single_bit_nonzero _ pull_single Hpull).
Qed.

Lemma finalize_returns (st : argp_state) (g : globals) :
  Z.land (enabled_opts g) (disabled_opts g) = 0 ->
  (Z.land (enabled_opts g) OPT_PUSH = 0 \/ Z.land (enabled_opts g) OPT_PULL = 0) ->
  finalize st g = Returns (0, set_opts (resolved g) (set_sec_model (chosen_sec g) g)).
Proof.
  intros Hc Hone. unfold finalize. rewrite Hc. simpl.
  destruct (network_single_choice (enabled_opts g)) as [-> ->].
  destruct (pushpull_cases (enabled_opts g)) as [(H1 & H2 & _) | (-> & _ & _)].
  - exfalso. destruct Hone as [H0 | H0].
    + rewrite H0 in H1. symmetry in H1.
      exact (single_bit_nonzero _ push_single H1).
    + rewrite H0 in H2. symmetry in H2.
      exact (single_bit_nonzero _ pull_single H2).
  - unfold resolved, pushpull_choice, reloc_part, misc_part, chosen_sec, OPT_SET_SEC.
    destruct (Z.land (enabled_opts g) all_pushpull_opts =? 0); reflexivity.
Qed.

(** The three ways finalize can end. *)
Lemma finalize_cases (st : argp_state) (g : globals) :
  (Z.land (enabled_opts g) (disabled_opts g) <> 0 /\
   finalize st g = Exits conflict_msg) \/
  (Z.land (enabled_opts g) (disabled_opts g) = 0 /\
   Z.land (enabled_opts g) OPT_PUSH = OPT_PUSH /\
   Z.land (enabled_opts g) OPT_PULL = OPT_PULL /\
   finalize st g = Exits pushpull_msg) \/
  (Z.land (enabled_opts g) (disabled_opts g) = 0 /\
   (Z.land (enabled_opts g) OPT_PUSH = 0 \/ Z.land (enabled_opts g) OPT_PULL = 0) /\
   finalize st g = Returns (0, set_opts (resolved g) (set_sec_model (chosen_sec g) g))).
Proof.
  destruct (Z.eq_dec (Z.land (enabled_opts g) (disabled_opts g)) 0) as [Hc | Hc].
  - right.
    destruct (land_single_bit_cases (enabled_opts g) OPT_PUSH push_single) as [E1 | E1];
      destruct (land_single_bit_cases (enabled_opts g) OPT_PULL pull_single) as [E2 | E2];
      try (right; split; [exact Hc|]; split; [tauto|]; apply finalize_returns; tauto).
    left. repeat split; auto. apply finalize_both_push_pull; assumption.
  - left. split; [exact Hc|]. apply finalize_conflict, Hc.
Qed.

Lemma sec_model_range (m : Z) : In m sec_models -> 0 <= m < 0x1000000 - 256.
Proof.
  intros Hin. pose proof (sec_models_range Hok) as H.
  rewrite Forall_forall in H. apply H, Hin.
Qed.

Lemma sec_models_neq :
  OPT_SEC_MUNGE <> OPT_SEC_KEYLMON /\ OPT_SEC_MUNGE <> OPT_SEC_KEYFILE /\
  OPT_SEC_MUNGE <> OPT_SEC_NULL /\ OPT_SEC_KEYLMON <> OPT_SEC_KEYFILE /\
  OPT_SEC_KEYLMON <> OPT_SEC_NULL /\ OPT_SEC_KEYFILE <> OPT_SEC_NULL.
Proof.
  pose proof (sec_models_distinct Hok) as H. unfold sec_models in H.
  repeat match goal with
    | H : NoDup (_ :: _) |- _ => apply NoDup_cons_iff in H; destruct H
    end.
  simpl in *. intuition congruence.
Qed.

Ltac sec_ranges :=
  pose proof (sec_model_range OPT_SEC_MUNGE ltac:(unfold sec_models; simpl; tauto));
  pose proof (sec_model_range OPT_SEC_KEYLMON ltac:(unfold sec_models; simpl; tauto));
  pose proof (sec_model_range OPT_SEC_KEYFILE ltac:(unfold sec_models; simpl; tauto));
  pose proof (sec_model_range OPT_SEC_NULL ltac:(unfold sec_models; simpl; tauto)).

(** ** Looking an option up in the table *)

Ltac key_nums :=
  unfold SECMUNGE, SECKEYLMON, SECKEYFILE, SECNULL,
    RELOCAOUT, COBO, DEBUG, PRELOAD, FOLLOWFORK, HIDE, RELOCSO, NOMPI,
    NOCLEAN, LOCATION, PUSH, PULL, PYTHONPREFIX, STRIP, PORT, RELOCEXEC,
    RELOCPY, DISABLE_LOGGING, ARGP_KEY_ARG, ARGP_KEY_ARGS, ARGP_KEY_END,
    ARGP_KEY_NO_ARGS, ARGP_KEY_INIT, ARGP_KEY_SUCCESS, ARGP_KEY_FINI,
    GROUP_SEC, GROUP_MISC, GROUP_RELOC, GROUP_NETWORK, GROUP_PUSHPULL in *;
  repeat match goal with
    | |- context [chr ?c] =>
        let v := eval vm_compute in (chr c) in change (chr c) with v in *
    | H : context [chr ?c] |- _ =>
        let v := eval vm_compute in (chr c) in change (chr c) with v in *
    end.

Ltac eqb_step :=
  match goal with
  | |- context [?a =? ?b] =>
      first
        [ let v := eval vm_compute in (a =? b) in
          match v with
          | true => change (a =? b) with true
          | false => change (a =? b) with false
          end
        | destruct (Z.eqb_spec a b); [try (exfalso; lia) | try (exfalso; lia)] ]
  end.

Ltac decide_eqb := repeat (eqb_step; cbv iota).

(** A stretch of the table without the key is passed over. *)
Lemma find_entry_app_skip (k : Z) (l1 l2 : list argp_option) :
  forallb (fun e => negb (o_key e =? 0) && negb (o_key e =? k)) l1 = true ->
  find_entry k (l1 ++ l2) = find_entry k l2.
Proof.
  induction l1 as [|e l1 IH]; simpl; [reflexivity|].
  intros H. apply andb_true_iff in H as [He H].
  apply andb_true_iff in He as [H0 Hk].
  apply negb_true_iff in H0, Hk. rewrite H0, Hk. apply IH, H.
Qed.

Ltac skip_side :=
  try match goal with
    | |- context [if ?b then _ else _] => destruct b
    end;
  cbn [forallb o_key mk_option null_option negb andb];
  repeat (eqb_step; cbn [negb andb]); reflexivity.

(** Evaluates [find_entry k options] for a key [k] known to [lia]. *)
Ltac lookup :=
  sec_ranges; pose proof sec_models_neq; unfold options; key_nums;
  repeat first
    [ rewrite find_entry_app_skip by skip_side
    | progress (cbn [app find_entry o_key mk_option null_option]; decide_eqb) ];
  try reflexivity.

Lemma find_entry_key (k : Z) (tbl : list argp_option) :
  o_key (find_entry k tbl) = k \/ o_key (find_entry k tbl) = 0.
Proof.
  induction tbl as [|e r IH]; simpl.
  - right. reflexivity.
  - destruct (Z.eqb_spec (o_key e) 0); [right; assumption|].
    destruct (Z.eqb_spec (o_key e) k); [left; assumption|]. exact IH.
Qed.

Lemma find_entry_In (k : Z) (tbl : list argp_option) :
  In (find_entry k tbl) tbl \/ find_entry k tbl = null_option.
Proof.
  induction tbl as [|e r IH]; simpl.
  - right. reflexivity.
  - destruct (o_key e =? 0); [left; left; reflexivity|].
    destruct (o_key e =? k); [left; left; reflexivity|].
    destruct IH; [left; right; assumption | right; assumption].
Qed.

(** Keys that are not in the table end at the closing entry. *)
Lemma find_absent (k : Z) :
  k = 0 \/ 0x1000000 <= k -> find_entry k options = null_option.
Proof. intros Hk. lookup. Qed.

Lemma find_yesno (k : Z) :
  In k [RELOCAOUT; RELOCSO; RELOCPY; RELOCEXEC; FOLLOWFORK; DEBUG; STRIP; NOCLEAN] ->
  arg_is_YESNO (find_entry k options) = true.
Proof.
  intros Hk. simpl in Hk.
  repeat (destruct Hk as [<- | Hk]; [lookup|]); contradiction.
Qed.

Lemma find_flag (k : Z) :
  In k [PUSH; PULL; COBO] ->
  arg_is_YESNO (find_entry k options) = false /\
  o_key (find_entry k options) = k /\
  arg_is_NULL (find_entry k options) = true.
Proof.
  intros Hk. simpl in Hk.
  repeat (destruct Hk as [<- | Hk]; [lookup; repeat split|]); contradiction.
Qed.

Lemma find_PRELOAD :
  find_entry PRELOAD options = mk_option "preload" PRELOAD (Some "FILE") 0 GROUP_MISC.
Proof. lookup. Qed.

Lemma find_PORT :
  find_entry PORT options = mk_option "port" PORT (Some "number") 0 GROUP_NETWORK.
Proof. lookup. Qed.

Lemma find_sec (k : Z) :
  compiled_sec_key k ->
  arg_is_YESNO (find_entry k options) = false /\
  o_key (find_entry k options) = k /\
  arg_is_NULL (find_entry k options) = true /\
  o_group (find_entry k options) = GROUP_SEC.
Proof.
  intros [[Hc ->] | [[Hc ->] | [[Hc ->] | [Hc ->]]]]; lookup; rewrite Hc;
    cbn [app find_entry o_key mk_option]; key_nums; decide_eqb; repeat split.
Qed.

Lemma opt_key_to_code_sec (k : Z) : 256 <= k -> opt_key_to_code k = 0.
Proof.
  intros Hk. unfold opt_key_to_code. key_nums. decide_eqb. reflexivity.
Qed.

(** ** One call of the parser *)

(** The sentinel: once the command has been captured, every key but
    [ARGP_KEY_END] is ignored. *)
Lemma parse_done (k : Z) (a : option string) (st : argp_state) (g : globals) :
  done g = true -> k <> ARGP_KEY_END -> parse k a st g = Returns (0, g).
Proof.
  intros Hd Hk. unfold parse. rewrite Hd.
  destruct (Z.eqb_spec k ARGP_KEY_END); [contradiction|]. reflexivity.
Qed.

Lemma parse_END (a : option string) (st : argp_state) (g : globals) :
  parse ARGP_KEY_END a st g = finalize st g.
Proof.
  unfold parse. rewrite Z.eqb_refl, andb_false_r.
  rewrite find_absent by (key_nums; lia).
  unfold arg_is_YESNO, arg_is_NULL, null_option, opt_key_to_code.
  cbn [o_key o_arg o_group]. key_nums. decide_eqb. reflexivity.
Qed.

Lemma parse_ignored (k : Z) (a : option string) (st : argp_state) (g : globals) :
  In k [ARGP_KEY_INIT; ARGP_KEY_SUCCESS; ARGP_KEY_FINI] ->
  parse k a st g = Returns (0, g).
Proof.
  intros Hk. simpl in Hk.
  destruct (done g) eqn:Hd.
  - apply parse_done; [assumption|]. key_nums. lia.
  - unfold parse. rewrite Hd. cbn [andb].
    rewrite find_absent by (key_nums; lia).
    unfold arg_is_YESNO, arg_is_NULL, null_option, opt_key_to_code.
    cbn [o_key o_arg o_group]. key_nums. decide_eqb; reflexivity.
Qed.

Lemma parse_NO_ARGS (a : option string) (st : argp_state) (g : globals) :
  done g = false ->
  parse ARGP_KEY_NO_ARGS a st g = Exits "No MPI command line found".
Proof.
  intros Hd. unfold parse. rewrite Hd. cbn [andb].
  rewrite find_absent by (key_nums; lia).
  unfold arg_is_YESNO, arg_is_NULL, null_option, opt_key_to_code.
  cbn [o_key o_arg o_group]. key_nums. decide_eqb. reflexivity.
Qed.

Lemma parse_ARG (a : option string) (st : argp_state) (g : globals) :
  done g = false -> st_argc st <> 0 ->
  parse ARGP_KEY_ARG a st g = Returns (ARGP_ERR_UNKNOWN, g).
Proof.
  intros Hd Hc. unfold parse. rewrite Hd. cbn [andb].
  rewrite find_absent by (key_nums; lia).
  unfold arg_is_YESNO, arg_is_NULL, null_option, opt_key_to_code.
  cbn [o_key o_arg o_group]. key_nums. decide_eqb. reflexivity.
Qed.

Lemma parse_ARGS (a : option string) (st : argp_state) (g : globals) :
  done g = false ->
  parse ARGP_KEY_ARGS a st g =
  Returns (0, set_done true
                (set_mpi (skipn (Z.to_nat (st_next st)) (st_argv st))
                         (st_argc st - st_next st) g)).
Proof.
  intros Hd. unfold parse. rewrite Hd. cbn [andb].
  rewrite find_absent by (key_nums; lia).
  unfold arg_is_YESNO, arg_is_NULL, null_option, opt_key_to_code.
  cbn [o_key o_arg o_group]. key_nums. decide_eqb. reflexivity.
Qed.

Lemma parse_yesno (k : Z) (a : string) (st : argp_state) (g : globals) :
  done g = false -> In k yesno_keys ->
  parse k (Some a) st g =
  if ((a =? "yes") || (a =? "y"))%string then
    Returns (0, set_enabled_opts (Z.lor (enabled_opts g) (opt_key_to_code k)) g)
  else if ((a =? "no") || (a =? "n"))%string then
    Returns (0, set_disabled_opts (Z.lor (disabled_opts g) (opt_key_to_code k)) g)
  else Exits (entry_name (find_entry k options) ++ " must be 'yes' or 'no'").
Proof.
  intros Hd Hk. unfold parse. rewrite Hd. cbn [andb].
  rewrite (find_yesno k Hk). reflexivity.
Qed.

Lemma flag_code_nonzero (k : Z) :
  In k [PUSH; PULL; COBO] -> opt_key_to_code k <> 0.
Proof.
  intros Hk. simpl in Hk.
  destruct Hk as [<- | [<- | [<- | []]]]; unfold opt_key_to_code;
    key_nums; decide_eqb; apply single_bit_nonzero;
    [apply push_single | apply pull_single | apply cobo_single].
Qed.

Lemma parse_flag (k : Z) (a : option string) (st : argp_state) (g : globals) :
  done g = false -> In k [PUSH; PULL; COBO] ->
  parse k a st g =
  Returns (0, set_enabled_opts (Z.lor (enabled_opts g) (opt_key_to_code k)) g).
Proof.
  intros Hd Hk. unfold parse. rewrite Hd. cbn [andb].
  destruct (find_flag k Hk) as (-> & -> & ->).
  pose proof (flag_code_nonzero k Hk) as Hne.
  assert (k <> 0) by (simpl in Hk; key_nums; lia).
  destruct (Z.eqb_spec k 0); [contradiction|].
  destruct (Z.eqb_spec (opt_key_to_code k) 0); [contradiction|]. reflexivity.
Qed.

Lemma opt_key_to_code_PRELOAD : opt_key_to_code PRELOAD = OPT_PRELOAD.
Proof. unfold opt_key_to_code. key_nums. decide_eqb. reflexivity. Qed.

Lemma parse_PRELOAD (a : option string) (st : argp_state) (g : globals) :
  done g = false ->
  parse PRELOAD a st g =
  Returns (0, set_preload_file a
                (set_enabled_opts (Z.lor (enabled_opts g) OPT_PRELOAD) g)).
Proof.
  intros Hd. unfold parse. rewrite Hd. cbn [andb].
  rewrite find_PRELOAD, opt_key_to_code_PRELOAD.
  unfold arg_is_YESNO, arg_is_NULL, mk_option. cbn [o_key o_arg o_group].
  rewrite Z.eqb_refl, andb_false_r. reflexivity.
Qed.

Lemma parse_PORT (a : string) (st : argp_state) (g : globals) :
  done g = false ->
  parse PORT (Some a) st g =
  if to_uint (atoi a) =? 0 then Exits "Port was given a 0 value"
  else Returns (0, set_spindle_port (to_uint (atoi a)) g).
Proof.
  intros Hd. unfold parse. rewrite Hd. cbn [andb].
  rewrite find_PORT.
  unfold arg_is_YESNO, arg_is_NULL, mk_option. cbn [o_key o_arg o_group].
  rewrite andb_false_r. reflexivity.
Qed.

Lemma compiled_sec_key_range (k : Z) : compiled_sec_key k -> 256 <= k < 0x1000000.
Proof.
  sec_ranges. unfold compiled_sec_key. key_nums. intuition lia.
Qed.

Lemma parse_sec (k : Z) (a : option string) (st : argp_state) (g : globals) :
  done g = false -> compiled_sec_key k ->
  parse k a st g = Returns (0, set_sec_model (k - 256) g).
Proof.
  intros Hd Hk. unfold parse. rewrite Hd. cbn [andb].
  destruct (find_sec k Hk) as (-> & -> & -> & ->).
  pose proof (compiled_sec_key_range k Hk) as Hr.
  rewrite (opt_key_to_code_sec k) by lia.
  rewrite andb_false_r. key_nums. decide_eqb. reflexivity.
Qed.

Lemma options_In_cases (e : argp_option) :
  In e options ->
  e = null_option \/
  (0 < o_key e < 256 /\ o_group e <> GROUP_SEC) \/
  (compiled_sec_key (o_key e) /\ o_group e = GROUP_SEC).
Proof.
  unfold options, compiled_sec_key. intros H.
  rewrite !in_app_iff in H.
  destruct MUNGE, SECLMON, KEYFILE, ENABLE_NULL_ENCRYPTION; simpl In in H;
    repeat (destruct H as [H | H]); try contradiction; subst e;
    cbn [o_key o_group mk_option];
    try (left; reflexivity);
    try (right; left; key_nums; lia);
    right; right; tauto.
Qed.

Lemma option_key_cases (k : Z) :
  is_option_key k = true -> 0 < k < 256 \/ compiled_sec_key k.
Proof.
  unfold is_option_key. intros H. apply andb_true_iff in H as [Hk H].
  apply negb_true_iff, Z.eqb_neq in Hk.
  apply existsb_exists in H as (e & Hin & He). apply Z.eqb_eq in He. subst k.
  destruct (options_In_cases e Hin) as [-> | [[Hr _] | [Hc _]]].
  - contradiction Hk. reflexivity.
  - left. exact Hr.
  - right. exact Hc.
Qed.

Lemma option_key_range (k : Z) : is_option_key k = true -> 0 < k < 0x1000000.
Proof.
  intros H. destruct (option_key_cases k H) as [Hr | Hc]; [lia|].
  apply compiled_sec_key_range in Hc. lia.
Qed.

Lemma group_sec_compiled (k : Z) :
  o_group (find_entry k options) = GROUP_SEC -> k <> 0 -> compiled_sec_key k.
Proof.
  intros Hg Hk.
  destruct (find_entry_In k options) as [Hin | Hnull].
  - destruct (options_In_cases _ Hin) as [Hn | [[_ Hn] | [Hc _]]].
    + rewrite Hn in Hg. discriminate.
    + contradiction.
    + destruct (find_entry_key k options) as [E | E].
      * rewrite E in Hc. exact Hc.
      * rewrite E in Hc. apply compiled_sec_key_range in Hc. lia.
  - rewrite Hnull in Hg. discriminate.
Qed.

(** What one option can do to the variables. *)
Lemma parse_step (k : Z) (a : option string) (st : argp_state) (g g' : globals)
  (c : Z) :
  done g = false -> is_option_key k = true ->
  parse k a st g = Returns (c, g') ->
  c = 0 /\ done g' = false /\
  (enabled_opts g' = enabled_opts g \/
   enabled_opts g' = Z.lor (enabled_opts g) (opt_key_to_code k)) /\
  (disabled_opts g' = disabled_opts g \/
   disabled_opts g' = Z.lor (disabled_opts g) (opt_key_to_code k) /\
   arg_is_YESNO (find_entry k options) = true) /\
  (opts g' = opts g \/ opts g' = Z.lor (opts g) OPT_NOMPI \/
   opts g' = Z.lor (opts g) OPT_NOHIDE) /\
  (sec_model g' = sec_model g \/ compiled_sec_key k /\ sec_model g' = k - 256) /\
  (spindle_port g' = spindle_port g \/ k = PORT).
Proof.
  intros Hd Hk. pose proof (option_key_range k Hk) as Hr.
  unfold parse. rewrite Hd. cbn [andb].
  destruct (arg_is_YESNO (find_entry k options)) eqn:Hyn.
  { destruct a as [a|]; [|discriminate].
    destruct ((a =? "yes") || (a =? "y"))%string.
    - intros [= <- <-]. simpl. rewrite Hd. tauto.
    - destruct ((a =? "no") || (a =? "n"))%string; [|discriminate].
      intros [= <- <-]. simpl. rewrite Hd. tauto. }
  destruct (negb (o_key (find_entry k options) =? 0) &&
            arg_is_NULL (find_entry k options) &&
            negb (opt_key_to_code k =? 0)).
  { intros [= <- <-]. simpl. rewrite Hd. tauto. }
  destruct (o_key (find_entry k options) =? PRELOAD).
  { intros [= <- <-]. simpl. rewrite Hd. tauto. }
  destruct (Z.eqb_spec (o_key (find_entry k options)) PORT) as [Hp | _].
  { destruct a as [a|]; [|discriminate].
    destruct (to_uint (atoi a) =? 0); [discriminate|].
    intros [= <- <-]. simpl. rewrite Hd.
    destruct (find_entry_key k options) as [E | E].
    - rewrite E in Hp. tauto.
    - rewrite E in Hp. revert Hp. key_nums. lia. }
  destruct (o_key (find_entry k options) =? LOCATION).
  { destruct a as [a|]; [|discriminate].
    intros [= <- <-]. simpl. rewrite Hd. tauto. }
  destruct (k =? DISABLE_LOGGING).
  { intros [= <- <-]. simpl. rewrite Hd. tauto. }
  destruct (k =? NOMPI).
  { intros [= <- <-]. simpl. rewrite Hd. tauto. }
  destruct (k =? HIDE).
  { intros [= <- <-]. simpl. rewrite Hd. tauto. }
  destruct (Z.eqb_spec (o_group (find_entry k options)) GROUP_SEC) as [Hg | _].
  { intros [= <- <-]. simpl. rewrite Hd.
    pose proof (group_sec_compiled k Hg ltac:(lia)). tauto. }
  destruct (Z.eqb_spec k ARGP_KEY_ARG) as [E | _].
  { revert E. key_nums. lia. }
  destruct (k =? PYTHONPREFIX).
  { intros [= <- <-]. simpl. rewrite Hd. tauto. }
  destruct (Z.eqb_spec k ARGP_KEY_ARGS) as [E | _].
  { revert E. key_nums. lia. }
  destruct (Z.eqb_spec k ARGP_KEY_END) as [E | _].
  { revert E. key_nums. lia. }
  destruct (Z.eqb_spec k ARGP_KEY_NO_ARGS) as [E | _].
  { revert E. key_nums. lia. }
  intros [= <- <-]. rewrite Hd. tauto.
Qed.

(** ** The scan of the options *)

Lemma wf_opts_cons (t : Z * option string) (toks : list (Z * option string)) :
  wf_opts (t :: toks) -> is_option_key (fst t) = true /\ wf_opts toks.
Proof. unfold wf_opts. simpl. intros H. apply andb_true_iff in H. exact H. Qed.

(** A property that every option keeps is kept by the scan, and the scan
    leaves the sentinel down. *)
Lemma parse_options_invariant (P : globals -> Prop) (st : argp_state) :
  (forall k a g c g',
      done g = false -> is_option_key k = true ->
      parse k a st g = Returns (c, g') -> P g -> P g') ->
  forall toks g g',
    wf_opts toks -> done g = false ->
    parse_options st toks g = Returns g' -> P g -> P g' /\ done g' = false.
Proof.
  intros Hstep. induction toks as [|[k a] toks IH]; intros g g' Hwf Hd Hrun HP.
  - simpl in Hrun. injection Hrun as <-. split; assumption.
  - apply wf_opts_cons in Hwf as [Hk Hwf]. simpl in Hk, Hrun.
    destruct (parse k a st g) as [[c g1] | | |] eqn:Hp; simpl in Hrun;
      try discriminate.
    destruct (parse_step k a st g g1 c Hd Hk Hp) as (-> & Hd1 & _).
    simpl in Hrun. apply (IH g1 g'); try assumption.
    apply (Hstep k a g 0 g1); assumption.
Qed.

Lemma parse_options_done (st : argp_state) (toks : list (Z * option string))
  (g g' : globals) :
  wf_opts toks -> done g = false ->
  parse_options st toks g = Returns g' -> done g' = false.
Proof.
  intros Hwf Hd Hrun.
  apply (parse_options_invariant (fun _ => True) st) with (toks := toks) (g := g);
    auto.
Qed.

(** The scan only adds to the two sets. *)
Lemma parse_options_enabled_mono (st : argp_state) (f : Z)
  (toks : list (Z * option string)) (g g' : globals) :
  wf_opts toks -> done g = false ->
  parse_options st toks g = Returns g' ->
  Z.land (enabled_opts g) f = f -> Z.land (enabled_opts g') f = f.
Proof.
  intros Hwf Hd Hrun.
  apply (parse_options_invariant
           (fun g => Z.land (enabled_opts g) f = f) st) with (toks := toks);
    auto.
  clear Hwf Hd Hrun g g'. intros k a g c g' Hd Hk Hp Hf.
  destruct (parse_step k a st g g' c Hd Hk Hp) as (_ & _ & [-> | ->] & _);
    [assumption|].
  clear Hp. bitwise.
Qed.

Lemma parse_options_disabled_mono (st : argp_state) (f : Z)
  (toks : list (Z * option string)) (g g' : globals) :
  wf_opts toks -> done g = false ->
  parse_options st toks g = Returns g' ->
  Z.land (disabled_opts g) f = f -> Z.land (disabled_opts g') f = f.
Proof.
  intros Hwf Hd Hrun.
  apply (parse_options_invariant
           (fun g => Z.land (disabled_opts g) f = f) st) with (toks := toks);
    auto.
  clear Hwf Hd Hrun g g'. intros k a g c g' Hd Hk Hp Hf.
  destruct (parse_step k a st g g' c Hd Hk Hp) as (_ & _ & _ & [-> | [-> _]] & _);
    [assumption|].
  clear Hp. bitwise.
Qed.

(** The scan leaves the option word within the two bits it may set. *)
Lemma parse_options_opts (st : argp_state) (toks : list (Z * option string))
  (g g' : globals) :
  wf_opts toks -> done g = false ->
  parse_options st toks g = Returns g' ->
  Z.ldiff (opts g) (Z.lor OPT_NOMPI OPT_NOHIDE) = 0 ->
  Z.ldiff (opts g') (Z.lor OPT_NOMPI OPT_NOHIDE) = 0.
Proof.
  intros Hwf Hd Hrun.
  apply (parse_options_invariant
           (fun g => Z.ldiff (opts g) (Z.lor OPT_NOMPI OPT_NOHIDE) = 0) st)
    with (toks := toks); auto.
  clear Hwf Hd Hrun g g'. intros k a g c g' Hd Hk Hp Hf.
  destruct (parse_step k a st g g' c Hd Hk Hp)
    as (_ & _ & _ & _ & [-> | [-> | ->]] & _); [assumption| |];
    clear Hp; bitwise.
Qed.

Lemma parse_options_sec (st : argp_state) (toks : list (Z * option string))
  (g g' : globals) :
  wf_opts toks -> done g = false ->
  parse_options st toks g = Returns g' ->
  sec_model_ok g -> sec_model_ok g'.
Proof.
  intros Hwf Hd Hrun.
  apply (parse_options_invariant sec_model_ok st) with (toks := toks); auto.
  clear Hwf Hd Hrun g g'. intros k a g c g' Hd Hk Hp Hf. unfold sec_model_ok in *.
  destruct (parse_step k a st g g' c Hd Hk Hp)
    as (_ & _ & _ & _ & _ & [-> | [Hc ->]] & _); [assumption|].
  right. replace (k - 256 + 256) with k by lia. exact Hc.
Qed.

(** ** The whole of argp_parse *)

Lemma parse_words_capture (cl : cmdline) (g : globals) :
  done g = false -> cl_cmd cl <> [] ->
  parse_words cl (List.length (cl_head cl)) (cl_cmd cl) g = Returns (captured cl g).
Proof.
  intros Hd Hne. destruct (cl_cmd cl) as [|w rest] eqn:Hcmd; [contradiction|].
  cbn [parse_words].
  assert (Hargc : st_argc (state_at cl (S (List.length (cl_head cl)))) <> 0).
  { unfold state_at, cl_argv. cbn [st_argc]. rewrite Hcmd, length_app. simpl. lia. }
  rewrite (parse_ARG _ _ _ Hd Hargc). cbn [bind fst snd].
  change (ARGP_ERR_UNKNOWN =? 0) with false. cbn iota.
  rewrite (parse_ARGS _ _ _ Hd). cbn [bind fst snd]. rewrite Z.eqb_refl.
  unfold captured, state_at, cl_argv. cbn [st_argc st_argv st_next].
  rewrite Nat2Z.id, skipn_app, skipn_all, Nat.sub_diag, length_app, Hcmd.
  cbn [skipn app]. f_equal. f_equal. f_equal. lia.
Qed.

Lemma finalize_code (st : argp_state) (g g' : globals) (c : Z) :
  finalize st g = Returns (c, g') -> c = 0.
Proof.
  destruct (finalize_cases st g) as [[_ E] | [(_ & _ & _ & E) | (_ & _ & E)]];
    rewrite E; congruence.
Qed.

(** argp_parse is the scan, the capture of the command and finalize. *)
Lemma argp_parse_eq (cl : cmdline) (g : globals) :
  wf_cmdline cl -> done g = false ->
  argp_parse cl g =
  (g1 <- parse_options (scan_state cl) (cl_opts cl) g ;;
   match cl_cmd cl with
   | [] => Exits "No MPI command line found"
   | _ => r <- finalize (end_state cl) (captured cl g1) ;; Returns (snd r)
   end).
Proof.
  intros Hwf Hd. unfold argp_parse.
  rewrite parse_ignored by (simpl; tauto). cbn [bind snd].
  fold (scan_state cl).
  destruct (parse_options (scan_state cl) (cl_opts cl) g) as [g1| | |] eqn:Hscan;
    cbn [bind]; try reflexivity.
  pose proof (parse_options_done _ _ _ _ Hwf Hd Hscan) as Hd1.
  destruct (cl_cmd cl) as [|w rest] eqn:Hcmd.
  - rewrite (parse_NO_ARGS _ _ _ Hd1). reflexivity.
  - rewrite <- Hcmd.
    rewrite parse_words_capture by (assumption || (rewrite Hcmd; discriminate)).
    cbn [bind]. rewrite parse_END. fold (end_state cl).
    destruct (finalize (end_state cl) (captured cl g1)) as [[c g2]| | |] eqn:Hfin;
      cbn [bind]; rewrite ?Hcmd; try reflexivity.
    rewrite (finalize_code _ _ _ _ Hfin). cbn [fst snd Z.eqb].
    rewrite parse_ignored by (simpl; tauto). cbn [bind snd].
    rewrite parse_ignored by (simpl; tauto). reflexivity.
Qed.

(** ** The groups of the option word *)

Lemma flag_fits (f : Z) : single_bit f -> Z.land f (Z.ones 64) = f.
Proof.
  intros [[Hpos Hlt] _]. rewrite Z.land_ones by lia. apply Z.mod_small.
  assert (2 ^ 31 < 2 ^ 64) by (apply Z.pow_lt_mono_r; lia). lia.
Qed.

Ltac fit_facts :=
  let H := fresh in
  pose proof (flags_single_bit Hok) as H; unfold feature_flags in H;
  invert_foralls;
  repeat match goal with
    | H : single_bit _ |- _ => apply flag_fits in H
    end.

Lemma groups_fit :
  Z.land all_reloc_opts (Z.ones 64) = all_reloc_opts /\
  Z.land all_misc_opts (Z.ones 64) = all_misc_opts.
Proof.
  unfold all_reloc_opts, all_misc_opts. fit_facts. split; bitwise.
Qed.

Lemma groups_disjoint :
  disjoint all_reloc_opts all_misc_opts /\
  disjoint all_reloc_opts all_pushpull_opts /\
  disjoint all_reloc_opts OPT_COBO /\
  disjoint all_reloc_opts (Z.lor OPT_NOMPI OPT_NOHIDE) /\
  disjoint all_misc_opts all_pushpull_opts /\
  disjoint all_misc_opts OPT_COBO /\
  disjoint all_misc_opts (Z.lor OPT_NOMPI OPT_NOHIDE) /\
  disjoint all_pushpull_opts OPT_COBO /\
  disjoint all_pushpull_opts (Z.lor OPT_NOMPI OPT_NOHIDE).
Proof.
  unfold all_reloc_opts, all_misc_opts, all_pushpull_opts. flag_facts.
  repeat split; bitwise.
Qed.

Lemma sec_field_groups (m : Z) :
  In m sec_models ->
  disjoint (Z.shiftl m OPT_SEC_SHIFT) all_reloc_opts /\
  disjoint (Z.shiftl m OPT_SEC_SHIFT) all_misc_opts /\
  disjoint (Z.shiftl m OPT_SEC_SHIFT) all_pushpull_opts /\
  disjoint (Z.shiftl m OPT_SEC_SHIFT) OPT_COBO /\
  disjoint (Z.shiftl m OPT_SEC_SHIFT) (Z.lor OPT_NOMPI OPT_NOHIDE) /\
  disjoint (Z.shiftl m OPT_SEC_SHIFT) OPT_REMAPEXEC.
Proof.
  intros Hm. unfold all_reloc_opts, all_misc_opts, all_pushpull_opts.
  sec_facts m Hm. repeat split; bitwise.
Qed.

Lemma default_sec_model : In default_sec sec_models.
Proof.
  unfold default_sec, DEFAULT_SEC, sec_models.
  destruct MUNGE, SECLMON, KEYFILE; simpl; tauto.
Qed.

Lemma compiled_sec_model (k : Z) : compiled_sec_key k -> In (k - 256) sec_models.
Proof.
  unfold compiled_sec_key, sec_models, SECMUNGE, SECKEYLMON, SECKEYFILE, SECNULL.
  intros [[_ ->] | [[_ ->] | [[_ ->] | [_ ->]]]];
    match goal with |- In (256 + ?m - 256) _ => replace (256 + m - 256) with m by lia end;
    simpl; tauto.
Qed.

Lemma chosen_sec_model (g : globals) : sec_model_ok g -> In (chosen_sec g) sec_models.
Proof.
  unfold sec_model_ok, chosen_sec. intros [-> | Hc].
  - apply default_sec_model.
  - destruct (Z.eqb_spec (sec_model g) (-1)); [apply default_sec_model|].
    apply compiled_sec_model in Hc.
    replace (sec_model g + 256 - 256) with (sec_model g) in Hc by lia. exact Hc.
Qed.

Lemma pushpull_choice_within (e : Z) :
  Z.ldiff (pushpull_choice e) all_pushpull_opts = 0.
Proof.
  unfold pushpull_choice, default_pushpull_opts, all_pushpull_opts.
  destruct (Z.land e (Z.lor OPT_PUSH OPT_PULL) =? 0); bitwise.
Qed.

(** The bits of the two bundle groups in the word finalize leaves. *)
Lemma resolved_bundles (g : globals) :
  Z.ldiff (opts g) (Z.lor OPT_NOMPI OPT_NOHIDE) = 0 -> sec_model_ok g ->
  Z.land (resolved g) all_reloc_opts =
    Z.ldiff (Z.lor default_reloc_opts (Z.land (enabled_opts g) all_reloc_opts))
            (Z.land (disabled_opts g) all_reloc_opts) /\
  Z.land (resolved g) all_misc_opts =
    Z.ldiff (Z.lor default_misc_opts (Z.land (enabled_opts g) all_misc_opts))
            (Z.land (disabled_opts g) all_misc_opts).
Proof.
  intros Ho Hs.
  destruct groups_fit as (F1 & F2).
  destruct groups_disjoint as (D1 & D2 & D3 & D4 & D5 & D6 & D7 & _).
  destruct (sec_field_groups _ (chosen_sec_model g Hs)) as (S1 & S2 & _).
  pose proof (pushpull_choice_within (enabled_opts g)) as P.
  assert (Hdr : default_reloc_opts = all_reloc_opts) by reflexivity.
  assert (Hdm : Z.land default_misc_opts all_misc_opts = default_misc_opts)
    by (unfold default_misc_opts, all_misc_opts; bitwise).
  unfold resolved, reloc_part, misc_part, default_network_opts.
  clear Hs. split; bitwise.
Qed.

(** ** Which options set which bits *)

Lemma code_other_key (k kf : Z) :
  In kf [PUSH; PULL; PRELOAD] -> k <> kf ->
  Z.land (opt_key_to_code k) (opt_key_to_code kf) = 0.
Proof.
  intros Hkf Hne. flag_facts. unfold disjoint in *. simpl in Hkf.
  destruct Hkf as [<- | [<- | [<- | []]]];
    unfold opt_key_to_code; revert Hne; key_nums; intros Hne; decide_eqb;
    rewrite ?Z.land_0_l; try reflexivity;
    first [assumption | rewrite Z.land_comm; assumption].
Qed.

(** Giving the option [kf] sets its bit in the enabled set. *)
Lemma parse_sets_bit (kf : Z) (a : option string) (st : argp_state)
  (g g' : globals) (c : Z) :
  In kf [PUSH; PULL; PRELOAD] -> done g = false ->
  parse kf a st g = Returns (c, g') ->
  Z.land (enabled_opts g') (opt_key_to_code kf) = opt_key_to_code kf.
Proof.
  intros Hkf Hd. simpl in Hkf.
  destruct Hkf as [<- | [<- | [<- | []]]].
  - rewrite parse_flag by (assumption || (simpl; tauto)).
    intros [= <- <-]. simpl. bitwise.
  - rewrite parse_flag by (assumption || (simpl; tauto)).
    intros [= <- <-]. simpl. bitwise.
  - rewrite parse_PRELOAD, opt_key_to_code_PRELOAD by assumption.
    intros [= <- <-]. simpl. bitwise.
Qed.

(** After the scan the bit of [kf] is in the enabled set exactly when it
    was there before or the option [kf] was given. *)
Lemma parse_options_bit (kf : Z) (st : argp_state)
  (toks : list (Z * option string)) :
  In kf [PUSH; PULL; PRELOAD] ->
  forall g g',
    wf_opts toks -> done g = false ->
    parse_options st toks g = Returns g' ->
    (Z.land (enabled_opts g') (opt_key_to_code kf) = opt_key_to_code kf <->
     Z.land (enabled_opts g) (opt_key_to_code kf) = opt_key_to_code kf \/
     In kf (map fst toks)).
Proof.
  intros Hkf. induction toks as [|[k a] toks IH]; intros g g' Hwf Hd Hrun.
  - simpl in Hrun. injection Hrun as <-. simpl. tauto.
  - apply wf_opts_cons in Hwf as [Hk Hwf]. simpl in Hk, Hrun.
    destruct (parse k a st g) as [[c g1] | | |] eqn:Hp; simpl in Hrun;
      try discriminate.
    destruct (parse_step k a st g g1 c Hd Hk Hp) as (-> & Hd1 & He & _).
    simpl in Hrun. rewrite (IH g1 g' Hwf Hd1 Hrun). cbn [map fst In].
    destruct (Z.eq_dec k kf) as [-> | Hne].
    + pose proof (parse_sets_bit kf a st g g1 0 Hkf Hd Hp). tauto.
    + assert (Hsame : Z.land (enabled_opts g1) (opt_key_to_code kf)
                      = Z.land (enabled_opts g) (opt_key_to_code kf)).
      { destruct He as [-> | ->]; [reflexivity|].
        pose proof (code_other_key k kf Hkf Hne) as Hdis.
        clear - Hdis. bitwise. }
      rewrite Hsame. tauto.
Qed.

Lemma yesno_entry_not_PRELOAD (k : Z) :
  arg_is_YESNO (find_entry k options) = true -> k <> PRELOAD.
Proof.
  intros H ->. rewrite find_PRELOAD in H. discriminate.
Qed.

(** No option puts the preload bit in the disabled set. *)
Lemma parse_options_disabled_PRELOAD (st : argp_state)
  (toks : list (Z * option string)) (g g' : globals) :
  wf_opts toks -> done g = false ->
  parse_options st toks g = Returns g' ->
  Z.land (disabled_opts g) OPT_PRELOAD = 0 ->
  Z.land (disabled_opts g') OPT_PRELOAD = 0.
Proof.
  intros Hwf Hd Hrun.
  apply (parse_options_invariant
           (fun g => Z.land (disabled_opts g) OPT_PRELOAD = 0) st)
    with (toks := toks); auto.
  clear Hwf Hd Hrun g g'. intros k a g c g' Hd Hk Hp Hf.
  destruct (parse_step k a st g g' c Hd Hk Hp)
    as (_ & _ & _ & [-> | [-> Hyn]] & _); [assumption|].
  apply yesno_entry_not_PRELOAD in Hyn.
  pose proof (code_other_key k PRELOAD ltac:(simpl; tauto) Hyn) as Hdis.
  rewrite opt_key_to_code_PRELOAD in Hdis.
  clear - Hdis Hf. bitwise.
Qed.

Lemma yesno_code_single_bit (k : Z) :
  In k yesno_keys -> single_bit (opt_key_to_code k).
Proof.
  intros Hk. unfold yesno_keys in Hk. simpl in Hk.
  repeat (destruct Hk as [<- | Hk];
          [unfold opt_key_to_code; key_nums; decide_eqb;
           apply flag_single_bit; flag_in|]).
  contradiction.
Qed.

Lemma parse_options_yes (k : Z) (y : string) (st : argp_state)
  (toks : list (Z * option string)) :
  In k yesno_keys -> y = "yes" \/ y = "y" ->
  forall g g',
    wf_opts toks -> done g = false -> In (k, Some y) toks ->
    parse_options st toks g = Returns g' ->
    Z.land (enabled_opts g') (opt_key_to_code k) = opt_key_to_code k.
Proof.
  intros Hk Hy. induction toks as [|[k1 a1] toks IH]; intros g g' Hwf Hd Hin Hrun.
  - contradiction.
  - apply wf_opts_cons in Hwf as [Hk1 Hwf]. simpl in Hk1, Hrun.
    destruct (parse k1 a1 st g) as [[c g1] | | |] eqn:Hp; simpl in Hrun;
      try discriminate.
    destruct (parse_step k1 a1 st g g1 c Hd Hk1 Hp) as (-> & Hd1 & _).
    simpl in Hrun. destruct Hin as [[= -> ->] | Hin].
    + apply (parse_options_enabled_mono st _ toks g1 g'); try assumption.
      rewrite parse_yesno in Hp by assumption.
      destruct Hy as [-> | ->]; simpl in Hp; injection Hp as <-; simpl; bitwise.
    + apply (IH g1 g'); assumption.
Qed.

Lemma parse_options_no (k : Z) (n : string) (st : argp_state)
  (toks : list (Z * option string)) :
  In k yesno_keys -> n = "no" \/ n = "n" ->
  forall g g',
    wf_opts toks -> done g = false -> In (k, Some n) toks ->
    parse_options st toks g = Returns g' ->
    Z.land (disabled_opts g') (opt_key_to_code k) = opt_key_to_code k.
Proof.
  intros Hk Hn. induction toks as [|[k1 a1] toks IH]; intros g g' Hwf Hd Hin Hrun.
  - contradiction.
  - apply wf_opts_cons in Hwf as [Hk1 Hwf]. simpl in Hk1, Hrun.
    destruct (parse k1 a1 st g) as [[c g1] | | |] eqn:Hp; simpl in Hrun;
      try discriminate.
    destruct (parse_step k1 a1 st g g1 c Hd Hk1 Hp) as (-> & Hd1 & _).
    simpl in Hrun. destruct Hin as [[= -> ->] | Hin].
    + apply (parse_options_disabled_mono st _ toks g1 g'); try assumption.
      rewrite parse_yesno in Hp by assumption.
      destruct Hn as [-> | ->]; simpl in Hp; injection Hp as <-; simpl; bitwise.
    + apply (IH g1 g'); assumption.
Qed.

(** ** parseArgs *)

Lemma parseArgs_eq (cl : cmdline) (g : globals) :
  wf_cmdline cl ->
  parseArgs cl g =
  (g1 <- parse_options (scan_state cl) (cl_opts cl) (set_done false g) ;;
   match cl_cmd cl with
   | [] => Exits "No MPI command line found"
   | _ =>
       r <- finalize (end_state cl) (captured cl g1) ;;
       Returns (debug_override (opts (snd r)),
                set_opts (debug_override (opts (snd r))) (snd r))
   end).
Proof.
  intros Hwf. unfold parseArgs. rewrite argp_parse_eq by (assumption || reflexivity).
  destruct (parse_options (scan_state cl) (cl_opts cl) (set_done false g));
    cbn [bind]; try reflexivity.
  destruct (cl_cmd cl); [reflexivity|].
  destruct (finalize (end_state cl) (captured cl a)); reflexivity.
Qed.

(** A run that returns went through a scan and a finalize that returned. *)
Lemma parseArgs_Returns (cl : cmdline) (g g' : globals) (o : Z) :
  wf_cmdline cl -> parseArgs cl g = Returns (o, g') ->
  exists g1,
    parse_options (scan_state cl) (cl_opts cl) (set_done false g) = Returns g1 /\
    done g1 = false /\ cl_cmd cl <> [] /\
    Z.land (enabled_opts g1) (disabled_opts g1) = 0 /\
    (Z.land (enabled_opts g1) OPT_PUSH = 0 \/ Z.land (enabled_opts g1) OPT_PULL = 0) /\
    o = debug_override (resolved (captured cl g1)) /\
    g' = set_opts o (set_opts (resolved (captured cl g1))
                       (set_sec_model (chosen_sec (captured cl g1)) (captured cl g1))).
Proof.
  intros Hwf. rewrite parseArgs_eq by assumption.
  destruct (parse_options (scan_state cl) (cl_opts cl) (set_done false g))
    as [g1| | |] eqn:Hscan; cbn [bind]; try discriminate.
  pose proof (parse_options_done _ _ (set_done false g) _ Hwf eq_refl Hscan) as Hd1.
  destruct (cl_cmd cl) as [|w ws] eqn:Hcmd; [discriminate|].
  destruct (finalize_cases (end_state cl) (captured cl g1))
    as [[_ E] | [(_ & _ & _ & E) | (Hc & Hone & E)]];
    rewrite E; cbn [bind]; try discriminate.
  intros [= <- <-]. exists g1. cbn [snd opts set_opts].
  repeat split; try assumption. discriminate.
Qed.

Lemma argp_parse_Returns (cl : cmdline) (g g' : globals) :
  wf_cmdline cl -> done g = false -> argp_parse cl g = Returns g' ->
  exists g1,
    parse_options (scan_state cl) (cl_opts cl) g = Returns g1 /\
    done g1 = false /\ cl_cmd cl <> [] /\
    g' = set_opts (resolved (captured cl g1))
           (set_sec_model (chosen_sec (captured cl g1)) (captured cl g1)).
Proof.
  intros Hwf Hd. rewrite argp_parse_eq by assumption.
  destruct (parse_options (scan_state cl) (cl_opts cl) g)
    as [g1| | |] eqn:Hscan; cbn [bind]; try discriminate.
  pose proof (parse_options_done _ _ _ _ Hwf Hd Hscan) as Hd1.
  destruct (cl_cmd cl) as [|w ws] eqn:Hcmd; [discriminate|].
  destruct (finalize_cases (end_state cl) (captured cl g1))
    as [[_ E] | [(_ & _ & _ & E) | (Hc & Hone & E)]];
    rewrite E; cbn [bind]; try discriminate.
  intros [= <-]. exists g1. repeat split; try assumption. discriminate.
Qed.

Lemma initial_scan_invariants (cl : cmdline) (g0 g1 : globals) :
  wf_cmdline cl ->
  Z.ldiff (opts g0) (Z.lor OPT_NOMPI OPT_NOHIDE) = 0 -> sec_model_ok g0 ->
  parse_options (scan_state cl) (cl_opts cl) (set_done false g0) = Returns g1 ->
  Z.ldiff (opts (captured cl g1)) (Z.lor OPT_NOMPI OPT_NOHIDE) = 0 /\
  sec_model_ok (captured cl g1).
Proof.
  intros Hwf Ho Hs Hscan. split.
  - apply (parse_options_opts _ _ (set_done false g0) g1 Hwf eq_refl Hscan Ho).
  - apply (parse_options_sec _ _ (set_done false g0) g1 Hwf eq_refl Hscan Hs).
Qed.

Lemma initial_globals_invariants :
  Z.ldiff (opts initial_globals) (Z.lor OPT_NOMPI OPT_NOHIDE) = 0 /\
  sec_model_ok initial_globals.
Proof. split; [reflexivity | left; reflexivity]. Qed.

(** C2.  In the configuration finalize accepts, the bits of the relocation
    group and of the miscellaneous group are the compiled defaults of the
    group together with the enabled bits of the group, less the disabled
    bits of the group; hence a disabled bit of either group is absent
    whatever the default, and an enabled one that is not disabled is
    present. *)
Theorem C2_bundle_groups (cl : cmdline) (g : globals) :
  wf_cmdline cl ->
  argp_parse cl (set_done false initial_globals) = Returns g ->
  (Z.land (opts g) all_reloc_opts =
     Z.ldiff (Z.lor default_reloc_opts (Z.land (enabled_opts g) all_reloc_opts))
             (Z.land (disabled_opts g) all_reloc_opts) /\
   Z.land (opts g) all_misc_opts =
     Z.ldiff (Z.lor default_misc_opts (Z.land (enabled_opts g) all_misc_opts))
             (Z.land (disabled_opts g) all_misc_opts)) /\
  (forall f, Z.land f all_reloc_opts = f \/ Z.land f all_misc_opts = f ->
     (Z.land (disabled_opts g) f = f -> Z.land (opts g) f = 0) /\
     (Z.land (enabled_opts g) f = f -> Z.land (disabled_opts g) f = 0 ->
      Z.land (opts g) f = f)).
Proof.
  intros Hwf Hrun.
  destruct (argp_parse_Returns cl (set_done false initial_globals) g Hwf eq_refl Hrun)
    as (g1 & Hscan & Hd1 & Hcmd & ->).
  destruct initial_globals_invariants as [Ho Hs].
  destruct (initial_scan_invariants cl _ g1 Hwf Ho Hs Hscan) as [Ho1 Hs1].
  destruct (resolved_bundles _ Ho1 Hs1) as [Hr Hm].
  cbn [opts set_opts enabled_opts disabled_opts set_sec_model] in *.
  split; [split; assumption|].
  set (o := resolved (captured cl g1)) in *.
  set (e := enabled_opts g1) in *. set (d := disabled_opts g1) in *.
  assert (Hdr : default_reloc_opts = all_reloc_opts) by reflexivity.
  clearbody o e d. clear Ho1 Hs1 Hscan Hd1 Hcmd Ho Hs Hrun Hwf.
  intros f [Hf | Hf]; split; intros; bitwise.
Qed.

(** C3.  When a bit is in the enabled and in the disabled set, finalize
    ends with the conflicting-directive error; [parseArgs] then ends with
    that error after any scan that completes with a command, and returns no
    configuration in any case, as when one yes/no option is given with
    yes and with no. *)
Theorem C3_conflicting_directive :
  (forall a st g,
      Z.land (enabled_opts g) (disabled_opts g) <> 0 ->
      parse ARGP_KEY_END a st g = Exits conflict_msg) /\
  (forall cl g0 g1,
      wf_cmdline cl -> cl_cmd cl <> [] ->
      parse_options (scan_state cl) (cl_opts cl) (set_done false g0) = Returns g1 ->
      Z.land (enabled_opts g1) (disabled_opts g1) <> 0 ->
      parseArgs cl g0 = Exits conflict_msg) /\
  (forall cl g0 k y n,
      wf_cmdline cl -> In k yesno_keys ->
      y = "yes" \/ y = "y" -> n = "no" \/ n = "n" ->
      In (k, Some y) (cl_opts cl) -> In (k, Some n) (cl_opts cl) ->
      forall r, parseArgs cl g0 <> Returns r).
Proof.
  split; [|split].
  - intros a st g Hc. rewrite parse_END. apply finalize_conflict, Hc.
  - intros cl g0 g1 Hwf Hcmd Hscan Hc.
    rewrite parseArgs_eq, Hscan by assumption. cbn [bind].
    destruct (cl_cmd cl); [contradiction|].
    rewrite finalize_conflict by exact Hc. reflexivity.
  - intros cl g0 k y n Hwf Hk Hy Hn Hiny Hinn [o g'] Hrun.
    destruct (parseArgs_Returns cl g0 g' o Hwf Hrun)
      as (g1 & Hscan & _ & _ & Hc & _).
    pose proof (parse_options_yes k y _ _ Hk Hy (set_done false g0) g1 Hwf eq_refl Hiny Hscan) as He.
    pose proof (parse_options_no k n _ _ Hk Hn (set_done false g0) g1 Hwf eq_refl Hinn Hscan) as Hdis.
    pose proof (single_bit_nonzero _ (yesno_code_single_bit k Hk)) as Hnz.
    apply Hnz. clear - Hc He Hdis. bitwise.
Qed.

Lemma debug_override_other (o f : Z) :
  disjoint f OPT_RELOCAOUT -> disjoint f OPT_RELOCEXEC -> disjoint f OPT_REMAPEXEC ->
  Z.land (debug_override o) f = Z.land o f.
Proof.
  intros H1 H2 H3. unfold debug_override.
  destruct (negb (Z.land o OPT_DEBUG =? 0)); [|reflexivity]. bitwise.
Qed.

Lemma resolved_pushpull (g : globals) :
  Z.ldiff (opts g) (Z.lor OPT_NOMPI OPT_NOHIDE) = 0 -> sec_model_ok g ->
  Z.land (resolved g) all_pushpull_opts = pushpull_choice (enabled_opts g).
Proof.
  intros Ho Hs.
  destruct groups_disjoint as (_ & D2 & _ & _ & D5 & _ & _ & D8 & D9).
  destruct (sec_field_groups _ (chosen_sec_model g Hs)) as (_ & _ & S3 & _).
  pose proof (pushpull_choice_within (enabled_opts g)) as P.
  unfold resolved, reloc_part, misc_part, default_network_opts.
  clear Hs. bitwise.
Qed.

Lemma pushpull_override_disjoint :
  disjoint all_pushpull_opts OPT_RELOCAOUT /\
  disjoint all_pushpull_opts OPT_RELOCEXEC /\
  disjoint all_pushpull_opts OPT_REMAPEXEC.
Proof.
  unfold all_pushpull_opts. flag_facts. repeat split; bitwise.
Qed.

(** C4.  With the push and the pull bit both enabled, finalize ends with
    a fatal error, which is the multi-selection error whenever the
    conflicting-directive check before it passes, and [parseArgs] returns
    no configuration when both options are given; when neither is given,
    the distribution model of the returned configuration is push, the
    compiled default. *)
Theorem C4_push_pull :
  (forall a st g,
      Z.land (enabled_opts g) OPT_PUSH = OPT_PUSH ->
      Z.land (enabled_opts g) OPT_PULL = OPT_PULL ->
      exists msg,
        parse ARGP_KEY_END a st g = Exits msg /\
        (Z.land (enabled_opts g) (disabled_opts g) = 0 -> msg = pushpull_msg)) /\
  (forall cl g0 a1 a2,
      wf_cmdline cl ->
      In (PUSH, a1) (cl_opts cl) -> In (PULL, a2) (cl_opts cl) ->
      forall r, parseArgs cl g0 <> Returns r) /\
  (forall cl o g,
      wf_cmdline cl ->
      ~ In PUSH (map fst (cl_opts cl)) -> ~ In PULL (map fst (cl_opts cl)) ->
      parseArgs cl initial_globals = Returns (o, g) ->
      Z.land o all_pushpull_opts = default_pushpull_opts /\
      default_pushpull_opts = OPT_PUSH).
Proof.
  split; [|split].
  - intros a st g Hpush Hpull. rewrite parse_END.
    destruct (finalize_cases st g) as [[Hc E] | [(Hc & _ & _ & E) | (_ & Hone & _)]].
    + exists conflict_msg. split; [exact E | intros; contradiction].
    + exists pushpull_msg. split; [exact E | reflexivity].
    + exfalso. destruct Hone as [H0 | H0].
      * rewrite H0 in Hpush. symmetry in Hpush.
        exact (single_bit_nonzero _ push_single Hpush).
      * rewrite H0 in Hpull. symmetry in Hpull.
        exact (single_bit_nonzero _ pull_single Hpull).
  - intros cl g0 a1 a2 Hwf Hin1 Hin2 [o g'] Hrun.
    destruct (parseArgs_Returns cl g0 g' o Hwf Hrun)
      as (g1 & Hscan & _ & _ & _ & Hone & _).
    assert (Hcode1 : opt_key_to_code PUSH = OPT_PUSH)
      by (unfold opt_key_to_code; key_nums; decide_eqb; reflexivity).
    assert (Hcode2 : opt_key_to_code PULL = OPT_PULL)
      by (unfold opt_key_to_code; key_nums; decide_eqb; reflexivity).
    pose proof (parse_options_bit PUSH (scan_state cl) (cl_opts cl)
                  ltac:(simpl; tauto) (set_done false g0) g1 Hwf eq_refl Hscan) as [_ B1].
    pose proof (parse_options_bit PULL (scan_state cl) (cl_opts cl)
                  ltac:(simpl; tauto) (set_done false g0) g1 Hwf eq_refl Hscan) as [_ B2].
    rewrite Hcode1 in B1. rewrite Hcode2 in B2.
    assert (E1 : Z.land (enabled_opts g1) OPT_PUSH = OPT_PUSH).
    { apply B1. right. apply in_map_iff. exists (PUSH, a1). tauto. }
    assert (E2 : Z.land (enabled_opts g1) OPT_PULL = OPT_PULL).
    { apply B2. right. apply in_map_iff. exists (PULL, a2). tauto. }
    destruct Hone as [H0 | H0].
    + rewrite H0 in E1. symmetry in E1.
      exact (single_bit_nonzero _ push_single E1).
    + rewrite H0 in E2. symmetry in E2.
      exact (single_bit_nonzero _ pull_single E2).
  - intros cl o g Hwf Hn1 Hn2 Hrun. split; [|reflexivity].
    destruct (parseArgs_Returns cl _ g o Hwf Hrun)
      as (g1 & Hscan & _ & _ & _ & _ & -> & _).
    destruct initial_globals_invariants as [Ho Hs].
    destruct (initial_scan_invariants cl _ g1 Hwf Ho Hs Hscan) as [Ho1 Hs1].
    destruct pushpull_override_disjoint as (O1 & O2 & O3).
    rewrite (debug_override_other _ _ O1 O2 O3).
    rewrite (resolved_pushpull _ Ho1 Hs1).
    assert (Hcode1 : opt_key_to_code PUSH = OPT_PUSH)
      by (unfold opt_key_to_code; key_nums; decide_eqb; reflexivity).
    assert (Hcode2 : opt_key_to_code PULL = OPT_PULL)
      by (unfold opt_key_to_code; key_nums; decide_eqb; reflexivity).
    pose proof (parse_options_bit PUSH (scan_state cl) (cl_opts cl)
                  ltac:(simpl; tauto) (set_done false initial_globals) g1 Hwf eq_refl Hscan) as [B1 _].
    pose proof (parse_options_bit PULL (scan_state cl) (cl_opts cl)
                  ltac:(simpl; tauto) (set_done false initial_globals) g1 Hwf eq_refl Hscan) as [B2 _].
    rewrite Hcode1 in B1. rewrite Hcode2 in B2.
    cbn [enabled_opts set_done initial_globals captured set_mpi] in *.
    rewrite Z.land_0_l in B1, B2.
    assert (E1 : Z.land (enabled_opts g1) OPT_PUSH = 0).
    { destruct (land_single_bit_cases (enabled_opts g1) OPT_PUSH push_single)
        as [E | E]; [exact E|].
      destruct (B1 E) as [H0 | Hin]; [|contradiction].
      symmetry in H0. destruct (single_bit_nonzero _ push_single H0). }
    assert (E2 : Z.land (enabled_opts g1) OPT_PULL = 0).
    { destruct (land_single_bit_cases (enabled_opts g1) OPT_PULL pull_single)
        as [E | E]; [exact E|].
      destruct (B2 E) as [H0 | Hin]; [|contradiction].
      symmetry in H0. destruct (single_bit_nonzero _ pull_single H0). }
    unfold pushpull_choice, all_pushpull_opts.
    rewrite Z.land_lor_distr_r, E1, E2. reflexivity.
Qed.

Lemma is_sec_key_spec (k : Z) : is_sec_key k = true <-> compiled_sec_key k.
Proof.
  unfold is_sec_key, compiled_sec_key.
  rewrite !orb_true_iff, !andb_true_iff, !Z.eqb_eq. tauto.
Qed.

(** After the scan [sec_model] holds the model of the security option
    given last, or what it held before when there was none. *)
Lemma parse_options_last_sec (st : argp_state) (toks : list (Z * option string)) :
  forall g g',
    wf_opts toks -> done g = false ->
    parse_options st toks g = Returns g' ->
    sec_model g' = match last_sec_key toks with
                   | Some k => k - 256
                   | None => sec_model g
                   end.
Proof.
  induction toks as [|[k a] toks IH]; intros g g' Hwf Hd Hrun.
  - simpl in Hrun. injection Hrun as <-. reflexivity.
  - apply wf_opts_cons in Hwf as [Hk Hwf]. simpl in Hk, Hrun.
    destruct (parse k a st g) as [[c g1] | | |] eqn:Hp; simpl in Hrun;
      try discriminate.
    destruct (parse_step k a st g g1 c Hd Hk Hp)
      as (-> & Hd1 & _ & _ & _ & Hsec & _).
    simpl in Hrun. rewrite (IH g1 g' Hwf Hd1 Hrun). cbn [last_sec_key].
    destruct (last_sec_key toks) as [k'|]; [reflexivity|].
    destruct (is_sec_key k) eqn:Hs.
    + apply is_sec_key_spec in Hs. rewrite (parse_sec k a st g Hd Hs) in Hp.
      injection Hp as <-. reflexivity.
    + destruct Hsec as [E | [Hc _]]; [exact E|].
      apply is_sec_key_spec in Hc. congruence.
Qed.

(** C5, as amended.  A security option of the build stores its model in
    [sec_model] and changes nothing else, the enabled set included; it
    does so whatever [sec_model] held, so a second security option is not
    an error: the scan goes on, and after any scan that completes
    [sec_model] holds the model of the security option given last. *)
Theorem C5_security_model_last_wins :
  (forall k a st g,
      done g = false -> compiled_sec_key k ->
      parse k a st g = Returns (0, set_sec_model (k - 256) g) /\
      enabled_opts (set_sec_model (k - 256) g) = enabled_opts g) /\
  (forall k1 a1 k2 a2 st g,
      done g = false -> compiled_sec_key k1 -> compiled_sec_key k2 ->
      parse_options st [(k1, a1); (k2, a2)] g = Returns (set_sec_model (k2 - 256) g)) /\
  (forall st toks g g' k,
      wf_opts toks -> done g = false ->
      parse_options st toks g = Returns g' ->
      last_sec_key toks = Some k -> sec_model g' = k - 256).
Proof.
  split; [|split].
  - intros k a st g Hd Hk. split; [apply parse_sec; assumption | reflexivity].
  - intros k1 a1 k2 a2 st g Hd H1 H2. cbn [parse_options].
    rewrite (parse_sec k1 a1 st g Hd H1). cbn [bind fst snd Z.eqb].
    rewrite (parse_sec k2 a2 st (set_sec_model (k1 - 256) g) Hd H2). reflexivity.
  - intros st toks g g' k Hwf Hd Hrun Hlast.
    rewrite (parse_options_last_sec st toks g g' Hwf Hd Hrun), Hlast. reflexivity.
Qed.

Lemma override_bits_disjoint :
  disjoint OPT_REMAPEXEC OPT_RELOCAOUT /\ disjoint OPT_REMAPEXEC OPT_RELOCEXEC.
Proof. flag_facts. split; bitwise. Qed.

(** C6.  On an option word with the debug bit, the override of
    [parseArgs] clears the relocate-executable and the relocate-exec bits,
    sets the remap-exec bit and leaves every other bit; without the debug
    bit the word is unchanged; and [parseArgs] returns the word of
    finalize after this one override. *)
Theorem C6_debug_override :
  (forall o,
      Z.land o OPT_DEBUG <> 0 ->
      Z.land (debug_override o) OPT_RELOCAOUT = 0 /\
      Z.land (debug_override o) OPT_RELOCEXEC = 0 /\
      Z.land (debug_override o) OPT_REMAPEXEC = OPT_REMAPEXEC /\
      Z.ldiff (debug_override o)
              (Z.lor (Z.lor OPT_RELOCAOUT OPT_RELOCEXEC) OPT_REMAPEXEC)
      = Z.ldiff o (Z.lor (Z.lor OPT_RELOCAOUT OPT_RELOCEXEC) OPT_REMAPEXEC)) /\
  (forall o, Z.land o OPT_DEBUG = 0 -> debug_override o = o) /\
  (forall cl g0,
      parseArgs cl g0 =
      (g1 <- argp_parse cl (set_done false g0) ;;
       Returns (debug_override (opts g1), set_opts (debug_override (opts g1)) g1))).
Proof.
  split; [|split].
  - intros o Hdbg. unfold debug_override.
    destruct (Z.eqb_spec (Z.land o OPT_DEBUG) 0) as [E | _]; [contradiction|].
    cbn [negb]. destruct override_bits_disjoint as [D1 D2].
    clear Hdbg. repeat split; bitwise.
  - intros o Hdbg. unfold debug_override. rewrite Hdbg. reflexivity.
  - intros cl g0. reflexivity.
Qed.

(** C9.  A finalize that returned leaves variables on which a second
    finalize returns without changing any of them; and once the command
    has been captured every other key leaves them unchanged too. *)
Theorem C9_finalize_idempotent (a a' : option string) (st st' : argp_state)
  (g g' : globals) (c : Z) :
  parse ARGP_KEY_END a st g = Returns (c, g') ->
  parse ARGP_KEY_END a' st' g' = Returns (0, g') /\
  (done g' = true ->
   forall k a'' st'', k <> ARGP_KEY_END -> parse k a'' st'' g' = Returns (0, g')).
Proof.
  rewrite !parse_END. intros Hfin. split.
  - destruct (finalize_cases st g) as [[_ E] | [(_ & _ & _ & E) | (Hc & Hone & E)]];
      rewrite E in Hfin; try discriminate.
    injection Hfin as <- <-.
    set (g1 := set_opts (resolved g) (set_sec_model (chosen_sec g) g)).
    rewrite (finalize_returns st' g1 Hc Hone). f_equal. f_equal.
    assert (Hsec : chosen_sec g1 = chosen_sec g).
    { unfold chosen_sec, g1. cbn [sec_model set_opts set_sec_model].
      unfold chosen_sec.
      destruct (sec_model g =? -1) eqn:E1.
      - destruct (default_sec =? -1); reflexivity.
      - rewrite E1. reflexivity. }
    assert (Hres : resolved g1 = resolved g).
    { unfold resolved at 1. rewrite Hsec.
      unfold g1. cbn [opts enabled_opts disabled_opts set_opts set_sec_model].
      unfold resolved.
      set (sh := Z.shiftl (chosen_sec g) OPT_SEC_SHIFT).
      set (p := pushpull_choice (enabled_opts g)).
      set (r := reloc_part (enabled_opts g) (disabled_opts g)).
      set (m := misc_part (enabled_opts g) (disabled_opts g)).
      clearbody sh p r m. clear. bitwise. }
    rewrite Hres, Hsec. unfold g1. reflexivity.
  - intros Hd k a'' st'' Hk. apply parse_done; assumption.
Qed.

Lemma preload_facts :
  Z.land OPT_PRELOAD all_misc_opts = OPT_PRELOAD /\
  disjoint default_misc_opts OPT_PRELOAD /\
  disjoint OPT_PRELOAD OPT_RELOCAOUT /\ disjoint OPT_PRELOAD OPT_RELOCEXEC /\
  disjoint OPT_PRELOAD OPT_REMAPEXEC.
Proof.
  unfold all_misc_opts, default_misc_opts. flag_facts. repeat split; bitwise.
Qed.

(** C10.  The preload option stores its argument and puts the preload bit
    in the enabled set; the compiled miscellaneous defaults do not hold
    that bit; and the option word [parseArgs] returns holds it exactly when
    a preload option was given. *)
Theorem C10_preload_bit :
  (forall a st g,
      done g = false ->
      parse PRELOAD a st g =
      Returns (0, set_preload_file a
                    (set_enabled_opts (Z.lor (enabled_opts g) OPT_PRELOAD) g))) /\
  Z.land default_misc_opts OPT_PRELOAD = 0 /\
  (forall cl o g,
      wf_cmdline cl ->
      parseArgs cl initial_globals = Returns (o, g) ->
      (Z.land o OPT_PRELOAD = OPT_PRELOAD <-> In PRELOAD (map fst (cl_opts cl)))).
Proof.
  destruct preload_facts as (P1 & P2 & P3 & P4 & P5).
  split; [|split].
  - intros a st g Hd. apply parse_PRELOAD, Hd.
  - exact P2.
  - intros cl o g Hwf Hrun.
    destruct (parseArgs_Returns cl _ g o Hwf Hrun)
      as (g1 & Hscan & _ & _ & _ & _ & -> & _).
    destruct initial_globals_invariants as [Ho Hs].
    destruct (initial_scan_invariants cl _ g1 Hwf Ho Hs Hscan) as [Ho1 Hs1].
    rewrite (debug_override_other _ _ P3 P4 P5).
    destruct (resolved_bundles _ Ho1 Hs1) as [_ Hm].
    pose proof (parse_options_disabled_PRELOAD _ _ (set_done false initial_globals)
                  g1 Hwf eq_refl Hscan eq_refl) as Hdis.
    pose proof (parse_options_bit PRELOAD (scan_state cl) (cl_opts cl)
                  ltac:(simpl; tauto) (set_done false initial_globals) g1
                  Hwf eq_refl Hscan) as Hbit.
    rewrite opt_key_to_code_PRELOAD in Hbit.
    change (enabled_opts (set_done false initial_globals)) with 0 in Hbit.
    change (enabled_opts (captured cl g1)) with (enabled_opts g1) in Hm.
    change (disabled_opts (captured cl g1)) with (disabled_opts g1) in Hm.
    rewrite Z.land_0_l in Hbit.
    assert (Hsame : Z.land (resolved (captured cl g1)) OPT_PRELOAD
                    = Z.land (enabled_opts g1) OPT_PRELOAD).
    { set (o := resolved (captured cl g1)) in *.
      set (e := enabled_opts g1) in *. set (d := disabled_opts g1) in *.
      clearbody o e d. clear - P1 P2 Hm Hdis. bitwise. }
    rewrite Hsame, Hbit. split; [|tauto].
    intros [H0 | Hin]; [|exact Hin].
    symmetry in H0. destruct (single_bit_nonzero _ preload_single H0).
Qed.

Lemma parse_options_port (st : argp_state) (toks : list (Z * option string)) :
  forall g g',
    wf_opts toks -> done g = false -> ~ In PORT (map fst toks) ->
    parse_options st toks g = Returns g' -> spindle_port g' = spindle_port g.
Proof.
  induction toks as [|[k a] toks IH]; intros g g' Hwf Hd Hnin Hrun.
  - simpl in Hrun. injection Hrun as <-. reflexivity.
  - apply wf_opts_cons in Hwf as [Hk Hwf]. simpl in Hk, Hrun.
    destruct (parse k a st g) as [[c g1] | | |] eqn:Hp; simpl in Hrun;
      try discriminate.
    destruct (parse_step k a st g g1 c Hd Hk Hp)
      as (-> & Hd1 & _ & _ & _ & _ & Hport).
    simpl in Hrun, Hnin.
    rewrite (IH g1 g' Hwf Hd1 ltac:(tauto) Hrun).
    destruct Hport as [E | E]; [exact E|]. subst k. tauto.
Qed.

(** C7, as amended.  Without a port option the port is the compiled
    default.  A port argument that [atoi] reads as zero is refused, and so
    is every argument that does not begin, after white space and an
    optional sign, with a digit; a decimal numeral between 1 and 2^31 - 1
    sets the port to its value; and any other argument [atoi] does not read
    as zero is accepted with the value [atoi] gives it. *)
Theorem C7_port :
  spindle_port initial_globals = SPINDLE_PORT /\
  (forall cl o g,
      wf_cmdline cl -> ~ In PORT (map fst (cl_opts cl)) ->
      parseArgs cl initial_globals = Returns (o, g) -> getPort g = SPINDLE_PORT) /\
  (forall s st g,
      done g = false -> to_uint (atoi s) = 0 ->
      parse PORT (Some s) st g = Exits "Port was given a 0 value") /\
  (forall s st g,
      done g = false -> starts_numeric s = false ->
      parse PORT (Some s) st g = Exits "Port was given a 0 value") /\
  (forall s st g,
      done g = false -> numeric s = true -> 0 < digits 0 s < 2 ^ 31 ->
      parse PORT (Some s) st g = Returns (0, set_spindle_port (digits 0 s) g)) /\
  (forall s st g,
      done g = false -> to_uint (atoi s) <> 0 ->
      parse PORT (Some s) st g =
      Returns (0, set_spindle_port (to_uint (atoi s)) g)).
Proof.
  split; [reflexivity|]. split; [|split; [|split; [|split]]].
  - intros cl o g Hwf Hnin Hrun.
    destruct (parseArgs_Returns cl _ g o Hwf Hrun)
      as (g1 & Hscan & _ & _ & _ & _ & _ & ->).
    unfold getPort. cbn [spindle_port set_opts set_sec_model captured set_done set_mpi].
    apply (parse_options_port _ _ (set_done false initial_globals) g1 Hwf eq_refl
             Hnin Hscan).
  - intros s st g Hd H0. rewrite parse_PORT, H0 by assumption. reflexivity.
  - intros s st g Hd Hs. rewrite parse_PORT, (atoi_no_digits s Hs) by assumption.
    reflexivity.
  - intros s st g Hd Hn Hr. rewrite parse_PORT, (atoi_numeric s Hn Hr) by assumption.
    destruct (Z.eqb_spec (digits 0 s) 0); [lia | reflexivity].
  - intros s st g Hd Hnz. rewrite parse_PORT by assumption.
    destruct (Z.eqb_spec (to_uint (atoi s)) 0); [contradiction | reflexivity].
Qed.

(** ** The run without options *)

Lemma default_opts_facts :
  disjoint default_opts OPT_DEBUG /\
  Z.land default_reloc_opts (Z.ones 64) = default_reloc_opts /\
  Z.land default_misc_opts all_misc_opts = default_misc_opts /\
  Z.land default_misc_opts (Z.ones 64) = default_misc_opts.
Proof.
  destruct groups_fit as (F1 & F2).
  pose proof (sec_field_disjoint Hok) as Hsec. rewrite Forall_forall in Hsec.
  specialize (Hsec default_sec default_sec_model).
  unfold feature_flags in Hsec. invert_foralls.
  unfold default_opts, default_reloc_opts, default_network_opts,
    default_pushpull_opts, default_misc_opts, all_misc_opts, all_reloc_opts in *.
  flag_facts. fit_facts. repeat split; bitwise.
Qed.

(** Without options [parseArgs] returns the union of the compiled
    defaults, the compiled port and the model [DEFAULT_SEC]. *)
Lemma parseArgs_defaults (cl : cmdline) :
  cl_opts cl = [] -> cl_cmd cl <> [] ->
  exists g,
    parseArgs cl initial_globals = Returns (default_opts, g) /\
    opts g = default_opts /\ getPort g = SPINDLE_PORT /\
    sec_model g = DEFAULT_SEC /\
    enabled_opts g = 0 /\ disabled_opts g = 0.
Proof.
  intros Hopts Hcmd.
  assert (Hwf : wf_cmdline cl) by (unfold wf_cmdline; rewrite Hopts; reflexivity).
  rewrite parseArgs_eq, Hopts by assumption. cbn [parse_options bind].
  destruct (cl_cmd cl) as [|w ws] eqn:E; [contradiction|].
  rewrite finalize_returns by first [reflexivity | left; reflexivity].
  cbn [bind snd opts set_opts].
  destruct default_opts_facts as (D & F1 & F2 & F3).
  assert (Hres : resolved (captured cl (set_done false initial_globals)) = default_opts).
  { unfold resolved, chosen_sec, pushpull_choice, reloc_part, misc_part.
    cbn [opts enabled_opts disabled_opts sec_model captured set_done set_mpi
         initial_globals].
    rewrite Z.land_0_l. cbn [Z.eqb Pos.eqb].
    assert (Hdr : default_reloc_opts = all_reloc_opts) by reflexivity.
    unfold default_opts. clear D. bitwise. }
  rewrite Hres.
  assert (Hov : debug_override default_opts = default_opts).
  { unfold debug_override. rewrite D. reflexivity. }
  rewrite Hov. eexists. split; [reflexivity|].
  repeat split; reflexivity.
Qed.

(** Where [DEFAULT_SEC] is the first security model of the table. *)
Lemma default_sec_first_candidate :
  has_security_model = true -> MUNGE = true \/ SECLMON = false ->
  first_sec_candidate = Some DEFAULT_SEC.
Proof.
  unfold has_security_model, first_sec_candidate, sec_candidates, DEFAULT_SEC,
    options, SECMUNGE, SECKEYFILE, SECNULL.
  destruct MUNGE.
  { intros _ _. transitivity (Some (256 + OPT_SEC_MUNGE - 256));
      [reflexivity | f_equal; lia]. }
  destruct SECLMON; [intros _ [H | H]; discriminate|].
  destruct KEYFILE.
  { intros _ _. transitivity (Some (256 + OPT_SEC_KEYFILE - 256));
      [reflexivity | f_equal; lia]. }
  destruct ENABLE_NULL_ENCRYPTION; [|discriminate].
  intros _ _. transitivity (Some (256 + OPT_SEC_NULL - 256));
    [reflexivity | f_equal; lia].
Qed.

(** ** The other options *)

Lemma find_LOCATION :
  find_entry LOCATION options
  = mk_option "location" LOCATION (Some "directory") 0 GROUP_NETWORK.
Proof. lookup. Qed.

Lemma find_PYTHONPREFIX :
  find_entry PYTHONPREFIX options
  = mk_option "python-prefix" PYTHONPREFIX (Some "=path") 0 GROUP_MISC.
Proof. lookup. Qed.

Lemma find_DISABLE_LOGGING :
  find_entry DISABLE_LOGGING options
  = mk_option "disable-logging" DISABLE_LOGGING None DISABLE_LOGGING_FLAGS GROUP_MISC.
Proof. lookup. Qed.

Lemma find_NOMPI : find_entry NOMPI options = mk_option "no-mpi" NOMPI None 0 0.
Proof. lookup. Qed.

Lemma find_HIDE : find_entry HIDE options = mk_option "no-hide" HIDE None 0 GROUP_MISC.
Proof. lookup. Qed.

Ltac scalar_option :=
  unfold arg_is_YESNO, arg_is_NULL, mk_option, opt_key_to_code;
  cbn [o_key o_arg o_group]; key_nums; decide_eqb; cbn [negb andb];
  try reflexivity.

Lemma parse_LOCATION (a : string) (st : argp_state) (g : globals) :
  done g = false ->
  parse LOCATION (Some a) st g = Returns (0, set_spindle_location a g).
Proof.
  intros Hd. unfold parse. rewrite Hd. cbn [andb].
  rewrite find_LOCATION. scalar_option.
Qed.

Lemma parse_LOCATION_NULL (st : argp_state) (g : globals) :
  done g = false -> parse LOCATION None st g = Undefined.
Proof.
  intros Hd. unfold parse. rewrite Hd. cbn [andb].
  rewrite find_LOCATION. scalar_option.
Qed.

Lemma parse_PORT_NULL (st : argp_state) (g : globals) :
  done g = false -> parse PORT None st g = Undefined.
Proof.
  intros Hd. unfold parse. rewrite Hd. cbn [andb].
  rewrite find_PORT. scalar_option.
Qed.

Lemma parse_yesno_NULL (k : Z) (st : argp_state) (g : globals) :
  done g = false -> In k yesno_keys -> parse k None st g = Undefined.
Proof.
  intros Hd Hk. unfold parse. rewrite Hd. cbn [andb].
  rewrite (find_yesno k Hk). reflexivity.
Qed.

Lemma parse_PYTHONPREFIX (a : option string) (st : argp_state) (g : globals) :
  done g = false ->
  parse PYTHONPREFIX a st g = Returns (0, set_user_python_prefixes a g).
Proof.
  intros Hd. unfold parse. rewrite Hd. cbn [andb].
  rewrite find_PYTHONPREFIX. scalar_option.
Qed.

Lemma parse_DISABLE_LOGGING (a : option string) (st : argp_state) (g : globals) :
  done g = false ->
  parse DISABLE_LOGGING a st g = Returns (0, set_logging_enabled false g).
Proof.
  intros Hd. unfold parse. rewrite Hd. cbn [andb].
  rewrite find_DISABLE_LOGGING. scalar_option.
Qed.

Lemma parse_NOMPI (a : option string) (st : argp_state) (g : globals) :
  done g = false ->
  parse NOMPI a st g
  = Returns (0, set_opts (Z.lor (opts g) OPT_NOMPI) (set_use_mpi false g)).
Proof.
  intros Hd. unfold parse. rewrite Hd. cbn [andb].
  rewrite find_NOMPI. scalar_option.
Qed.

Lemma parse_HIDE (a : option string) (st : argp_state) (g : globals) :
  done g = false ->
  parse HIDE a st g
  = Returns (0, set_opts (Z.lor (opts g) OPT_NOHIDE) (set_hide_fd false g)).
Proof.
  intros Hd. unfold parse. rewrite Hd. cbn [andb].
  rewrite find_HIDE. scalar_option.
Qed.

(** An option of the table is one of the character keys or a security
    option of the build. *)
Lemma option_key_classes (k : Z) :
  is_option_key k = true -> In k char_keys \/ compiled_sec_key k.
Proof.
  unfold is_option_key. intros H. apply andb_true_iff in H as [Hk H].
  apply negb_true_iff, Z.eqb_neq in Hk.
  apply existsb_exists in H as (e & Hin & He). apply Z.eqb_eq in He. subst k.
  revert Hk. unfold options, compiled_sec_key in *.
  rewrite !in_app_iff in Hin.
  destruct MUNGE, SECLMON, KEYFILE, ENABLE_NULL_ENCRYPTION; simpl In in Hin;
    repeat (destruct Hin as [Hin | Hin]); try contradiction; subst e;
    cbn [o_key mk_option null_option]; intros Hk;
    try (contradiction Hk; reflexivity);
    first [ left; unfold char_keys, yesno_keys; simpl; tauto | right; tauto ].
Qed.

Ltac eval_fields :=
  cbn [enabled_opts disabled_opts preload_file mpi_argv mpi_argc done use_mpi
       hide_fd sec_model python_prefixes user_python_prefixes logging_enabled
       spindle_port spindle_location opts
       set_enabled_opts set_disabled_opts set_preload_file set_mpi set_done
       set_use_mpi set_hide_fd set_sec_model set_python_prefixes
       set_user_python_prefixes set_logging_enabled set_spindle_port
       set_spindle_location set_opts].

(** What one option does to the scalars. *)
Lemma parse_step_scalars (k : Z) (a : option string) (st : argp_state)
  (g g' : globals) (c : Z) :
  done g = false -> is_option_key k = true ->
  parse k a st g = Returns (c, g') ->
  preload_file g' = (if k =? PRELOAD then a else preload_file g) /\
  user_python_prefixes g' =
    (if k =? PYTHONPREFIX then a else user_python_prefixes g) /\
  (if k =? LOCATION then a = Some (spindle_location g')
   else spindle_location g' = spindle_location g) /\
  (if k =? PORT
   then exists s, a = Some s /\ spindle_port g' = to_uint (atoi s) /\
                  spindle_port g' <> 0
   else spindle_port g' = spindle_port g) /\
  logging_enabled g' = (if k =? DISABLE_LOGGING then false else logging_enabled g) /\
  use_mpi g' = (if k =? NOMPI then false else use_mpi g) /\
  hide_fd g' = (if k =? HIDE then false else hide_fd g) /\
  opts g' = (if k =? NOMPI then Z.lor (opts g) OPT_NOMPI
             else if k =? HIDE then Z.lor (opts g) OPT_NOHIDE else opts g) /\
  mpi_argv g' = mpi_argv g /\ mpi_argc g' = mpi_argc g /\
  python_prefixes g' = python_prefixes g.
Proof.
  intros Hd Hk.
  destruct (option_key_classes k Hk) as [Hc | Hc].
  - unfold char_keys in Hc. apply in_app_or in Hc. destruct Hc as [Hy | Hc].
    + assert (Hne : k <> PRELOAD /\ k <> PYTHONPREFIX /\ k <> LOCATION /\ k <> PORT /\
                    k <> DISABLE_LOGGING /\ k <> NOMPI /\ k <> HIDE).
      { unfold yesno_keys in Hy. simpl in Hy. revert Hy. key_nums. lia. }
      destruct Hne as (N1 & N2 & N3 & N4 & N5 & N6 & N7).
      destruct a as [s|]; [|rewrite parse_yesno_NULL by assumption; discriminate].
      rewrite parse_yesno by assumption.
      apply Z.eqb_neq in N1, N2, N3, N4, N5, N6, N7.
      rewrite N1, N2, N3, N4, N5, N6, N7.
      destruct ((s =? "yes") || (s =? "y"))%string;
        [|destruct ((s =? "no") || (s =? "n"))%string; [|discriminate]];
        intros [= <- <-]; eval_fields; repeat split.
    + simpl in Hc.
      destruct Hc as [<- | [<- | [<- | [<- | [<- | [<- | [<- | [<- | [<- | [<- | []]]]]]]]]]].
      * rewrite parse_flag by (assumption || (simpl; tauto)).
        intros [= <- <-]. eval_fields. key_nums. decide_eqb. repeat split.
      * rewrite parse_flag by (assumption || (simpl; tauto)).
        intros [= <- <-]. eval_fields. key_nums. decide_eqb. repeat split.
      * rewrite parse_flag by (assumption || (simpl; tauto)).
        intros [= <- <-]. eval_fields. key_nums. decide_eqb. repeat split.
      * rewrite parse_PRELOAD by assumption.
        intros [= <- <-]. eval_fields. key_nums. decide_eqb. repeat split.
      * destruct a as [s|]; [|rewrite parse_PORT_NULL by assumption; discriminate].
        rewrite parse_PORT by assumption.
        destruct (Z.eqb_spec (to_uint (atoi s)) 0) as [E | E]; [discriminate|].
        intros [= <- <-]. eval_fields. key_nums. decide_eqb. repeat split.
        exists s. repeat split. exact E.
      * destruct a as [s|]; [|rewrite parse_LOCATION_NULL by assumption; discriminate].
        rewrite parse_LOCATION by assumption.
        intros [= <- <-]. eval_fields. key_nums. decide_eqb. repeat split.
      * rewrite parse_DISABLE_LOGGING by assumption.
        intros [= <- <-]. eval_fields. key_nums. decide_eqb. repeat split.
      * rewrite parse_NOMPI by assumption.
        intros [= <- <-]. eval_fields. key_nums. decide_eqb. repeat split.
      * rewrite parse_HIDE by assumption.
        intros [= <- <-]. eval_fields. key_nums. decide_eqb. repeat split.
      * rewrite parse_PYTHONPREFIX by assumption.
        intros [= <- <-]. eval_fields. key_nums. decide_eqb. repeat split.
  - rewrite parse_sec by assumption.
    pose proof (compiled_sec_key_range k Hc) as Hr.
    intros [= <- <-]. eval_fields. revert Hr. key_nums. intros Hr. decide_eqb.
    repeat split.
Qed.

(** What one option does to the two sets. *)
Lemma parse_step_sets (k : Z) (a : option string) (st : argp_state)
  (g g' : globals) (c : Z) :
  done g = false -> is_option_key k = true ->
  parse k a st g = Returns (c, g') ->
  (enabled_opts g' = enabled_opts g /\ disabled_opts g' = disabled_opts g /\
   ~ In k [PUSH; PULL; COBO; PRELOAD] /\
   ~ In k yesno_keys) \/
  (enabled_opts g' = Z.lor (enabled_opts g) (opt_key_to_code k) /\
   disabled_opts g' = disabled_opts g /\
   (In k [PUSH; PULL; COBO; PRELOAD] \/
    In k yesno_keys /\ exists s, a = Some s /\ is_yes s = true)) \/
  (enabled_opts g' = enabled_opts g /\
   disabled_opts g' = Z.lor (disabled_opts g) (opt_key_to_code k) /\
   In k yesno_keys /\ exists s, a = Some s /\ is_yes s = false /\ is_no s = true).
Proof.
  intros Hd Hk.
  destruct (option_key_classes k Hk) as [Hc | Hc].
  - unfold char_keys in Hc. apply in_app_or in Hc. destruct Hc as [Hy | Hc].
    + destruct a as [s|]; [|rewrite parse_yesno_NULL by assumption; discriminate].
      rewrite parse_yesno by assumption. fold (is_yes s). fold (is_no s).
      destruct (is_yes s) eqn:Ey; [|destruct (is_no s) eqn:En; [|discriminate]];
        intros [= <- <-]; eval_fields.
      * right. left. repeat split. right. split; [exact Hy|]. exists s. tauto.
      * right. right. repeat split; [exact Hy|]. exists s. tauto.
    + simpl in Hc.
      destruct Hc as [<- | [<- | [<- | [<- | Hc]]]].
      * rewrite parse_flag by (assumption || (simpl; tauto)).
        intros [= <- <-]. right. left. eval_fields. repeat split. left. simpl. tauto.
      * rewrite parse_flag by (assumption || (simpl; tauto)).
        intros [= <- <-]. right. left. eval_fields. repeat split. left. simpl. tauto.
      * rewrite parse_flag by (assumption || (simpl; tauto)).
        intros [= <- <-]. right. left. eval_fields. repeat split. left. simpl. tauto.
      * rewrite parse_PRELOAD, <- opt_key_to_code_PRELOAD by assumption.
        intros [= <- <-]. right. left. eval_fields. repeat split. left. simpl. tauto.
      * intros Hp.
        destruct (parse_step k a st g g' c Hd Hk Hp) as (_ & _ & He & Hdis & _).
        assert (Hn : ~ In k [PUSH; PULL; COBO; PRELOAD] /\ ~ In k yesno_keys).
        { unfold yesno_keys. simpl. revert Hc. key_nums. lia. }
        left. destruct Hn as [Hn1 Hn2].
        assert (Hcode : opt_key_to_code k = 0).
        { unfold opt_key_to_code. revert Hc. key_nums. intros Hc. decide_eqb.
          reflexivity. }
        rewrite Hcode, Z.lor_0_r in He, Hdis.
        repeat split; try assumption; tauto.
  - rewrite parse_sec by assumption.
    pose proof (compiled_sec_key_range k Hc) as Hr.
    intros [= <- <-]. left. eval_fields. repeat split.
    + simpl. revert Hr. key_nums. lia.
    + unfold yesno_keys. simpl. revert Hr. key_nums. lia.
Qed.

(** ** What the scan leaves in the scalars *)

Lemma parse_options_scalars (st : argp_state) (toks : list (Z * option string)) :
  forall g g',
    wf_opts toks -> done g = false ->
    parse_options st toks g = Returns g' ->
    preload_file g' = match last_arg PRELOAD toks with
                      | Some a => a
                      | None => preload_file g
                      end /\
    user_python_prefixes g' = match last_arg PYTHONPREFIX toks with
                              | Some a => a
                              | None => user_python_prefixes g
                              end /\
    match last_arg LOCATION toks with
    | Some a => a = Some (spindle_location g')
    | None => spindle_location g' = spindle_location g
    end /\
    match last_arg PORT toks with
    | Some a => exists s, a = Some s /\ spindle_port g' = to_uint (atoi s) /\
                          spindle_port g' <> 0
    | None => spindle_port g' = spindle_port g
    end /\
    logging_enabled g' = logging_enabled g && negb (given DISABLE_LOGGING toks) /\
    use_mpi g' = use_mpi g && negb (given NOMPI toks) /\
    hide_fd g' = hide_fd g && negb (given HIDE toks) /\
    opts g' = Z.lor (Z.lor (opts g) (if given NOMPI toks then OPT_NOMPI else 0))
                    (if given HIDE toks then OPT_NOHIDE else 0) /\
    mpi_argv g' = mpi_argv g /\ mpi_argc g' = mpi_argc g /\
    python_prefixes g' = python_prefixes g.
Proof.
  induction toks as [|[k a] toks IH]; intros g g' Hwf Hd Hrun.
  - simpl in Hrun. injection Hrun as <-. cbn [last_arg given existsb].
    rewrite !andb_true_r, !Z.lor_0_r. repeat split.
  - apply wf_opts_cons in Hwf as [Hk Hwf]. simpl in Hk, Hrun.
    destruct (parse k a st g) as [[c g1] | | |] eqn:Hp; simpl in Hrun;
      try discriminate.
    destruct (parse_step k a st g g1 c Hd Hk Hp) as (-> & Hd1 & _).
    simpl in Hrun.
    destruct (parse_step_scalars k a st g g1 0 Hd Hk Hp)
      as (S1 & S2 & S3 & S4 & S5 & S6 & S7 & S8 & S9 & S10 & S11).
    destruct (IH g1 g' Hwf Hd1 Hrun)
      as (T1 & T2 & T3 & T4 & T5 & T6 & T7 & T8 & T9 & T10 & T11).
    cbn [last_arg given existsb fst].
    fold (given DISABLE_LOGGING toks). fold (given NOMPI toks). fold (given HIDE toks).
    repeat split.
    + rewrite T1, S1. destruct (last_arg PRELOAD toks); [reflexivity|].
      destruct (k =? PRELOAD); reflexivity.
    + rewrite T2, S2. destruct (last_arg PYTHONPREFIX toks); [reflexivity|].
      destruct (k =? PYTHONPREFIX); reflexivity.
    + destruct (last_arg LOCATION toks); [exact T3|].
      destruct (k =? LOCATION); [rewrite T3; exact S3 | congruence].
    + destruct (last_arg PORT toks); [exact T4|].
      destruct (k =? PORT); [|congruence].
      destruct S4 as (s & E1 & E2 & E3). exists s. rewrite T4. tauto.
    + rewrite T5, S5. destruct (k =? DISABLE_LOGGING), (logging_enabled g); reflexivity.
    + rewrite T6, S6. destruct (k =? NOMPI), (use_mpi g); reflexivity.
    + rewrite T7, S7. destruct (k =? HIDE), (hide_fd g); reflexivity.
    + rewrite T8, S8.
      destruct (Z.eqb_spec k NOMPI) as [E1 | E1];
        destruct (Z.eqb_spec k HIDE) as [E2 | E2];
        try (exfalso; revert E1 E2; key_nums; lia);
        cbn [orb]; destruct (given NOMPI toks), (given HIDE toks);
        clear; bitwise.
    + congruence.
    + congruence.
    + congruence.
Qed.

(** ** What the scan leaves in the two sets *)

Lemma code_disjoint_keys (k k' : Z) :
  k <> k' -> Z.land (opt_key_to_code k) (opt_key_to_code k') = 0.
Proof.
  intros Hne. flag_facts. unfold disjoint in *.
  unfold opt_key_to_code; revert Hne; key_nums; intros Hne; decide_eqb;
    rewrite ?Z.land_0_l, ?Z.land_0_r; try reflexivity;
    first [assumption | rewrite Z.land_comm; assumption].
Qed.

Lemma is_no_not_yes (s : string) : is_no s = true -> is_yes s = false.
Proof.
  unfold is_no, is_yes. intros H. apply orb_true_iff in H.
  destruct H as [H | H]; apply String.eqb_eq in H; subst s; reflexivity.
Qed.

Lemma given_yes_cons (k k' : Z) (a : option string) (toks : list (Z * option string)) :
  given_yes k ((k', a) :: toks) = true <->
  (k' = k /\ exists s, a = Some s /\ is_yes s = true) \/ given_yes k toks = true.
Proof.
  unfold given_yes. cbn [existsb fst snd].
  rewrite orb_true_iff, andb_true_iff, Z.eqb_eq.
  destruct a as [s|]; split; intros [H | H]; try tauto.
  - left. split; [tauto|]. exists s. tauto.
  - left. destruct H as (E & s' & [= <-] & Hy). tauto.
  - destruct H; discriminate.
  - destruct H as (_ & s' & [=] & _).
Qed.

Lemma given_no_cons (k k' : Z) (a : option string) (toks : list (Z * option string)) :
  given_no k ((k', a) :: toks) = true <->
  (k' = k /\ exists s, a = Some s /\ is_no s = true) \/ given_no k toks = true.
Proof.
  unfold given_no. cbn [existsb fst snd].
  rewrite orb_true_iff, andb_true_iff, Z.eqb_eq.
  destruct a as [s|]; split; intros [H | H]; try tauto.
  - left. split; [tauto|]. exists s. tauto.
  - left. destruct H as (E & s' & [= <-] & Hy). tauto.
  - destruct H; discriminate.
  - destruct H as (_ & s' & [=] & _).
Qed.

Lemma land_lor_bit (e c f : Z) :
  Z.land c f = 0 -> Z.land (Z.lor e c) f = Z.land e f.
Proof. intros H. bitwise. Qed.

Lemma land_lor_same (e f : Z) : Z.land (Z.lor e f) f = f.
Proof. bitwise. Qed.

(** After the scan the bit of a yes/no option is in the enabled set
    exactly when it was there or the option was given with yes, and in the
    disabled set exactly when it was there or the option was given with
    no. *)
Lemma parse_options_yesno_bits (k : Z) (st : argp_state)
  (toks : list (Z * option string)) :
  In k yesno_keys ->
  forall g g',
    wf_opts toks -> done g = false ->
    parse_options st toks g = Returns g' ->
    (Z.land (enabled_opts g') (opt_key_to_code k) = opt_key_to_code k <->
     Z.land (enabled_opts g) (opt_key_to_code k) = opt_key_to_code k \/
     given_yes k toks = true) /\
    (Z.land (disabled_opts g') (opt_key_to_code k) = opt_key_to_code k <->
     Z.land (disabled_opts g) (opt_key_to_code k) = opt_key_to_code k \/
     given_no k toks = true).
Proof.
  intros Hk. pose proof (single_bit_nonzero _ (yesno_code_single_bit k Hk)) as Hnz.
  induction toks as [|[k1 a1] toks IH]; intros g g' Hwf Hd Hrun.
  - simpl in Hrun. injection Hrun as <-. unfold given_yes, given_no. simpl.
    split; split; intros; try tauto; destruct H; (assumption || discriminate).
  - apply wf_opts_cons in Hwf as [Hk1 Hwf]. simpl in Hk1, Hrun.
    destruct (parse k1 a1 st g) as [[c g1] | | |] eqn:Hp; simpl in Hrun;
      try discriminate.
    destruct (parse_step k1 a1 st g g1 c Hd Hk1 Hp) as (-> & Hd1 & _).
    simpl in Hrun. destruct (IH g1 g' Hwf Hd1 Hrun) as [IHe IHd].
    rewrite IHe, IHd, given_yes_cons, given_no_cons. clear IHe IHd.
    destruct (Z.eq_dec k1 k) as [-> | Hne].
    + destruct (parse_step_sets k a1 st g g1 0 Hd Hk1 Hp)
        as [(E1 & E2 & _ & Hn) | [(E1 & E2 & Hy) | (E1 & E2 & _ & s & Ea & Hny & Hno)]].
      * contradiction.
      * rewrite E1, E2, land_lor_same.
        destruct Hy as [Hf | (_ & s & Ea & Hy)].
        { exfalso. unfold yesno_keys in Hk. simpl in Hf, Hk. revert Hf Hk.
          key_nums. lia. }
        subst a1. split; split; intros; try tauto.
        -- right. left. split; [reflexivity|]. exists s. tauto.
        -- destruct H as [H | [(_ & s' & [= <-] & Hno) | H]]; try tauto.
           apply is_no_not_yes in Hno. congruence.
      * rewrite E1, E2, land_lor_same. subst a1. split; split; intros; try tauto.
        -- destruct H as [H | [(_ & s' & [= <-] & Hy) | H]]; try tauto. congruence.
        -- right. left. split; [reflexivity|]. exists s. tauto.
    + pose proof (code_disjoint_keys k1 k Hne) as Hdis.
      assert (He : Z.land (enabled_opts g1) (opt_key_to_code k)
                   = Z.land (enabled_opts g) (opt_key_to_code k)).
      { destruct (parse_step k1 a1 st g g1 0 Hd Hk1 Hp) as (_ & _ & [-> | ->] & _);
          [reflexivity | apply land_lor_bit, Hdis]. }
      assert (Hdd : Z.land (disabled_opts g1) (opt_key_to_code k)
                    = Z.land (disabled_opts g) (opt_key_to_code k)).
      { destruct (parse_step k1 a1 st g g1 0 Hd Hk1 Hp)
          as (_ & _ & _ & [-> | [-> _]] & _);
          [reflexivity | apply land_lor_bit, Hdis]. }
      rewrite He, Hdd. split; split; intros H; try tauto;
        destruct H as [H | [(E & _) | H]]; try tauto; contradiction.
Qed.

(** ** The configuration [parseArgs] returns, by accessor *)

(** The variables of a run that returned, in terms of the scan. *)
Lemma parseArgs_fields (cl : cmdline) (g0 g : globals) (o : Z) :
  wf_cmdline cl -> parseArgs cl g0 = Returns (o, g) ->
  exists g1,
    parse_options (scan_state cl) (cl_opts cl) (set_done false g0) = Returns g1 /\
    cl_cmd cl <> [] /\
    Z.land (enabled_opts g1) (disabled_opts g1) = 0 /\
    (Z.land (enabled_opts g1) OPT_PUSH = 0 \/ Z.land (enabled_opts g1) OPT_PULL = 0) /\
    o = debug_override (resolved (captured cl g1)) /\
    opts g = o /\
    sec_model g = chosen_sec g1 /\
    enabled_opts g = enabled_opts g1 /\ disabled_opts g = disabled_opts g1 /\
    preload_file g = preload_file g1 /\
    user_python_prefixes g = user_python_prefixes g1 /\
    spindle_location g = spindle_location g1 /\
    spindle_port g = spindle_port g1 /\
    logging_enabled g = logging_enabled g1 /\
    use_mpi g = use_mpi g1 /\ hide_fd g = hide_fd g1 /\
    python_prefixes g = python_prefixes g1 /\
    mpi_argv g = cl_cmd cl /\ mpi_argc g = Z.of_nat (List.length (cl_cmd cl)) /\
    done g = true.
Proof.
  intros Hwf Hrun.
  destruct (parseArgs_Returns cl g0 g o Hwf Hrun)
    as (g1 & Hscan & _ & Hcmd & Hc & Hone & Ho & ->).
  exists g1. repeat split; assumption || reflexivity.
Qed.

(** X1.  When [parseArgs] returns, [getAppArgs] gives the command of the
    command line, word for word, with its length; the command is not
    empty. *)
Theorem X1_command_captured (cl : cmdline) (g0 g : globals) (o : Z) :
  wf_cmdline cl -> parseArgs cl g0 = Returns (o, g) ->
  getAppArgs g = (Z.of_nat (List.length (cl_cmd cl)), cl_cmd cl) /\
  cl_cmd cl <> [].
Proof.
  intros Hwf Hrun.
  destruct (parseArgs_fields cl g0 g o Hwf Hrun) as (g1 & F).
  unfold getAppArgs. split; [|tauto].
  f_equal; tauto.
Qed.

(** X2.  A command line without a command never gives a configuration:
    once its options are scanned, [parseArgs] ends with the message that
    no MPI command line was found. *)
Theorem X2_missing_command (cl : cmdline) (g0 : globals) :
  wf_cmdline cl -> cl_cmd cl = [] ->
  (forall r, parseArgs cl g0 <> Returns r) /\
  (forall g1,
      parse_options (scan_state cl) (cl_opts cl) (set_done false g0) = Returns g1 ->
      parseArgs cl g0 = Exits "No MPI command line found").
Proof.
  intros Hwf Hcmd. split.
  - intros [o g] Hrun.
    destruct (parseArgs_fields cl g0 g o Hwf Hrun) as (g1 & _ & Hne & _).
    contradiction.
  - intros g1 Hscan. rewrite parseArgs_eq, Hscan, Hcmd by assumption. reflexivity.
Qed.

Lemma find_yesno_name (k : Z) (n : string) :
  In (k, n) yesno_names -> entry_name (find_entry k options) = n.
Proof.
  intros Hk. unfold yesno_names in Hk. simpl in Hk.
  repeat (destruct Hk as [[= <- <-] | Hk]; [lookup|]); contradiction.
Qed.

Lemma yesno_names_keys (k : Z) (n : string) :
  In (k, n) yesno_names -> In k yesno_keys.
Proof.
  unfold yesno_names, yesno_keys. simpl.
  intros H. repeat (destruct H as [[= <- <-] | H]; [tauto|]). contradiction.
Qed.

Lemma yesno_keys_named (k : Z) :
  In k yesno_keys -> exists n, In (k, n) yesno_names.
Proof.
  unfold yesno_names, yesno_keys. simpl.
  intros H. repeat (destruct H as [<- | H]; [eexists; tauto|]). contradiction.
Qed.

(** Every option of a scan that returns was parsed, with the sentinel down,
    and returned. *)
Lemma parse_options_each (st : argp_state) (toks : list (Z * option string)) :
  forall g g',
    wf_opts toks -> done g = false ->
    parse_options st toks g = Returns g' ->
    forall k a, In (k, a) toks ->
      exists gi gi', done gi = false /\ parse k a st gi = Returns (0, gi').
Proof.
  induction toks as [|[k1 a1] toks IH]; intros g g' Hwf Hd Hrun k a Hin.
  - contradiction.
  - apply wf_opts_cons in Hwf as [Hk1 Hwf]. simpl in Hk1, Hrun.
    destruct (parse k1 a1 st g) as [[c g1] | | |] eqn:Hp; simpl in Hrun;
      try discriminate.
    destruct (parse_step k1 a1 st g g1 c Hd Hk1 Hp) as (-> & Hd1 & _).
    simpl in Hrun. destruct Hin as [[= -> ->] | Hin].
    + exists g, g1. tauto.
    + apply (IH g1 g' Hwf Hd1 Hrun k a Hin).
Qed.

(** X3.  A yes/no option whose argument is none of yes, y, no and n ends
    the run with a message that names the option; no command line with
    such an argument gives a configuration. *)
Theorem X3_malformed_yesno :
  (forall k n s st g,
      done g = false -> In (k, n) yesno_names ->
      is_yes s = false -> is_no s = false ->
      parse k (Some s) st g = Exits (n ++ " must be 'yes' or 'no'")) /\
  (forall cl g0 k s,
      wf_cmdline cl -> In k yesno_keys -> In (k, Some s) (cl_opts cl) ->
      is_yes s = false -> is_no s = false ->
      forall r, parseArgs cl g0 <> Returns r).
Proof.
  assert (H1 : forall k n s st g,
             done g = false -> In (k, n) yesno_names ->
             is_yes s = false -> is_no s = false ->
             parse k (Some s) st g = Exits (n ++ " must be 'yes' or 'no'")).
  { intros k n s st g Hd Hk Hy Hn.
    rewrite parse_yesno by (assumption || apply (yesno_names_keys k n Hk)).
    fold (is_yes s). fold (is_no s). rewrite Hy, Hn, (find_yesno_name k n Hk).
    reflexivity. }
  split; [exact H1|].
  intros cl g0 k s Hwf Hk Hin Hy Hn [o g] Hrun.
  destruct (parseArgs_fields cl g0 g o Hwf Hrun) as (g1 & Hscan & _).
  destruct (parse_options_each _ _ (set_done false g0) g1 Hwf eq_refl Hscan k
              (Some s) Hin) as (gi & gi' & Hdi & Hp).
  destruct (yesno_keys_named k Hk) as (n & Hkn).
  rewrite (H1 k n s _ gi Hdi Hkn Hy Hn) in Hp. discriminate.
Qed.

Lemma scan_bits_facts :
  disjoint OPT_NOMPI OPT_NOHIDE /\
  disjoint OPT_COBO (Z.lor OPT_NOMPI OPT_NOHIDE) /\
  disjoint (Z.lor OPT_NOMPI OPT_NOHIDE) OPT_RELOCAOUT /\
  disjoint (Z.lor OPT_NOMPI OPT_NOHIDE) OPT_RELOCEXEC /\
  disjoint (Z.lor OPT_NOMPI OPT_NOHIDE) OPT_REMAPEXEC.
Proof. flag_facts. repeat split; bitwise. Qed.

(** The two bits the scan may set come through finalize unchanged. *)
Lemma resolved_scan_bits (g : globals) :
  sec_model_ok g ->
  Z.land (resolved g) (Z.lor OPT_NOMPI OPT_NOHIDE)
  = Z.land (opts g) (Z.lor OPT_NOMPI OPT_NOHIDE).
Proof.
  intros Hs.
  destruct groups_disjoint as (_ & _ & _ & D4 & _ & _ & D7 & _ & D9).
  destruct scan_bits_facts as (_ & B2 & _).
  destruct (sec_field_groups _ (chosen_sec_model g Hs)) as (_ & _ & _ & _ & S5 & _).
  pose proof (pushpull_choice_within (enabled_opts g)) as P.
  unfold resolved, reloc_part, misc_part, default_network_opts.
  set (nn := Z.lor OPT_NOMPI OPT_NOHIDE) in *. clearbody nn.
  clear Hs. bitwise.
Qed.

Lemma nompi_nohide_single : single_bit OPT_NOMPI /\ single_bit OPT_NOHIDE.
Proof. split; apply flag_single_bit; flag_in. Qed.

(** The serial-job and no-hide switches of the returned configuration. *)
Lemma returned_nompi_nohide (cl : cmdline) (g : globals) (o : Z) :
  wf_cmdline cl -> parseArgs cl initial_globals = Returns (o, g) ->
  isMPIJob g = negb (given NOMPI (cl_opts cl)) /\
  hideFDs g = negb (given HIDE (cl_opts cl)) /\
  Z.land o OPT_NOMPI = (if given NOMPI (cl_opts cl) then OPT_NOMPI else 0) /\
  Z.land o OPT_NOHIDE = (if given HIDE (cl_opts cl) then OPT_NOHIDE else 0).
Proof.
  intros Hwf Hrun.
  destruct (parseArgs_fields cl _ g o Hwf Hrun)
    as (g1 & Hscan & _ & _ & _ & Ho & _ & _ & _ & _ & _ & _ & _ & _ & _ & Hm & Hh & _).
  destruct (parse_options_scalars _ _ (set_done false initial_globals) g1 Hwf
              eq_refl Hscan) as (_ & _ & _ & _ & _ & Sm & Sh & So & _).
  destruct initial_globals_invariants as [Hi1 Hi2].
  destruct (initial_scan_invariants cl _ g1 Hwf Hi1 Hi2 Hscan) as [_ Hs1].
  destruct scan_bits_facts as (B1 & B2 & B3 & B4 & B5).
  assert (Hw : Z.land o (Z.lor OPT_NOMPI OPT_NOHIDE)
               = Z.lor (if given NOMPI (cl_opts cl) then OPT_NOMPI else 0)
                       (if given HIDE (cl_opts cl) then OPT_NOHIDE else 0)).
  { rewrite Ho, (debug_override_other _ _ B3 B4 B5), (resolved_scan_bits _ Hs1).
    change (opts (captured cl g1)) with (opts g1). rewrite So.
    change (opts (set_done false initial_globals)) with 0.
    destruct (given NOMPI (cl_opts cl)), (given HIDE (cl_opts cl)); clear; bitwise. }
  unfold isMPIJob, hideFDs. rewrite Hm, Hh, Sm, Sh.
  change (use_mpi (set_done false initial_globals)) with true.
  change (hide_fd (set_done false initial_globals)) with true.
  cbn [andb]. split; [reflexivity|]. split; [reflexivity|].
  split; destruct (given NOMPI (cl_opts cl)), (given HIDE (cl_opts cl));
    clear - Hw B1; bitwise.
Qed.

(** X4.  In the configuration [parseArgs] returns, the job is an MPI job
    unless no-mpi was given, and the option word holds the no-mpi bit
    exactly when it was; file descriptors are hidden unless no-hide was
    given, and the word holds the no-hide bit exactly when it was. *)
Theorem X4_nompi_nohide (cl : cmdline) (g : globals) (o : Z) :
  wf_cmdline cl -> parseArgs cl initial_globals = Returns (o, g) ->
  isMPIJob g = negb (given NOMPI (cl_opts cl)) /\
  (Z.land o OPT_NOMPI = OPT_NOMPI <-> given NOMPI (cl_opts cl) = true) /\
  hideFDs g = negb (given HIDE (cl_opts cl)) /\
  (Z.land o OPT_NOHIDE = OPT_NOHIDE <-> given HIDE (cl_opts cl) = true).
Proof.
  intros Hwf Hrun.
  destruct (returned_nompi_nohide cl g o Hwf Hrun) as (Hm & Hh & Em & Eh).
  destruct nompi_nohide_single as [N1 N2].
  pose proof (single_bit_nonzero _ N1) as Z1.
  pose proof (single_bit_nonzero _ N2) as Z2.
  rewrite Em, Eh. split; [exact Hm|]. split; [|split; [exact Hh|]].
  - destruct (given NOMPI (cl_opts cl)); split; intros H;
      try reflexivity; try discriminate. symmetry in H. contradiction.
  - destruct (given HIDE (cl_opts cl)); split; intros H;
      try reflexivity; try discriminate. symmetry in H. contradiction.
Qed.

(** X5.  Usage logging is enabled in the returned configuration exactly
    when the build logs usage and disable-logging was not given. *)
Theorem X5_logging (cl : cmdline) (g : globals) (o : Z) :
  wf_cmdline cl -> parseArgs cl initial_globals = Returns (o, g) ->
  isLoggingEnabled g = USAGE_LOGGING_FILE && negb (given DISABLE_LOGGING (cl_opts cl)).
Proof.
  intros Hwf Hrun.
  destruct (parseArgs_fields cl _ g o Hwf Hrun)
    as (g1 & Hscan & _ & _ & _ & _ & _ & _ & _ & _ & _ & _ & _ & _ & Hl & _).
  destruct (parse_options_scalars _ _ (set_done false initial_globals) g1 Hwf
              eq_refl Hscan) as (_ & _ & _ & _ & Sl & _).
  unfold isLoggingEnabled. rewrite Hl, Sl. reflexivity.
Qed.

(** X6.  For the preload file, the location and the python prefixes the
    option given last decides: the returned configuration holds its
    argument, and without the option it holds no preload file, the compiled
    location and no user prefixes. *)
Theorem X6_last_occurrence_wins (cl : cmdline) (g : globals) (o : Z) :
  wf_cmdline cl -> parseArgs cl initial_globals = Returns (o, g) ->
  getPreloadFile g = match last_arg PRELOAD (cl_opts cl) with
                     | Some a => a
                     | None => None
                     end /\
  user_python_prefixes g = match last_arg PYTHONPREFIX (cl_opts cl) with
                           | Some a => a
                           | None => None
                           end /\
  match last_arg LOCATION (cl_opts cl) with
  | Some a => a = Some (spindle_location g)
  | None => spindle_location g = SPINDLE_LOC
  end.
Proof.
  intros Hwf Hrun.
  destruct (parseArgs_fields cl _ g o Hwf Hrun)
    as (g1 & Hscan & _ & _ & _ & _ & _ & _ & _ & _ & Hp & Hu & Hl & _).
  destruct (parse_options_scalars _ _ (set_done false initial_globals) g1 Hwf
              eq_refl Hscan) as (S1 & S2 & S3 & _).
  unfold getPreloadFile. rewrite Hp, Hu, Hl, S1, S2. repeat split.
  exact S3.
Qed.

(** X7.  The port option given last decides the port: the returned port is
    what [atoi] reads in its argument, as an unsigned int, and it is not
    0; without a port option the port is the compiled one. *)
Theorem X7_last_port (cl : cmdline) (g : globals) (o : Z) :
  wf_cmdline cl -> parseArgs cl initial_globals = Returns (o, g) ->
  match last_arg PORT (cl_opts cl) with
  | Some a => exists s, a = Some s /\ getPort g = to_uint (atoi s) /\
                        0 < getPort g < 2 ^ 32
  | None => getPort g = SPINDLE_PORT
  end.
Proof.
  intros Hwf Hrun.
  destruct (parseArgs_fields cl _ g o Hwf Hrun)
    as (g1 & Hscan & _ & _ & _ & _ & _ & _ & _ & _ & _ & _ & _ & Hp & _).
  destruct (parse_options_scalars _ _ (set_done false initial_globals) g1 Hwf
              eq_refl Hscan) as (_ & _ & _ & S4 & _).
  unfold getPort. rewrite Hp.
  destruct (last_arg PORT (cl_opts cl)) as [a|]; [|exact S4].
  destruct S4 as (s & Ea & Ev & Hnz). exists s. split; [exact Ea|].
  split; [exact Ev|]. rewrite Ev in *. unfold to_uint, UINT_BITS in *.
  pose proof (Z.mod_pos_bound (atoi s) (2 ^ 32) ltac:(lia)). lia.
Qed.

(** ** The option word, bit by bit *)

Lemma yesno_code_group (k : Z) :
  In k yesno_keys ->
  (Z.land (opt_key_to_code k) all_reloc_opts = opt_key_to_code k /\
   Z.land (opt_key_to_code k) all_misc_opts = 0) \/
  (Z.land (opt_key_to_code k) all_misc_opts = opt_key_to_code k /\
   Z.land (opt_key_to_code k) all_reloc_opts = 0).
Proof.
  intros Hk. unfold yesno_keys in Hk. simpl in Hk.
  unfold all_reloc_opts, all_misc_opts.
  do 5 (destruct Hk as [<- | Hk];
        [unfold opt_key_to_code; key_nums; decide_eqb; flag_facts;
         left; split; bitwise|]).
  do 3 (destruct Hk as [<- | Hk];
        [unfold opt_key_to_code; key_nums; decide_eqb; flag_facts;
         right; split; bitwise|]).
  contradiction.
Qed.

Lemma default_on_keys (k : Z) :
  In k yesno_keys -> default_on k = negb ((k =? DEBUG) || (k =? NOCLEAN)).
Proof.
  intros Hk. pose proof (yesno_code_single_bit k Hk) as Hs.
  apply single_bit_nonzero in Hs. revert Hs.
  unfold yesno_keys in Hk. simpl in Hk. unfold default_on.
  assert (Hon : forall c,
             Z.land (Z.lor default_reloc_opts default_misc_opts) c = c ->
             c <> 0 ->
             negb (Z.land (Z.lor default_reloc_opts default_misc_opts) c =? 0)
             = true).
  { intros c -> Hc. apply negb_true_iff, Z.eqb_neq, Hc. }
  assert (Hoff : forall c,
             Z.land (Z.lor default_reloc_opts default_misc_opts) c = 0 ->
             negb (Z.land (Z.lor default_reloc_opts default_misc_opts) c =? 0)
             = false).
  { intros c ->. reflexivity. }
  destruct Hk as [<- | [<- | [<- | [<- | [<- | [<- | [<- | [<- | []]]]]]]]];
    intros Hs.
  - change (opt_key_to_code RELOCAOUT) with OPT_RELOCAOUT in *.
    rewrite Hon; [reflexivity | | exact Hs].
    unfold default_reloc_opts, default_misc_opts. clear. bitwise.
  - change (opt_key_to_code RELOCSO) with OPT_RELOCSO in *.
    rewrite Hon; [reflexivity | | exact Hs].
    unfold default_reloc_opts, default_misc_opts. clear. bitwise.
  - change (opt_key_to_code RELOCPY) with OPT_RELOCPY in *.
    rewrite Hon; [reflexivity | | exact Hs].
    unfold default_reloc_opts, default_misc_opts. clear. bitwise.
  - change (opt_key_to_code RELOCEXEC) with OPT_RELOCEXEC in *.
    rewrite Hon; [reflexivity | | exact Hs].
    unfold default_reloc_opts, default_misc_opts. clear. bitwise.
  - change (opt_key_to_code FOLLOWFORK) with OPT_FOLLOWFORK in *.
    rewrite Hon; [reflexivity | | exact Hs].
    unfold default_reloc_opts, default_misc_opts. clear. bitwise.
  - change (opt_key_to_code DEBUG) with OPT_DEBUG in *.
    rewrite Hoff; [reflexivity|].
    unfold default_reloc_opts, default_misc_opts. clear Hon Hoff Hs.
    flag_facts. bitwise.
  - change (opt_key_to_code STRIP) with OPT_STRIP in *.
    rewrite Hon; [reflexivity | | exact Hs].
    unfold default_reloc_opts, default_misc_opts. clear. bitwise.
  - change (opt_key_to_code NOCLEAN) with OPT_NOCLEAN in *.
    rewrite Hoff; [reflexivity|].
    unfold default_reloc_opts, default_misc_opts. clear Hon Hoff Hs.
    flag_facts. bitwise.
Qed.

(** The bit of a yes/no option in the word finalize leaves. *)
Lemma resolved_yesno_bit (g : globals) (k : Z) :
  In k yesno_keys ->
  Z.ldiff (opts g) (Z.lor OPT_NOMPI OPT_NOHIDE) = 0 -> sec_model_ok g ->
  Z.land (resolved g) (opt_key_to_code k) =
  Z.ldiff (Z.lor (Z.land (Z.lor default_reloc_opts default_misc_opts)
                         (opt_key_to_code k))
                 (Z.land (enabled_opts g) (opt_key_to_code k)))
          (Z.land (disabled_opts g) (opt_key_to_code k)).
Proof.
  intros Hk Ho Hs.
  destruct (resolved_bundles g Ho Hs) as [R M].
  destruct groups_disjoint as (D1 & _).
  assert (Hdr : default_reloc_opts = all_reloc_opts) by reflexivity.
  assert (Hdm : Z.land default_misc_opts all_misc_opts = default_misc_opts)
    by (unfold default_misc_opts, all_misc_opts; bitwise).
  rewrite Hdr in *.
  set (w := resolved g) in *. clearbody w.
  set (c := opt_key_to_code k) in *.
  destruct (yesno_code_group k Hk) as [[G1 G2] | [G1 G2]];
    fold c in G1, G2; clearbody c; clear Hk Ho Hs Hdr; bitwise.
Qed.

Lemma given_yes_no_bits (cl : cmdline) (g1 : globals) (k : Z) :
  wf_cmdline cl -> In k yesno_keys ->
  parse_options (scan_state cl) (cl_opts cl) (set_done false initial_globals)
  = Returns g1 ->
  Z.land (enabled_opts g1) (opt_key_to_code k)
  = (if given_yes k (cl_opts cl) then opt_key_to_code k else 0) /\
  Z.land (disabled_opts g1) (opt_key_to_code k)
  = (if given_no k (cl_opts cl) then opt_key_to_code k else 0).
Proof.
  intros Hwf Hk Hscan.
  pose proof (yesno_code_single_bit k Hk) as Hs.
  pose proof (single_bit_nonzero _ Hs) as Hnz.
  destruct (parse_options_yesno_bits k _ _ Hk (set_done false initial_globals) g1
              Hwf eq_refl Hscan) as [He Hd].
  change (enabled_opts (set_done false initial_globals)) with 0 in He.
  change (disabled_opts (set_done false initial_globals)) with 0 in Hd.
  rewrite Z.land_0_l in He, Hd.
  split.
  - destruct (given_yes k (cl_opts cl)).
    + apply He. right. reflexivity.
    + destruct (land_single_bit_cases (enabled_opts g1) _ Hs) as [E | E];
        [exact E|]. apply He in E. destruct E as [E | E]; [|discriminate].
      symmetry in E. contradiction.
  - destruct (given_no k (cl_opts cl)).
    + apply Hd. right. reflexivity.
    + destruct (land_single_bit_cases (disabled_opts g1) _ Hs) as [E | E];
        [exact E|]. apply Hd in E. destruct E as [E | E]; [|discriminate].
      symmetry in E. contradiction.
Qed.

(** The bit of a yes/no option in the word finalize leaves, in terms of the
    command line. *)
Lemma scan_yesno_word (cl : cmdline) (g1 : globals) (k : Z) :
  wf_cmdline cl -> In k yesno_keys ->
  parse_options (scan_state cl) (cl_opts cl) (set_done false initial_globals)
  = Returns g1 ->
  Z.land (resolved (captured cl g1)) (opt_key_to_code k)
  = if yesno_setting k (cl_opts cl) then opt_key_to_code k else 0.
Proof.
  intros Hwf Hk Hscan.
  destruct initial_globals_invariants as [Hi1 Hi2].
  destruct (initial_scan_invariants cl _ g1 Hwf Hi1 Hi2 Hscan) as [Ho1 Hs1].
  rewrite (resolved_yesno_bit _ k Hk Ho1 Hs1).
  change (enabled_opts (captured cl g1)) with (enabled_opts g1).
  change (disabled_opts (captured cl g1)) with (disabled_opts g1).
  destruct (given_yes_no_bits cl g1 k Hwf Hk Hscan) as [-> ->].
  pose proof (yesno_code_single_bit k Hk) as Hs.
  pose proof (single_bit_nonzero _ Hs) as Hnz.
  unfold yesno_setting, default_on.
  destruct (land_single_bit_cases (Z.lor default_reloc_opts default_misc_opts) _ Hs)
    as [-> | ->].
  - cbn [Z.eqb negb].
    destruct (given_yes k (cl_opts cl)), (given_no k (cl_opts cl)); cbn [negb andb orb];
      rewrite ?Z.lor_0_l, ?Z.lor_0_r, ?Z.ldiff_0_r, ?Z.ldiff_0_l, ?Z.ldiff_diag;
      reflexivity.
  - apply Z.eqb_neq in Hnz. rewrite Hnz. cbn [negb].
    destruct (given_yes k (cl_opts cl)), (given_no k (cl_opts cl)); cbn [negb andb orb];
      rewrite ?Z.lor_diag, ?Z.lor_0_l, ?Z.lor_0_r, ?Z.ldiff_0_r, ?Z.ldiff_0_l,
        ?Z.ldiff_diag; reflexivity.
Qed.

Lemma yesno_override_disjoint (k : Z) :
  In k yesno_keys -> debug_hides k = false ->
  disjoint (opt_key_to_code k) OPT_RELOCAOUT /\
  disjoint (opt_key_to_code k) OPT_RELOCEXEC /\
  disjoint (opt_key_to_code k) OPT_REMAPEXEC.
Proof.
  intros Hk. unfold yesno_keys in Hk. simpl in Hk. unfold debug_hides.
  repeat (destruct Hk as [<- | Hk];
          [key_nums; decide_eqb; cbn [orb]; intros Hh;
           first [discriminate
                 | unfold opt_key_to_code; decide_eqb; flag_facts; clear Hh;
                   repeat split; bitwise]|]).
  contradiction.
Qed.

Lemma debug_override_hidden (o f : Z) :
  f = OPT_RELOCAOUT \/ f = OPT_RELOCEXEC ->
  Z.land (debug_override o) f
  = if negb (Z.land o OPT_DEBUG =? 0) then 0 else Z.land o f.
Proof.
  destruct override_bits_disjoint as [D1 D2]. unfold debug_override.
  intros [-> | ->]; destruct (negb (Z.land o OPT_DEBUG =? 0)); try reflexivity;
    bitwise.
Qed.

Lemma debug_hides_code (k : Z) :
  debug_hides k = true ->
  opt_key_to_code k = OPT_RELOCAOUT \/ opt_key_to_code k = OPT_RELOCEXEC.
Proof.
  unfold debug_hides. rewrite orb_true_iff, !Z.eqb_eq.
  intros [-> | ->]; [left | right]; reflexivity.
Qed.

(** Whether the word finalize leaves has the debug bit. *)
Lemma scan_debug_bit (cl : cmdline) (g1 : globals) :
  wf_cmdline cl ->
  parse_options (scan_state cl) (cl_opts cl) (set_done false initial_globals)
  = Returns g1 ->
  negb (Z.land (resolved (captured cl g1)) OPT_DEBUG =? 0)
  = yesno_setting DEBUG (cl_opts cl).
Proof.
  intros Hwf Hscan.
  assert (Hk : In DEBUG yesno_keys) by (unfold yesno_keys; simpl; tauto).
  pose proof (scan_yesno_word cl g1 DEBUG Hwf Hk Hscan) as E.
  pose proof (single_bit_nonzero _ (yesno_code_single_bit DEBUG Hk)) as Hnz.
  change (opt_key_to_code DEBUG) with OPT_DEBUG in E, Hnz. rewrite E.
  destruct (yesno_setting DEBUG (cl_opts cl)); [|reflexivity].
  apply negb_true_iff, Z.eqb_neq, Hnz.
Qed.

(** The bit of a yes/no option in the returned word. *)
Lemma returned_yesno_bit (cl : cmdline) (g : globals) (o : Z) (k : Z) :
  wf_cmdline cl -> parseArgs cl initial_globals = Returns (o, g) ->
  In k yesno_keys ->
  Z.land o (opt_key_to_code k)
  = if yesno_setting k (cl_opts cl) &&
       negb (debug_hides k && yesno_setting DEBUG (cl_opts cl))
    then opt_key_to_code k else 0.
Proof.
  intros Hwf Hrun Hk.
  destruct (parseArgs_fields cl _ g o Hwf Hrun) as (g1 & Hscan & _ & _ & _ & Ho & _).
  rewrite Ho. destruct (debug_hides k) eqn:Hh; cbn [andb].
  - rewrite (debug_override_hidden _ _ (debug_hides_code k Hh)).
    rewrite (scan_debug_bit cl g1 Hwf Hscan), (scan_yesno_word cl g1 k Hwf Hk Hscan).
    destruct (yesno_setting DEBUG (cl_opts cl)), (yesno_setting k (cl_opts cl));
      reflexivity.
  - destruct (yesno_override_disjoint k Hk Hh) as (D1 & D2 & D3).
    rewrite (debug_override_other _ _ D1 D2 D3), andb_true_r.
    apply (scan_yesno_word cl g1 k Hwf Hk Hscan).
Qed.

(** X8.  The bit of each yes/no option in the word [parseArgs] returns: a
    no switches the option off; otherwise a yes switches it on, and without
    either the default decides, which is on for all but debug and noclean;
    and the debug mode, when on, switches reloc-aout and reloc-exec off
    whatever was given for them. *)
Theorem X8_yesno_option_bits (cl : cmdline) (g : globals) (o : Z) :
  wf_cmdline cl -> parseArgs cl initial_globals = Returns (o, g) ->
  forall k, In k yesno_keys ->
    Z.land o (opt_key_to_code k)
    = (if yesno_setting k (cl_opts cl) &&
          negb (debug_hides k && yesno_setting DEBUG (cl_opts cl))
       then opt_key_to_code k else 0) /\
    default_on k = negb ((k =? DEBUG) || (k =? NOCLEAN)).
Proof.
  intros Hwf Hrun k Hk. split.
  - apply (returned_yesno_bit cl g o k Hwf Hrun Hk).
  - apply default_on_keys, Hk.
Qed.

Lemma remapexec_facts :
  disjoint OPT_REMAPEXEC all_reloc_opts /\ disjoint OPT_REMAPEXEC all_misc_opts /\
  disjoint OPT_REMAPEXEC all_pushpull_opts /\ disjoint OPT_REMAPEXEC OPT_COBO /\
  disjoint OPT_REMAPEXEC (Z.lor OPT_NOMPI OPT_NOHIDE) /\
  disjoint OPT_DEBUG OPT_RELOCAOUT /\ disjoint OPT_DEBUG OPT_RELOCEXEC /\
  disjoint OPT_DEBUG OPT_REMAPEXEC.
Proof.
  unfold all_reloc_opts, all_misc_opts, all_pushpull_opts. flag_facts.
  repeat split; bitwise.
Qed.

(** The word finalize leaves never has the remap-exec bit. *)
Lemma resolved_no_remapexec (g : globals) :
  Z.ldiff (opts g) (Z.lor OPT_NOMPI OPT_NOHIDE) = 0 -> sec_model_ok g ->
  Z.land (resolved g) OPT_REMAPEXEC = 0.
Proof.
  intros Ho Hs.
  destruct remapexec_facts as (R1 & R2 & R3 & R4 & R5 & _).
  destruct (sec_field_groups _ (chosen_sec_model g Hs)) as (_ & _ & _ & _ & _ & S6).
  pose proof (pushpull_choice_within (enabled_opts g)) as P.
  unfold resolved, reloc_part, misc_part, default_network_opts.
  set (nn := Z.lor OPT_NOMPI OPT_NOHIDE) in *. clearbody nn.
  clear Hs. bitwise.
Qed.

Lemma remapexec_single : single_bit OPT_REMAPEXEC.
Proof. apply flag_single_bit. flag_in. Qed.

(** The debug bit and the remap-exec bit of the returned word. *)
Lemma returned_debug_bits (cl : cmdline) (g : globals) (o : Z) :
  wf_cmdline cl -> parseArgs cl initial_globals = Returns (o, g) ->
  yesno_setting DEBUG (cl_opts cl) = given_yes DEBUG (cl_opts cl) /\
  (given_yes DEBUG (cl_opts cl) = true -> given_no DEBUG (cl_opts cl) = false) /\
  Z.land o OPT_DEBUG = (if given_yes DEBUG (cl_opts cl) then OPT_DEBUG else 0) /\
  Z.land o OPT_REMAPEXEC
  = (if given_yes DEBUG (cl_opts cl) then OPT_REMAPEXEC else 0).
Proof.
  intros Hwf Hrun.
  destruct (parseArgs_fields cl _ g o Hwf Hrun)
    as (g1 & Hscan & _ & Hc & _ & Ho & _).
  assert (Hk : In DEBUG yesno_keys) by (unfold yesno_keys; simpl; tauto).
  pose proof (single_bit_nonzero _ (yesno_code_single_bit DEBUG Hk)) as Hnz.
  pose proof (single_bit_nonzero _ remapexec_single) as Hnr.
  change (opt_key_to_code DEBUG) with OPT_DEBUG in Hnz.
  destruct (given_yes_no_bits cl g1 DEBUG Hwf Hk Hscan) as [Ey En].
  change (opt_key_to_code DEBUG) with OPT_DEBUG in Ey, En.
  assert (Hyn : given_yes DEBUG (cl_opts cl) = true ->
                given_no DEBUG (cl_opts cl) = false).
  { intros Hy. rewrite Hy in Ey.
    destruct (given_no DEBUG (cl_opts cl)); [|reflexivity].
    exfalso. apply Hnz. clear - Hc Ey En. bitwise. }
  assert (Hset : yesno_setting DEBUG (cl_opts cl) = given_yes DEBUG (cl_opts cl)).
  { unfold yesno_setting. rewrite (default_on_keys DEBUG Hk).
    change (DEBUG =? DEBUG) with true. cbn [orb negb]. rewrite orb_false_r.
    destruct (given_yes DEBUG (cl_opts cl)); [|apply andb_false_r].
    rewrite (Hyn eq_refl). reflexivity. }
  destruct initial_globals_invariants as [Hi1 Hi2].
  destruct (initial_scan_invariants cl _ g1 Hwf Hi1 Hi2 Hscan) as [Ho1 Hs1].
  pose proof (resolved_no_remapexec _ Ho1 Hs1) as Hnr0.
  pose proof (scan_debug_bit cl g1 Hwf Hscan) as Hdbg. rewrite Hset in Hdbg.
  pose proof (scan_yesno_word cl g1 DEBUG Hwf Hk Hscan) as Hw.
  change (opt_key_to_code DEBUG) with OPT_DEBUG in Hw. rewrite Hset in Hw.
  destruct remapexec_facts as (_ & _ & _ & _ & _ & G1 & G2 & G3).
  destruct override_bits_disjoint as [O1 O2].
  set (w := resolved (captured cl g1)) in *. clearbody w.
  assert (Eo : Z.land o OPT_DEBUG
               = if given_yes DEBUG (cl_opts cl) then OPT_DEBUG else 0).
  { rewrite Ho, (debug_override_other _ _ G1 G2 G3). exact Hw. }
  assert (Er : Z.land o OPT_REMAPEXEC
               = if given_yes DEBUG (cl_opts cl) then OPT_REMAPEXEC else 0).
  { rewrite Ho. unfold debug_override. rewrite Hdbg.
    destruct (given_yes DEBUG (cl_opts cl)); [|exact Hnr0].
    clear. bitwise. }
  split; [exact Hset|]. split; [exact Hyn|]. split; [exact Eo | exact Er].
Qed.

(** X9.  The debug mode is on in the returned word exactly when debug was
    given with yes; exactly then the word holds the remap-exec bit, and
    then it holds neither the reloc-aout nor the reloc-exec bit. *)
Theorem X9_debug_mode (cl : cmdline) (g : globals) (o : Z) :
  wf_cmdline cl -> parseArgs cl initial_globals = Returns (o, g) ->
  (Z.land o OPT_DEBUG = OPT_DEBUG <-> given_yes DEBUG (cl_opts cl) = true) /\
  (Z.land o OPT_REMAPEXEC = OPT_REMAPEXEC <-> given_yes DEBUG (cl_opts cl) = true) /\
  (given_yes DEBUG (cl_opts cl) = true ->
   given_no DEBUG (cl_opts cl) = false /\
   Z.land o OPT_RELOCAOUT = 0 /\ Z.land o OPT_RELOCEXEC = 0).
Proof.
  intros Hwf Hrun.
  destruct (returned_debug_bits cl g o Hwf Hrun) as (Hset & Hyn & Eo & Er).
  pose proof (single_bit_nonzero _ (flag_single_bit OPT_DEBUG ltac:(flag_in)))
    as Hnz.
  pose proof (single_bit_nonzero _ remapexec_single) as Hnr.
  rewrite Eo, Er. split; [|split].
  - destruct (given_yes DEBUG (cl_opts cl)); split; intros H;
      try reflexivity; try discriminate. symmetry in H. contradiction.
  - destruct (given_yes DEBUG (cl_opts cl)); split; intros H;
      try reflexivity; try discriminate. symmetry in H. contradiction.
  - intros Hy. split; [apply Hyn, Hy|].
    pose proof (returned_yesno_bit cl g o RELOCAOUT Hwf Hrun
                  ltac:(unfold yesno_keys; simpl; tauto)) as Ka.
    pose proof (returned_yesno_bit cl g o RELOCEXEC Hwf Hrun
                  ltac:(unfold yesno_keys; simpl; tauto)) as Ke.
    change (opt_key_to_code RELOCAOUT) with OPT_RELOCAOUT in Ka.
    change (opt_key_to_code RELOCEXEC) with OPT_RELOCEXEC in Ke.
    change (debug_hides RELOCAOUT) with true in Ka.
    change (debug_hides RELOCEXEC) with true in Ke.
    rewrite Hset, Hy in Ka, Ke. cbn [andb negb] in Ka, Ke.
    rewrite andb_false_r in Ka, Ke. split; assumption.
Qed.

Lemma given_In (k : Z) (toks : list (Z * option string)) :
  given k toks = true <-> In k (map fst toks).
Proof.
  unfold given. rewrite existsb_exists, in_map_iff. split.
  - intros (t & Hin & E). apply Z.eqb_eq in E. exists t. tauto.
  - intros (t & E & Hin). exists t. split; [exact Hin|]. apply Z.eqb_eq, E.
Qed.

Lemma cobo_override_disjoint :
  disjoint OPT_COBO OPT_RELOCAOUT /\ disjoint OPT_COBO OPT_RELOCEXEC /\
  disjoint OPT_COBO OPT_REMAPEXEC.
Proof. flag_facts. repeat split; bitwise. Qed.

(** The bits of push, pull and preload in the enabled set after the
    scan. *)
Lemma scan_flag_bits (cl : cmdline) (g1 : globals) (kf : Z) :
  wf_cmdline cl -> In kf [PUSH; PULL; PRELOAD] ->
  parse_options (scan_state cl) (cl_opts cl) (set_done false initial_globals)
  = Returns g1 ->
  Z.land (enabled_opts g1) (opt_key_to_code kf)
  = if given kf (cl_opts cl) then opt_key_to_code kf else 0.
Proof.
  intros Hwf Hkf Hscan.
  assert (Hs : single_bit (opt_key_to_code kf)).
  { simpl in Hkf. destruct Hkf as [<- | [<- | [<- | []]]];
      [apply push_single | apply pull_single
      | rewrite opt_key_to_code_PRELOAD; apply preload_single]. }
  pose proof (single_bit_nonzero _ Hs) as Hnz.
  pose proof (parse_options_bit kf _ _ Hkf (set_done false initial_globals) g1
                Hwf eq_refl Hscan) as Hb.
  rewrite <- given_In in Hb.
  change (enabled_opts (set_done false initial_globals)) with 0 in Hb.
  rewrite Z.land_0_l in Hb.
  destruct (given kf (cl_opts cl)).
  - apply Hb. right. reflexivity.
  - destruct (land_single_bit_cases (enabled_opts g1) _ Hs) as [E | E]; [exact E|].
    apply Hb in E. destruct E as [E | E]; [|discriminate].
    symmetry in E. contradiction.
Qed.

Lemma scan_push_pull (cl : cmdline) (g1 : globals) :
  wf_cmdline cl ->
  parse_options (scan_state cl) (cl_opts cl) (set_done false initial_globals)
  = Returns g1 ->
  (Z.land (enabled_opts g1) OPT_PUSH = 0 \/ Z.land (enabled_opts g1) OPT_PULL = 0 <->
   given PUSH (cl_opts cl) && given PULL (cl_opts cl) = false).
Proof.
  intros Hwf Hscan.
  pose proof (scan_flag_bits cl g1 PUSH Hwf ltac:(simpl; tauto) Hscan) as Bpush.
  pose proof (scan_flag_bits cl g1 PULL Hwf ltac:(simpl; tauto) Hscan) as Bpull.
  change (opt_key_to_code PUSH) with OPT_PUSH in Bpush.
  change (opt_key_to_code PULL) with OPT_PULL in Bpull.
  rewrite Bpush, Bpull.
  pose proof (single_bit_nonzero _ push_single) as Hnpush.
  pose proof (single_bit_nonzero _ pull_single) as Hnpull.
  destruct (given PUSH (cl_opts cl)), (given PULL (cl_opts cl)); cbn [andb];
    split; intros H; try tauto; try reflexivity; try discriminate.
Qed.

(** The network and the distribution model of the returned word. *)
Lemma returned_network_and_model (cl : cmdline) (g : globals) (o : Z) :
  wf_cmdline cl -> parseArgs cl initial_globals = Returns (o, g) ->
  Z.land o OPT_COBO = OPT_COBO /\
  Z.land o all_pushpull_opts
  = (if given PULL (cl_opts cl) then OPT_PULL else OPT_PUSH).
Proof.
  intros Hwf Hrun.
  destruct (parseArgs_fields cl _ g o Hwf Hrun)
    as (g1 & Hscan & _ & _ & Hone & Ho & _).
  destruct initial_globals_invariants as [Hi1 Hi2].
  destruct (initial_scan_invariants cl _ g1 Hwf Hi1 Hi2 Hscan) as [Ho1 Hs1].
  destruct cobo_override_disjoint as (C1 & C2 & C3).
  destruct pushpull_override_disjoint as (P1 & P2 & P3).
  pose proof (single_bit_nonzero _ push_single) as Hnpush.
  pose proof (single_bit_nonzero _ pull_single) as Hnpull.
  pose proof push_pull_disjoint as Hpp.
  assert (Hbit : forall kf, In kf [PUSH; PULL; PRELOAD] ->
             (Z.land (enabled_opts g1) (opt_key_to_code kf) = opt_key_to_code kf <->
              given kf (cl_opts cl) = true)).
  { intros kf Hkf.
    rewrite (parse_options_bit kf _ _ Hkf (set_done false initial_globals) g1
               Hwf eq_refl Hscan), given_In.
    change (enabled_opts (set_done false initial_globals)) with 0.
    rewrite Z.land_0_l. split; [|tauto]. intros [E | E]; [|exact E].
    exfalso. simpl in Hkf.
    destruct Hkf as [<- | [<- | [<- | []]]]; symmetry in E;
      [apply Hnpush | apply Hnpull
      | apply (single_bit_nonzero _ preload_single)]; exact E. }
  pose proof (Hbit PUSH ltac:(simpl; tauto)) as Bpush.
  pose proof (Hbit PULL ltac:(simpl; tauto)) as Bpull.
  change (opt_key_to_code PUSH) with OPT_PUSH in Bpush.
  change (opt_key_to_code PULL) with OPT_PULL in Bpull.
  clear Hbit. rewrite Ho. split.
  - rewrite (debug_override_other _ _ C1 C2 C3).
    unfold resolved, default_network_opts. bitwise.
  - rewrite (debug_override_other _ _ P1 P2 P3), (resolved_pushpull _ Ho1 Hs1).
    change (enabled_opts (captured cl g1)) with (enabled_opts g1).
    unfold pushpull_choice, all_pushpull_opts, default_pushpull_opts.
    destruct (given PULL (cl_opts cl)).
    + assert (E : Z.land (enabled_opts g1) OPT_PULL = OPT_PULL) by (apply Bpull; reflexivity).
      destruct Hone as [H0 | H0]; [|rewrite H0 in E; symmetry in E; contradiction].
      assert (E2 : Z.land (enabled_opts g1) (Z.lor OPT_PUSH OPT_PULL) = OPT_PULL).
      { clear - E H0. bitwise. }
      rewrite E2. apply Z.eqb_neq in Hnpull. rewrite Hnpull. reflexivity.
    + destruct (land_single_bit_cases (enabled_opts g1) _ pull_single) as [E | E];
        [|apply Bpull in E; discriminate].
      destruct (land_single_bit_cases (enabled_opts g1) _ push_single) as [E1 | E1].
      * assert (E2 : Z.land (enabled_opts g1) (Z.lor OPT_PUSH OPT_PULL) = 0).
        { clear - E E1. bitwise. }
        rewrite E2. reflexivity.
      * assert (E2 : Z.land (enabled_opts g1) (Z.lor OPT_PUSH OPT_PULL) = OPT_PUSH).
        { clear - E E1. bitwise. }
        rewrite E2. apply Z.eqb_neq in Hnpush. rewrite Hnpush. reflexivity.
Qed.

(** X10.  The returned word always holds the cobo bit, with or without
    the cobo option, and exactly one distribution model: pull when pull
    was given, push otherwise; push and pull are never both given in a run
    that returns. *)
Theorem X10_network_and_model (cl : cmdline) (g : globals) (o : Z) :
  wf_cmdline cl -> parseArgs cl initial_globals = Returns (o, g) ->
  Z.land o OPT_COBO = OPT_COBO /\
  Z.land o all_pushpull_opts
  = (if given PULL (cl_opts cl) then OPT_PULL else OPT_PUSH) /\
  given PUSH (cl_opts cl) && given PULL (cl_opts cl) = false.
Proof.
  intros Hwf Hrun.
  destruct (returned_network_and_model cl g o Hwf Hrun) as [Hc Hp].
  split; [exact Hc|]. split; [exact Hp|].
  destruct (parseArgs_fields cl _ g o Hwf Hrun) as (g1 & Hscan & _ & _ & Hone & _).
  apply (scan_push_pull cl g1 Hwf Hscan), Hone.
Qed.

(** ** How a run can end *)








(** ** The security model of the returned configuration *)

Lemma last_sec_key_compiled (toks : list (Z * option string)) (k : Z) :
  last_sec_key toks = Some k -> compiled_sec_key k.
Proof.
  induction toks as [|[k1 a1] toks IH]; simpl; [discriminate|].
  destruct (last_sec_key toks) as [k'|].
  - intros [= <-]. apply IH. reflexivity.
  - destruct (is_sec_key k1) eqn:E; [|discriminate].
    intros [= <-]. apply is_sec_key_spec, E.
Qed.

Lemma ldiff_fold_lor (l : list Z) (f : Z) :
  In f l -> Z.ldiff f (fold_right Z.lor 0 l) = 0.
Proof.
  induction l as [|a l IH]; simpl; [contradiction|].
  intros [-> | H].
  - bitwise.
  - specialize (IH H). bitwise.
Qed.

Lemma land_fold_lor (l : list Z) (s : Z) :
  Forall (disjoint s) l -> Z.land s (fold_right Z.lor 0 l) = 0.
Proof.
  induction 1 as [|a l Ha _ IH]; simpl; [apply Z.land_0_r|]. bitwise.
Qed.

Lemma flag_within_all (f : Z) : In f feature_flags -> Z.ldiff f all_flags = 0.
Proof. apply ldiff_fold_lor. Qed.

Lemma ldiff_lor_within (a b F : Z) :
  Z.ldiff a F = 0 -> Z.ldiff b F = 0 -> Z.ldiff (Z.lor a b) F = 0.
Proof. intros Ha Hb. bitwise. Qed.

Lemma ldiff_land_within (a b F : Z) :
  Z.ldiff a F = 0 -> Z.ldiff (Z.land a b) F = 0.
Proof. intros Ha. bitwise. Qed.

Lemma ldiff_within_trans (a G F : Z) :
  Z.ldiff a G = 0 -> Z.ldiff G F = 0 -> Z.ldiff a F = 0.
Proof. intros Ha HG. bitwise. Qed.

Lemma groups_within_all :
  Z.ldiff all_reloc_opts all_flags = 0 /\ Z.ldiff all_misc_opts all_flags = 0 /\
  Z.ldiff all_pushpull_opts all_flags = 0 /\
  Z.ldiff (Z.lor OPT_NOMPI OPT_NOHIDE) all_flags = 0.
Proof.
  unfold all_reloc_opts, all_misc_opts, all_pushpull_opts.
  repeat split; repeat apply ldiff_lor_within; apply flag_within_all; flag_in.
Qed.

(** The word finalize leaves is made of feature bits and the security
    field. *)
Lemma resolved_within (g : globals) :
  Z.ldiff (opts g) (Z.lor OPT_NOMPI OPT_NOHIDE) = 0 -> sec_model_ok g ->
  Z.ldiff (resolved g) all_flags = Z.shiftl (chosen_sec g) OPT_SEC_SHIFT /\
  Z.land (Z.shiftl (chosen_sec g) OPT_SEC_SHIFT) all_flags = 0.
Proof.
  intros Ho Hs.
  destruct groups_within_all as (F1 & F2 & F3 & F5).
  pose proof (flag_within_all OPT_COBO ltac:(flag_in)) as F4.
  assert (F0 : Z.land (Z.shiftl (chosen_sec g) OPT_SEC_SHIFT) all_flags = 0).
  { apply land_fold_lor.
    pose proof (sec_field_disjoint Hok) as H. rewrite Forall_forall in H.
    apply H, chosen_sec_model, Hs. }
  split; [|exact F0].
  assert (H1 : Z.ldiff (opts g) all_flags = 0)
    by (apply (ldiff_within_trans _ _ _ Ho F5)).
  assert (H2 : Z.ldiff (pushpull_choice (enabled_opts g)) all_flags = 0)
    by (apply (ldiff_within_trans _ _ _ (pushpull_choice_within _) F3)).
  assert (H3 : Z.ldiff (reloc_part (enabled_opts g) (disabled_opts g)) all_flags = 0).
  { unfold reloc_part. do 2 apply ldiff_land_within. exact F1. }
  assert (H4 : Z.ldiff (misc_part (enabled_opts g) (disabled_opts g)) all_flags = 0).
  { unfold misc_part. do 2 apply ldiff_land_within. exact F2. }
  unfold resolved, default_network_opts.
  set (s := Z.shiftl (chosen_sec g) OPT_SEC_SHIFT) in *.
  set (o0 := opts g) in *. set (pp := pushpull_choice (enabled_opts g)) in *.
  set (rp := reloc_part (enabled_opts g) (disabled_opts g)) in *.
  set (mp := misc_part (enabled_opts g) (disabled_opts g)) in *.
  clearbody s o0 pp rp mp. clear - F0 F4 H1 H2 H3 H4. bitwise.
Qed.

Lemma debug_override_within (o : Z) :
  Z.ldiff (debug_override o) all_flags = Z.ldiff o all_flags.
Proof.
  pose proof (flag_within_all OPT_RELOCAOUT ltac:(flag_in)) as F1.
  pose proof (flag_within_all OPT_RELOCEXEC ltac:(flag_in)) as F2.
  pose proof (flag_within_all OPT_REMAPEXEC ltac:(flag_in)) as F3.
  unfold debug_override.
  destruct (negb (Z.land o OPT_DEBUG =? 0)); [|reflexivity].
  clear - F1 F2 F3. bitwise.
Qed.

(** The security model and the security field of the returned word. *)
Lemma returned_security_field (cl : cmdline) (g : globals) (o : Z) :
  wf_cmdline cl -> parseArgs cl initial_globals = Returns (o, g) ->
  sec_model g = selected_model (cl_opts cl) /\
  Z.ldiff o all_flags = Z.shiftl (selected_model (cl_opts cl)) OPT_SEC_SHIFT.
Proof.
  intros Hwf Hrun.
  destruct (parseArgs_fields cl _ g o Hwf Hrun)
    as (g1 & Hscan & _ & _ & _ & Ho & _ & Hsec & _).
  destruct initial_globals_invariants as [Hi1 Hi2].
  destruct (initial_scan_invariants cl _ g1 Hwf Hi1 Hi2 Hscan) as [Ho1 Hs1].
  destruct (resolved_within _ Ho1 Hs1) as [W1 _].
  change (chosen_sec (captured cl g1)) with (chosen_sec g1) in W1.
  pose proof (parse_options_last_sec _ _ (set_done false initial_globals) g1 Hwf
                eq_refl Hscan) as Hlast.
  change (sec_model (set_done false initial_globals)) with (-1) in Hlast.
  assert (Hsel : chosen_sec g1 = selected_model (cl_opts cl)).
  { unfold chosen_sec, selected_model. rewrite Hlast.
    destruct (last_sec_key (cl_opts cl)) as [k|] eqn:E; [|reflexivity].
    apply last_sec_key_compiled, compiled_sec_key_range in E.
    destruct (Z.eqb_spec (k - 256) (-1)); [lia | reflexivity]. }
  rewrite Hsec, Ho, debug_override_within, W1, Hsel. split; reflexivity.
Qed.

(** X12.  The security model of the returned configuration is the model of
    the security option given last, and the compiled default when no such
    option was given; it is a model of [spindle_launch.h], and the returned
    word is made of feature bits and of the security field, which holds
    exactly that model. *)
Theorem X12_security_model (cl : cmdline) (g : globals) (o : Z) :
  wf_cmdline cl -> parseArgs cl initial_globals = Returns (o, g) ->
  sec_model g = match last_sec_key (cl_opts cl) with
                | Some k => k - 256
                | None => DEFAULT_SEC
                end /\
  In (sec_model g) sec_models /\
  Z.ldiff o all_flags = Z.shiftl (sec_model g) OPT_SEC_SHIFT /\
  Z.land (Z.shiftl (sec_model g) OPT_SEC_SHIFT) all_flags = 0.
Proof.
  intros Hwf Hrun.
  destruct (parseArgs_fields cl _ g o Hwf Hrun)
    as (g1 & Hscan & _ & _ & _ & Ho & _ & Hsec & _).
  destruct initial_globals_invariants as [Hi1 Hi2].
  destruct (initial_scan_invariants cl _ g1 Hwf Hi1 Hi2 Hscan) as [Ho1 Hs1].
  pose proof (chosen_sec_model _ Hs1) as Hin.
  destruct (resolved_within _ Ho1 Hs1) as [W1 W2].
  change (chosen_sec (captured cl g1)) with (chosen_sec g1) in Hin, W1, W2.
  pose proof (parse_options_last_sec _ _ (set_done false initial_globals) g1 Hwf
                eq_refl Hscan) as Hlast.
  change (sec_model (set_done false initial_globals)) with (-1) in Hlast.
  rewrite Hsec. split; [|split; [exact Hin|split; [|exact W2]]].
  - unfold chosen_sec. rewrite Hlast.
    destruct (last_sec_key (cl_opts cl)) as [k|] eqn:E; [|reflexivity].
    apply last_sec_key_compiled, compiled_sec_key_range in E.
    destruct (Z.eqb_spec (k - 256) (-1)); [lia | reflexivity].
  - rewrite Ho, debug_override_within. exact W1.
Qed.

(** ** The command lines that are accepted *)

Lemma yesno_keys_existsb (k : Z) :
  existsb (Z.eqb k) yesno_keys = true <-> In k yesno_keys.
Proof.
  rewrite existsb_exists. split.
  - intros (x & Hin & E). apply Z.eqb_eq in E. subst x. exact Hin.
  - intros H. exists k. split; [exact H | apply Z.eqb_refl].
Qed.

Lemma arg_accepted_yesno (k : Z) (a : option string) :
  In k yesno_keys ->
  arg_accepted (k, a) = match a with
                        | Some s => is_yes s || is_no s
                        | None => false
                        end.
Proof.
  intros Hk. unfold arg_accepted. cbn [fst snd].
  rewrite (proj2 (yesno_keys_existsb k) Hk). reflexivity.
Qed.

Lemma arg_accepted_other (k : Z) (a : option string) :
  ~ In k yesno_keys -> k <> PORT -> k <> LOCATION -> arg_accepted (k, a) = true.
Proof.
  intros Hk Hp Hl. unfold arg_accepted. cbn [fst snd].
  destruct (existsb (Z.eqb k) yesno_keys) eqn:E;
    [apply yesno_keys_existsb in E; contradiction|].
  apply Z.eqb_neq in Hp, Hl. rewrite Hp, Hl. reflexivity.
Qed.

(** An option makes the parser return exactly when its argument is one
    the parser takes. *)
Lemma parse_accepts (k : Z) (a : option string) (st : argp_state) (g : globals) :
  done g = false -> is_option_key k = true ->
  ((exists r, parse k a st g = Returns r) <-> arg_accepted (k, a) = true).
Proof.
  intros Hd Hk.
  destruct (option_key_classes k Hk) as [Hc | Hc].
  - unfold char_keys in Hc. apply in_app_or in Hc. destruct Hc as [Hy | Hc].
    + rewrite (arg_accepted_yesno k a Hy). destruct a as [s|].
      * rewrite parse_yesno by assumption. fold (is_yes s). fold (is_no s).
        destruct (is_yes s); [split; [reflexivity | eexists; reflexivity]|].
        destruct (is_no s); [split; [reflexivity | eexists; reflexivity]|].
        split; [intros (r & H); discriminate | discriminate].
      * rewrite parse_yesno_NULL by assumption.
        split; [intros (r & H); discriminate | discriminate].
    + simpl in Hc.
      destruct Hc as [<- | [<- | [<- | [<- | [<- | [<- | [<- | [<- | [<- | [<- | []]]]]]]]]]].
      * rewrite parse_flag by (assumption || (simpl; tauto)).
        split; [reflexivity | eexists; reflexivity].
      * rewrite parse_flag by (assumption || (simpl; tauto)).
        split; [reflexivity | eexists; reflexivity].
      * rewrite parse_flag by (assumption || (simpl; tauto)).
        split; [reflexivity | eexists; reflexivity].
      * rewrite parse_PRELOAD by assumption.
        split; [reflexivity | eexists; reflexivity].
      * destruct a as [s|].
        -- rewrite parse_PORT by assumption.
           change (arg_accepted (PORT, Some s))
             with (negb (to_uint (atoi s) =? 0)).
           destruct (to_uint (atoi s) =? 0);
             [split; [intros (r & H); discriminate | discriminate]
             | split; [reflexivity | eexists; reflexivity]].
        -- rewrite parse_PORT_NULL by assumption.
           split; [intros (r & H); discriminate | discriminate].
      * destruct a as [s|].
        -- rewrite parse_LOCATION by assumption.
           split; [reflexivity | eexists; reflexivity].
        -- rewrite parse_LOCATION_NULL by assumption.
           split; [intros (r & H); discriminate | discriminate].
      * rewrite parse_DISABLE_LOGGING by assumption.
        split; [reflexivity | eexists; reflexivity].
      * rewrite parse_NOMPI by assumption.
        split; [reflexivity | eexists; reflexivity].
      * rewrite parse_HIDE by assumption.
        split; [reflexivity | eexists; reflexivity].
      * rewrite parse_PYTHONPREFIX by assumption.
        split; [reflexivity | eexists; reflexivity].
  - rewrite parse_sec by assumption.
    pose proof (compiled_sec_key_range k Hc) as Hr.
    rewrite arg_accepted_other.
    + split; [reflexivity | eexists; reflexivity].
    + unfold yesno_keys. simpl. key_nums. lia.
    + key_nums. lia.
    + key_nums. lia.
Qed.

(** The scan returns exactly when every option has an argument the parser
    takes. *)
Lemma parse_options_accepts (st : argp_state) (toks : list (Z * option string)) :
  forall g,
    wf_opts toks -> done g = false ->
    ((exists g', parse_options st toks g = Returns g') <->
     forallb arg_accepted toks = true).
Proof.
  induction toks as [|[k a] toks IH]; intros g Hwf Hd.
  - split; [reflexivity | exists g; reflexivity].
  - apply wf_opts_cons in Hwf as [Hk Hwf]. simpl in Hk.
    cbn [parse_options forallb]. rewrite andb_true_iff.
    rewrite <- (parse_accepts k a st g Hd Hk).
    destruct (parse k a st g) as [[c g1] | | |] eqn:Hp; cbn [bind fst snd].
    + destruct (parse_step k a st g g1 c Hd Hk Hp) as (-> & Hd1 & _).
      change (0 =? 0) with true. cbv iota.
      rewrite (IH g1 Hwf Hd1). split; [|tauto].
      intros H. split; [eexists; reflexivity | exact H].
    + split; [intros (g' & H); discriminate | intros [(r & H) _]; discriminate].
    + split; [intros (g' & H); discriminate | intros [(r & H) _]; discriminate].
    + split; [intros (g' & H); discriminate | intros [(r & H) _]; discriminate].
Qed.

Lemma yesno_code_within (k : Z) :
  In k yesno_keys ->
  Z.ldiff (opt_key_to_code k) (fold_right Z.lor 0 (map opt_key_to_code yesno_keys)) = 0.
Proof. intros Hk. apply ldiff_fold_lor, in_map, Hk. Qed.

(** Only yes/no options get into the disabled set. *)
Lemma parse_options_disabled_within (st : argp_state)
  (toks : list (Z * option string)) :
  forall g g',
    wf_opts toks -> done g = false ->
    parse_options st toks g = Returns g' ->
    Z.ldiff (disabled_opts g)
            (fold_right Z.lor 0 (map opt_key_to_code yesno_keys)) = 0 ->
    Z.ldiff (disabled_opts g')
            (fold_right Z.lor 0 (map opt_key_to_code yesno_keys)) = 0.
Proof.
  induction toks as [|[k a] toks IH]; intros g g' Hwf Hd Hrun Hin.
  - injection Hrun as <-. exact Hin.
  - apply wf_opts_cons in Hwf as [Hk Hwf]. simpl in Hk, Hrun.
    destruct (parse k a st g) as [[c g1] | | |] eqn:Hp; simpl in Hrun;
      try discriminate.
    destruct (parse_step k a st g g1 c Hd Hk Hp) as (-> & Hd1 & _).
    simpl in Hrun. apply (IH g1 g' Hwf Hd1 Hrun).
    destruct (parse_step_sets k a st g g1 0 Hd Hk Hp)
      as [(_ & -> & _) | [(_ & -> & _) | (_ & -> & Hy & _)]]; try exact Hin.
    apply ldiff_lor_within; [exact Hin | apply yesno_code_within, Hy].
Qed.

Lemma within_fold_zero (l : list Z) (x : Z) :
  Z.ldiff x (fold_right Z.lor 0 l) = 0 ->
  (forall c, In c l -> Z.land x c = 0) -> x = 0.
Proof.
  induction l as [|a l IH]; simpl; intros Hx Hall.
  - rewrite Z.ldiff_0_r in Hx. exact Hx.
  - apply IH.
    + pose proof (Hall a (or_introl eq_refl)) as Ha. clear - Hx Ha. bitwise.
    + intros c Hc. apply Hall. right. exact Hc.
Qed.

(** The enabled and the disabled set meet exactly when some yes/no option
    was given both ways. *)
Lemma scan_conflict (cl : cmdline) (g1 : globals) :
  wf_cmdline cl ->
  parse_options (scan_state cl) (cl_opts cl) (set_done false initial_globals)
  = Returns g1 ->
  (Z.land (enabled_opts g1) (disabled_opts g1) = 0 <->
   conflicting (cl_opts cl) = false).
Proof.
  intros Hwf Hscan. split.
  - intros H0. unfold conflicting.
    destruct (existsb _ yesno_keys) eqn:E; [exfalso | reflexivity].
    apply existsb_exists in E as (k & Hk & Hb).
    apply andb_true_iff in Hb as [Hy Hn].
    destruct (given_yes_no_bits cl g1 k Hwf Hk Hscan) as [Ey En].
    rewrite Hy in Ey. rewrite Hn in En.
    apply (single_bit_nonzero _ (yesno_code_single_bit k Hk)).
    clear - H0 Ey En. bitwise.
  - intros Hc. apply (within_fold_zero (map opt_key_to_code yesno_keys)).
    + assert (Hd : Z.ldiff (disabled_opts g1)
                     (fold_right Z.lor 0 (map opt_key_to_code yesno_keys)) = 0).
      { apply (parse_options_disabled_within _ _ (set_done false initial_globals)
                 g1 Hwf eq_refl Hscan). reflexivity. }
      clear - Hd. bitwise.
    + intros c Hin. apply in_map_iff in Hin as (k & <- & Hk).
      destruct (given_yes_no_bits cl g1 k Hwf Hk Hscan) as [Ey En].
      unfold conflicting in Hc.
      assert (Hb : given_yes k (cl_opts cl) && given_no k (cl_opts cl) = false).
      { destruct (given_yes k (cl_opts cl) && given_no k (cl_opts cl)) eqn:E;
          [|reflexivity].
        rewrite <- Hc. symmetry. apply existsb_exists. exists k. tauto. }
      destruct (given_yes k (cl_opts cl)); [|clear - Ey; bitwise].
      destruct (given_no k (cl_opts cl)); [discriminate|]. clear - En. bitwise.
Qed.

(** [parseArgs] returns only on an accepted command line. *)
Lemma parseArgs_returns_accepted (cl : cmdline) (r : Z * globals) :
  wf_cmdline cl -> parseArgs cl initial_globals = Returns r -> accepted cl = true.
Proof.
  intros Hwf Hrun. destruct r as [o g].
  unfold accepted. rewrite !andb_true_iff, !negb_true_iff.
  destruct (parseArgs_fields cl _ g o Hwf Hrun)
    as (g1 & Hscan & Hcmd & Hc & Hone & _).
  repeat split.
  - apply (parse_options_accepts (scan_state cl) _ (set_done false initial_globals)
             Hwf eq_refl).
    exists g1. exact Hscan.
  - apply (scan_conflict cl g1 Hwf Hscan), Hc.
  - apply (scan_push_pull cl g1 Hwf Hscan), Hone.
  - destruct (cl_cmd cl); [contradiction Hcmd; reflexivity | reflexivity].
Qed.

(** [parseArgs] returns on every accepted command line. *)
Lemma parseArgs_accepted_returns (cl : cmdline) :
  wf_cmdline cl -> accepted cl = true ->
  exists r, parseArgs cl initial_globals = Returns r.
Proof.
  intros Hwf. unfold accepted. rewrite !andb_true_iff, !negb_true_iff.
  intros [[[Hargs Hconf] Hpp] Hcmd].
  apply (parse_options_accepts (scan_state cl) _ (set_done false initial_globals)
           Hwf eq_refl) in Hargs as (g1 & Hscan).
  rewrite parseArgs_eq, Hscan by assumption. cbn [bind].
  destruct (cl_cmd cl) as [|w ws] eqn:Ecmd; [discriminate|].
  rewrite finalize_returns.
  - cbn [bind]. eexists. reflexivity.
  - apply (scan_conflict cl g1 Hwf Hscan), Hconf.
  - apply (scan_push_pull cl g1 Hwf Hscan), Hpp.
Qed.


(** ** The returned word as a function of the command line *)

Lemma returned_preload_bit (cl : cmdline) (g : globals) (o : Z) :
  wf_cmdline cl -> parseArgs cl initial_globals = Returns (o, g) ->
  Z.land o OPT_PRELOAD = if given PRELOAD (cl_opts cl) then OPT_PRELOAD else 0.
Proof.
  intros Hwf Hrun.
  destruct preload_facts as (P1 & P2 & P3 & P4 & P5).
  destruct (parseArgs_fields cl _ g o Hwf Hrun) as (g1 & Hscan & _ & _ & _ & -> & _).
  destruct initial_globals_invariants as [Ho Hs].
  destruct (initial_scan_invariants cl _ g1 Hwf Ho Hs Hscan) as [Ho1 Hs1].
  rewrite (debug_override_other _ _ P3 P4 P5).
  destruct (resolved_bundles _ Ho1 Hs1) as [_ Hm].
  pose proof (parse_options_disabled_PRELOAD _ _ (set_done false initial_globals)
                g1 Hwf eq_refl Hscan eq_refl) as Hdis.
  pose proof (scan_flag_bits cl g1 PRELOAD Hwf ltac:(simpl; tauto) Hscan) as Hbit.
  rewrite opt_key_to_code_PRELOAD in Hbit.
  change (enabled_opts (captured cl g1)) with (enabled_opts g1) in Hm.
  change (disabled_opts (captured cl g1)) with (disabled_opts g1) in Hm.
  rewrite <- Hbit.
  set (w := resolved (captured cl g1)) in *.
  set (e := enabled_opts g1) in *. set (d := disabled_opts g1) in *.
  clearbody w e d. clear - P1 P2 Hm Hdis. bitwise.
Qed.

(** Every feature bit of the returned word is what the command line
    decides for it. *)
Lemma returned_flag_bits (cl : cmdline) (g : globals) (o : Z) :
  wf_cmdline cl -> parseArgs cl initial_globals = Returns (o, g) ->
  Forall (fun fb : Z * bool => Z.land o (fst fb) = if snd fb then fst fb else 0)
         (flag_bits (cl_opts cl)).
Proof.
  intros Hwf Hrun.
  destruct (returned_nompi_nohide cl g o Hwf Hrun) as (_ & _ & Hnm & Hnh).
  destruct (returned_debug_bits cl g o Hwf Hrun) as (Hset & _ & _ & Hrm).
  destruct (returned_network_and_model cl g o Hwf Hrun) as (Hcobo & Hpp).
  pose proof (returned_preload_bit cl g o Hwf Hrun) as Hpre.
  assert (Hk : forall k, In k yesno_keys ->
             Z.land o (opt_key_to_code k)
             = if yesno_setting k (cl_opts cl) &&
                  negb (debug_hides k && yesno_setting DEBUG (cl_opts cl))
               then opt_key_to_code k else 0)
    by (intros k Hin; apply (returned_yesno_bit cl g o k Hwf Hrun Hin)).
  pose proof (Hk DEBUG ltac:(unfold yesno_keys; simpl; tauto)) as Kdebug.
  pose proof (Hk FOLLOWFORK ltac:(unfold yesno_keys; simpl; tauto)) as Kfork.
  pose proof (Hk RELOCAOUT ltac:(unfold yesno_keys; simpl; tauto)) as Kaout.
  pose proof (Hk RELOCSO ltac:(unfold yesno_keys; simpl; tauto)) as Kso.
  pose proof (Hk RELOCEXEC ltac:(unfold yesno_keys; simpl; tauto)) as Kexec.
  pose proof (Hk RELOCPY ltac:(unfold yesno_keys; simpl; tauto)) as Kpy.
  pose proof (Hk STRIP ltac:(unfold yesno_keys; simpl; tauto)) as Kstrip.
  pose proof (Hk NOCLEAN ltac:(unfold yesno_keys; simpl; tauto)) as Kclean.
  clear Hk.
  change (opt_key_to_code DEBUG) with OPT_DEBUG in Kdebug.
  change (opt_key_to_code FOLLOWFORK) with OPT_FOLLOWFORK in Kfork.
  change (opt_key_to_code RELOCAOUT) with OPT_RELOCAOUT in Kaout.
  change (opt_key_to_code RELOCSO) with OPT_RELOCSO in Kso.
  change (opt_key_to_code RELOCEXEC) with OPT_RELOCEXEC in Kexec.
  change (opt_key_to_code RELOCPY) with OPT_RELOCPY in Kpy.
  change (opt_key_to_code STRIP) with OPT_STRIP in Kstrip.
  change (opt_key_to_code NOCLEAN) with OPT_NOCLEAN in Kclean.
  change (debug_hides DEBUG) with false in Kdebug.
  change (debug_hides FOLLOWFORK) with false in Kfork.
  change (debug_hides RELOCAOUT) with true in Kaout.
  change (debug_hides RELOCSO) with false in Kso.
  change (debug_hides RELOCEXEC) with true in Kexec.
  change (debug_hides RELOCPY) with false in Kpy.
  change (debug_hides STRIP) with false in Kstrip.
  change (debug_hides NOCLEAN) with false in Kclean.
  cbn [andb negb] in Kdebug, Kfork, Kaout, Kso, Kexec, Kpy, Kstrip, Kclean.
  rewrite andb_true_r in Kdebug, Kfork, Kso, Kpy, Kstrip, Kclean.
  rewrite <- Hset in Hrm.
  assert (Hpush : Z.land o OPT_PUSH
                  = if negb (given PULL (cl_opts cl)) then OPT_PUSH else 0).
  { pose proof push_pull_disjoint as D. unfold all_pushpull_opts in Hpp.
    destruct (given PULL (cl_opts cl)); cbn [negb]; clear - Hpp D; bitwise. }
  assert (Hpull : Z.land o OPT_PULL
                  = if given PULL (cl_opts cl) then OPT_PULL else 0).
  { pose proof push_pull_disjoint as D. unfold all_pushpull_opts in Hpp.
    destruct (given PULL (cl_opts cl)); clear - Hpp D; bitwise. }
  unfold flag_bits.
  repeat (apply Forall_cons; [cbn [fst snd]|]); [..|apply Forall_nil].
  - exact Hcobo.
  - exact Kdebug.
  - exact Kfork.
  - exact Hpre.
  - exact Hpush.
  - exact Hpull.
  - exact Kaout.
  - exact Kso.
  - exact Kexec.
  - exact Kpy.
  - exact Kstrip.
  - exact Kclean.
  - exact Hnh.
  - exact Hnm.
  - exact Hrm.
Qed.

Lemma flag_part (o : Z) (l : list (Z * bool)) :
  Forall (fun fb : Z * bool => Z.land o (fst fb) = if snd fb then fst fb else 0) l ->
  Z.land o (fold_right Z.lor 0 (map fst l))
  = fold_right (fun (fb : Z * bool) acc => Z.lor (if snd fb then fst fb else 0) acc) 0 l.
Proof.
  induction 1 as [|fb l Hfb _ IH]; simpl; [apply Z.land_0_r|].
  rewrite Z.land_lor_distr_r, Hfb, IH. reflexivity.
Qed.

Lemma land_ldiff_split (o F : Z) : o = Z.lor (Z.land o F) (Z.ldiff o F).
Proof. bitwise. Qed.

(** The feature bits of the returned word, by the command line. *)
Lemma returned_flag_part (cl : cmdline) (g : globals) (o : Z) :
  wf_cmdline cl -> parseArgs cl initial_globals = Returns (o, g) ->
  Z.land o all_flags
  = fold_right (fun (fb : Z * bool) acc => Z.lor (if snd fb then fst fb else 0) acc) 0
               (flag_bits (cl_opts cl)).
Proof.
  intros Hwf Hrun.
  exact (flag_part o _ (returned_flag_bits cl g o Hwf Hrun)).
Qed.

(** X20.  The word [parseArgs] returns is a function of the options given:
    the feature bits the command line decides, one by one, together with
    the selected security model in the security field. *)
Theorem X20_option_word (cl : cmdline) (g : globals) (o : Z) :
  wf_cmdline cl -> parseArgs cl initial_globals = Returns (o, g) ->
  o = option_word (cl_opts cl).
Proof.
  intros Hwf Hrun.
  pose proof (returned_flag_part cl g o Hwf Hrun) as Hf.
  destruct (returned_security_field cl g o Hwf Hrun) as [_ Hs].
  rewrite (land_ldiff_split o all_flags) at 1.
  unfold option_word. rewrite Hf, Hs. reflexivity.
Qed.

(** ** The order of the options *)

Lemma existsb_perm (A : Type) (f : A -> bool) (l l' : list A) :
  Permutation l l' -> existsb f l = existsb f l'.
Proof.
  induction 1 as [|x l l' _ IH|x y l|l l' l'' _ IH1 _ IH2]; simpl.
  - reflexivity.
  - rewrite IH. reflexivity.
  - destruct (f x), (f y); reflexivity.
  - rewrite IH1. exact IH2.
Qed.

Lemma forallb_perm (A : Type) (f : A -> bool) (l l' : list A) :
  Permutation l l' -> forallb f l = forallb f l'.
Proof.
  induction 1 as [|x l l' _ IH|x y l|l l' l'' _ IH1 _ IH2]; simpl.
  - reflexivity.
  - rewrite IH. reflexivity.
  - destruct (f x), (f y); reflexivity.
  - rewrite IH1. exact IH2.
Qed.

Lemma existsb_same (A : Type) (f h : A -> bool) (l : list A) :
  (forall x, f x = h x) -> existsb f l = existsb h l.
Proof.
  intros E. induction l as [|x l IH]; simpl; [reflexivity|].
  rewrite E, IH. reflexivity.
Qed.

Lemma yesno_setting_perm (k : Z) (toks toks' : list (Z * option string)) :
  Permutation toks toks' -> yesno_setting k toks = yesno_setting k toks'.
Proof.
  intros HP. unfold yesno_setting, given_yes, given_no.
  rewrite !(existsb_perm _ _ _ _ HP). reflexivity.
Qed.

Lemma flag_bits_perm (toks toks' : list (Z * option string)) :
  Permutation toks toks' -> flag_bits toks = flag_bits toks'.
Proof.
  intros HP. unfold flag_bits, given.
  rewrite !(existsb_perm _ _ _ _ HP).
  rewrite (yesno_setting_perm DEBUG _ _ HP), (yesno_setting_perm FOLLOWFORK _ _ HP),
    (yesno_setting_perm RELOCAOUT _ _ HP), (yesno_setting_perm RELOCSO _ _ HP),
    (yesno_setting_perm RELOCEXEC _ _ HP), (yesno_setting_perm RELOCPY _ _ HP),
    (yesno_setting_perm STRIP _ _ HP), (yesno_setting_perm NOCLEAN _ _ HP).
  reflexivity.
Qed.

Lemma accepted_perm (cl cl' : cmdline) :
  Permutation (cl_opts cl) (cl_opts cl') -> cl_cmd cl' <> [] ->
  accepted cl = true -> accepted cl' = true.
Proof.
  intros HP Hcmd. unfold accepted, conflicting, given, given_yes, given_no.
  rewrite (forallb_perm _ arg_accepted _ _ HP).
  rewrite !(existsb_perm _ (fun t => fst t =? _) _ _ HP).
  rewrite (existsb_same _ _
             (fun k =>
                existsb (fun t => (fst t =? k) &&
                                  match snd t with
                                  | Some a => is_yes a
                                  | None => false
                                  end) (cl_opts cl') &&
                existsb (fun t => (fst t =? k) &&
                                  match snd t with
                                  | Some a => is_no a
                                  | None => false
                                  end) (cl_opts cl')) yesno_keys)
    by (intros k; rewrite !(existsb_perm _ _ _ _ HP); reflexivity).
  rewrite !andb_true_iff. intros [H _]. split; [exact H|].
  destruct (cl_cmd cl'); [contradiction Hcmd; reflexivity | reflexivity].
Qed.

(** X21.  The order of the options matters only where the last one wins.
    When [parseArgs] returns on a command line, it returns on every command
    line with the same options in another order and a command, with the
    same feature bits and the same answers of [isMPIJob], [hideFDs] and
    [isLoggingEnabled]; and with the same word when the security option
    given last is the same. *)
Theorem X21_option_order (cl cl' : cmdline) (g : globals) (o : Z) :
  wf_cmdline cl -> Permutation (cl_opts cl) (cl_opts cl') -> cl_cmd cl' <> [] ->
  parseArgs cl initial_globals = Returns (o, g) ->
  exists o' g',
    parseArgs cl' initial_globals = Returns (o', g') /\
    Z.land o' all_flags = Z.land o all_flags /\
    isMPIJob g' = isMPIJob g /\ hideFDs g' = hideFDs g /\
    isLoggingEnabled g' = isLoggingEnabled g /\
    (last_sec_key (cl_opts cl') = last_sec_key (cl_opts cl) -> o' = o).
Proof.
  intros Hwf HP Hcmd Hrun.
  assert (Hwf' : wf_cmdline cl').
  { unfold wf_cmdline in *. rewrite <- (forallb_perm _ _ _ _ HP). exact Hwf. }
  assert (Hacc : accepted cl' = true).
  { apply (accepted_perm cl cl' HP Hcmd).
    exact (parseArgs_returns_accepted cl (o, g) Hwf Hrun). }
  apply (parseArgs_accepted_returns cl' Hwf') in Hacc as ([o' g'] & Hrun').
  exists o', g'. split; [exact Hrun'|].
  pose proof (returned_flag_part cl g o Hwf Hrun) as Ef.
  pose proof (returned_flag_part cl' g' o' Hwf' Hrun') as Ef'.
  destruct (returned_nompi_nohide cl g o Hwf Hrun) as (M1 & H1 & _).
  destruct (returned_nompi_nohide cl' g' o' Hwf' Hrun') as (M2 & H2 & _).
  assert (Hflags : Z.land o' all_flags = Z.land o all_flags)
    by (rewrite Ef, Ef', (flag_bits_perm _ _ HP); reflexivity).
  split; [|split; [|split; [|split]]].
  - exact Hflags.
  - rewrite M1, M2. unfold given. rewrite (existsb_perm _ _ _ _ HP). reflexivity.
  - rewrite H1, H2. unfold given. rewrite (existsb_perm _ _ _ _ HP). reflexivity.
  - destruct (parseArgs_fields cl _ g o Hwf Hrun)
      as (g1 & Hscan & _ & _ & _ & _ & _ & _ & _ & _ & _ & _ & _ & _ & Hl & _).
    destruct (parse_options_scalars _ _ (set_done false initial_globals) g1 Hwf
                eq_refl Hscan) as (_ & _ & _ & _ & Sl & _).
    destruct (parseArgs_fields cl' _ g' o' Hwf' Hrun')
      as (g1' & Hscan' & _ & _ & _ & _ & _ & _ & _ & _ & _ & _ & _ & _ & Hl' & _).
    destruct (parse_options_scalars _ _ (set_done false initial_globals) g1' Hwf'
                eq_refl Hscan') as (_ & _ & _ & _ & Sl' & _).
    unfold isLoggingEnabled. rewrite Hl, Hl', Sl, Sl'. unfold given.
    rewrite (existsb_perm _ _ _ _ HP). reflexivity.
  - intros Hsec.
    destruct (returned_security_field cl g o Hwf Hrun) as [_ Hs].
    destruct (returned_security_field cl' g' o' Hwf' Hrun') as [_ Hs'].
    rewrite (land_ldiff_split o all_flags), (land_ldiff_split o' all_flags).
    rewrite Hflags, Hs, Hs'. unfold selected_model. rewrite Hsec. reflexivity.
Qed.

(** ** The table of options *)

Lemma find_entry_own (body : list argp_option) (z e : argp_option) :
  Forall (fun x => o_key x <> 0) body -> NoDup (map o_key body) ->
  In e body -> find_entry (o_key e) (body ++ [z]) = e.
Proof.
  induction body as [|x r IH]; intros Hnz Hnd Hin; [contradiction|].
  inversion Hnz as [|? ? Hx Hr]; subst. simpl in Hnd.
  inversion Hnd as [|? ? Hnotin Hnd']; subst.
  simpl. destruct (Z.eqb_spec (o_key x) 0); [contradiction|].
  destruct Hin as [-> | Hin].
  - rewrite Z.eqb_refl. reflexivity.
  - destruct (Z.eqb_spec (o_key x) (o_key e)) as [E | _].
    + exfalso. apply Hnotin. rewrite E. apply in_map, Hin.
    + apply IH; assumption.
Qed.

Lemma find_entry_other (body : list argp_option) (k : Z) :
  Forall (fun x => o_key x <> 0) body -> ~ In k (map o_key body) ->
  find_entry k (body ++ [null_option]) = null_option.
Proof.
  induction body as [|x r IH]; intros Hnz Hk; [reflexivity|].
  inversion Hnz as [|? ? Hx Hr]; subst. simpl in Hk. simpl.
  destruct (Z.eqb_spec (o_key x) 0); [contradiction|].
  destruct (Z.eqb_spec (o_key x) k); [tauto|].
  apply IH; tauto.
Qed.

Lemma options_entries : options = (option_entries ++ [null_option])%list.
Proof.
  unfold option_entries, options.
  destruct MUNGE, SECLMON, KEYFILE, ENABLE_NULL_ENCRYPTION; reflexivity.
Qed.

Lemma option_entries_keys :
  Forall (fun x => o_key x <> 0) option_entries /\
  NoDup (map o_key option_entries).
Proof.
  sec_ranges. pose proof sec_models_neq as Hneq.
  unfold option_entries, options.
  destruct MUNGE, SECLMON, KEYFILE, ENABLE_NULL_ENCRYPTION;
    cbn [app removelast map o_key mk_option]; key_nums; split;
    first [ repeat (apply Forall_cons; [cbn [o_key mk_option]; lia|]);
            apply Forall_nil
          | repeat (apply NoDup_cons; [cbn [In o_key mk_option]; lia|]);
            apply NoDup_nil ].
Qed.

(** X22.  No two entries of the table share a key: the lookup loop of
    [parse] finds every entry under its own key, and ends at the closing
    entry for every key that is not an option's. *)
Theorem X22_table_lookup :
  NoDup (map o_key options) /\
  (forall e, In e options -> o_key e <> 0 -> find_entry (o_key e) options = e) /\
  (forall k, is_option_key k = false -> find_entry k options = null_option).
Proof.
  destruct option_entries_keys as [Hnz Hnd].
  assert (H0 : ~ In 0 (map o_key option_entries)).
  { intros H. apply in_map_iff in H as (x & E & Hin).
    rewrite Forall_forall in Hnz. exact (Hnz x Hin E). }
  split; [|split].
  - rewrite options_entries, map_app. apply NoDup_app.
    + exact Hnd.
    + repeat constructor. simpl. tauto.
    + intros a Ha [<- | []]. exact (H0 Ha).
  - intros e Hin Hk. rewrite options_entries in *.
    apply find_entry_own; try assumption.
    apply in_app_or in Hin. destruct Hin as [Hin | [<- | []]]; [exact Hin|].
    contradiction Hk. reflexivity.
  - intros k Hk. rewrite options_entries. apply find_entry_other; [exact Hnz|].
    unfold is_option_key in Hk. apply andb_false_iff in Hk.
    destruct Hk as [Hk | Hk].
    + apply negb_false_iff, Z.eqb_eq in Hk. subst k. exact H0.
    + intros Hin. apply in_map_iff in Hin as (x & E & Hin).
      assert (Hex : existsb (fun e => o_key e =? k) options = true).
      { apply existsb_exists. exists x. split; [|apply Z.eqb_eq, E].
        rewrite options_entries. apply in_or_app. left. exact Hin. }
      rewrite Hex in Hk. discriminate.
Qed.

(** ** Keys the parser does not know *)

Lemma find_not_option (k : Z) :
  is_option_key k = false -> find_entry k options = null_option.
Proof.
  intros Hk. destruct option_entries_keys as [Hnz _].
  rewrite options_entries. apply find_entry_other; [exact Hnz|].
  unfold is_option_key in Hk. apply andb_false_iff in Hk.
  destruct Hk as [Hk | Hk].
  - apply negb_false_iff, Z.eqb_eq in Hk. subst k.
    intros H. apply in_map_iff in H as (x & E & Hin).
    rewrite Forall_forall in Hnz. exact (Hnz x Hin E).
  - intros Hin. apply in_map_iff in Hin as (x & E & Hin).
    assert (Hex : existsb (fun e => o_key e =? k) options = true).
    { apply existsb_exists. exists x. split; [|apply Z.eqb_eq, E].
      rewrite options_entries. apply in_or_app. left. exact Hin. }
    rewrite Hex in Hk. discriminate.
Qed.

Lemma found_is_option (k : Z) :
  o_key (find_entry k options) = k -> k <> 0 -> is_option_key k = true.
Proof.
  intros Hkey Hk. unfold is_option_key. apply andb_true_iff. split.
  - apply negb_true_iff, Z.eqb_neq, Hk.
  - apply existsb_exists. exists (find_entry k options).
    split; [|apply Z.eqb_eq, Hkey].
    destruct (find_entry_In k options) as [H | H]; [exact H|].
    rewrite H in Hkey. simpl in Hkey. congruence.
Qed.

Lemma key_compared_is_option (k : Z) :
  In k [DISABLE_LOGGING; NOMPI; HIDE; PYTHONPREFIX] -> is_option_key k = true.
Proof.
  simpl. intros [<- | [<- | [<- | [<- | []]]]]; apply found_is_option;
    try (key_nums; lia).
  - rewrite find_DISABLE_LOGGING. reflexivity.
  - rewrite find_NOMPI. reflexivity.
  - rewrite find_HIDE. reflexivity.
  - rewrite find_PYTHONPREFIX. reflexivity.
Qed.

(** X24.  The parser ignores every key it does not know: for a key that
    is no option of the table and none of [ARGP_KEY_ARG], [ARGP_KEY_ARGS],
    [ARGP_KEY_END] and [ARGP_KEY_NO_ARGS] (as argp's [ARGP_KEY_INIT],
    [ARGP_KEY_SUCCESS] and [ARGP_KEY_FINI] are), it returns 0 and leaves
    every variable as it was. *)
Theorem X24_unknown_key_ignored (k : Z) (a : option string) (st : argp_state)
  (g : globals) :
  is_option_key k = false ->
  ~ In k [ARGP_KEY_ARG; ARGP_KEY_ARGS; ARGP_KEY_END; ARGP_KEY_NO_ARGS] ->
  parse k a st g = Returns (0, g).
Proof.
  intros Hk Hspecial.
  assert (Hne : forall k', In k' [DISABLE_LOGGING; NOMPI; HIDE; PYTHONPREFIX] ->
                           (k =? k') = false).
  { intros k' Hin. apply Z.eqb_neq. intros ->.
    rewrite (key_compared_is_option k' Hin) in Hk. discriminate. }
  assert (Hsp : forall k', In k' [ARGP_KEY_ARG; ARGP_KEY_ARGS; ARGP_KEY_END;
                                  ARGP_KEY_NO_ARGS] -> (k =? k') = false).
  { intros k' Hin. apply Z.eqb_neq. intros ->. exact (Hspecial Hin). }
  destruct (done g) eqn:Hd.
  - apply parse_done; [exact Hd|]. intros ->. apply Hspecial. simpl. tauto.
  - unfold parse. rewrite Hd, (find_not_option k Hk). cbn [andb].
    unfold arg_is_YESNO, arg_is_NULL, null_option. cbn [o_key o_arg o_group].
    rewrite (Hne DISABLE_LOGGING), (Hne NOMPI), (Hne HIDE), (Hne PYTHONPREFIX)
      by (simpl; tauto).
    rewrite (Hsp ARGP_KEY_ARG), (Hsp ARGP_KEY_ARGS), (Hsp ARGP_KEY_END),
      (Hsp ARGP_KEY_NO_ARGS) by (simpl; tauto).
    reflexivity.
Qed.

End Resolution.

(** ** The python prefixes *)

Lemma ascii_compare_lt_trans (a b c : ascii) :
  Ascii.compare a b = Lt -> Ascii.compare b c = Lt -> Ascii.compare a c = Lt.
Proof.
  unfold Ascii.compare. rewrite !N.compare_lt_iff. lia.
Qed.

Lemma ascii_compare_refl (a : ascii) : Ascii.compare a a = Eq.
Proof. unfold Ascii.compare. apply N.compare_refl. Qed.

Lemma string_compare_refl (s : string) : String.compare s s = Eq.
Proof.
  induction s as [|a s IH]; simpl; [reflexivity|].
  rewrite ascii_compare_refl. exact IH.
Qed.

Lemma string_lt_trans (s t u : string) :
  string_lt s t -> string_lt t u -> string_lt s u.
Proof.
  unfold string_lt. revert t u.
  induction s as [|a s IH]; intros [|b t] [|c u]; simpl;
    try discriminate; try reflexivity.
  destruct (Ascii.compare a b) eqn:E1; destruct (Ascii.compare b c) eqn:E2;
    try discriminate; intros H1 H2.
  - apply Ascii.compare_eq_iff in E1, E2. subst b c.
    rewrite ascii_compare_refl. apply (IH t u); assumption.
  - apply Ascii.compare_eq_iff in E1. subst b. rewrite E2. reflexivity.
  - apply Ascii.compare_eq_iff in E2. subst c. rewrite E1. reflexivity.
  - rewrite (ascii_compare_lt_trans a b c E1 E2). reflexivity.
Qed.

Lemma string_lt_irrefl (s : string) : ~ string_lt s s.
Proof.
  unfold string_lt. rewrite string_compare_refl. discriminate.
Qed.

Lemma compare_Gt_lt (s t : string) : String.compare s t = Gt -> string_lt t s.
Proof.
  unfold string_lt. intros H. rewrite String.compare_antisym, H. reflexivity.
Qed.

Lemma set_insert_In (x s : string) (l : list string) :
  In x (set_insert s l) <-> x = s \/ In x l.
Proof.
  induction l as [|y r IH]; simpl.
  - intuition congruence.
  - destruct (String.compare s y) eqn:E; simpl.
    + apply String.compare_eq_iff in E. subst y. intuition congruence.
    + intuition congruence.
    + rewrite IH. intuition congruence.
Qed.

Lemma set_insert_HdRel (x s : string) (l : list string) :
  string_lt x s -> HdRel string_lt x l -> HdRel string_lt x (set_insert s l).
Proof.
  intros Hxs Hhd. destruct l as [|y r]; simpl.
  - constructor. exact Hxs.
  - destruct (String.compare s y); [exact Hhd | constructor; exact Hxs |].
    constructor. inversion Hhd. assumption.
Qed.

Lemma set_insert_Sorted (s : string) (l : list string) :
  Sorted string_lt l -> Sorted string_lt (set_insert s l).
Proof.
  induction 1 as [|y r Hs IH Hhd]; simpl.
  - repeat constructor.
  - destruct (String.compare s y) eqn:E.
    + constructor; assumption.
    + constructor; [constructor; assumption | constructor; exact E].
    + constructor; [exact IH|].
      apply set_insert_HdRel; [apply compare_Gt_lt, E | exact Hhd].
Qed.

Lemma insert_nonempty_In (x s : string) (l : list string) :
  In x (insert_nonempty s l) <-> In x l \/ (x = s /\ nonempty s = true).
Proof.
  destruct s as [|c s]; unfold insert_nonempty.
  - simpl. intuition discriminate.
  - rewrite set_insert_In. simpl. intuition.
Qed.

Lemma insert_nonempty_Sorted (s : string) (l : list string) :
  Sorted string_lt l -> Sorted string_lt (insert_nonempty s l).
Proof.
  destruct s; unfold insert_nonempty; [tauto | apply set_insert_Sorted].
Qed.

(** The two loops insert the pieces between the colons one by one. *)
Lemma scan_prefix_split (p seg : string) (set : list string) :
  scan_prefix seg p set =
  fold_left (fun acc x => insert_nonempty x acc) (split_colon seg p) set.
Proof.
  revert seg set. induction p as [|c r IH]; intros seg set; simpl.
  - reflexivity.
  - destruct (Ascii.eqb c ":"); simpl; apply IH.
Qed.

Lemma fold_insert_In (x : string) (l set : list string) :
  In x (fold_left (fun acc y => insert_nonempty y acc) l set) <->
  In x set \/ In x (filter nonempty l).
Proof.
  revert set. induction l as [|y l IH]; intros set; simpl.
  - tauto.
  - rewrite IH, insert_nonempty_In.
    destruct (nonempty y) eqn:E; simpl; intuition congruence.
Qed.

Lemma fold_insert_Sorted (l set : list string) :
  Sorted string_lt set ->
  Sorted string_lt (fold_left (fun acc y => insert_nonempty y acc) l set).
Proof.
  revert set. induction l as [|y l IH]; intros set Hs; simpl.
  - exact Hs.
  - apply IH, insert_nonempty_Sorted, Hs.
Qed.

Lemma append_assoc (a b c : string) : ((a ++ b) ++ c = a ++ (b ++ c))%string.
Proof.
  induction a as [|x a IH]; simpl; [reflexivity | rewrite IH; reflexivity].
Qed.

(** The loop of [getPythonPrefixes] joins the members with colons. *)
Lemma join_rest_concat (l : list string) (acc : string) :
  join_rest acc l =
  match l with
  | [] => acc
  | _ => (acc ++ ":" ++ String.concat ":" l)%string
  end.
Proof.
  revert acc. induction l as [|y r IH]; intros acc; [reflexivity|].
  cbn [join_rest]. rewrite IH. destruct r as [|z r]; [reflexivity|].
  rewrite append_assoc.
  change (String.concat ":" (y :: z :: r))
    with (y ++ ":" ++ String.concat ":" (z :: r))%string.
  rewrite <- (append_assoc ":" y). reflexivity.
Qed.

Lemma join_members (x : string) (r : list string) :
  join_rest x r = String.concat ":" (x :: r).
Proof.
  rewrite join_rest_concat. destruct r; reflexivity.
Qed.

(** A strictly increasing list is determined by its members. *)
Lemma sorted_members_unique (l1 l2 : list string) :
  StronglySorted string_lt l1 -> StronglySorted string_lt l2 ->
  (forall x, In x l1 <-> In x l2) -> l1 = l2.
Proof.
  intros H1. revert l2.
  induction H1 as [|a l1 Hs1 IH Ha]; intros l2 H2 Hmem.
  - destruct l2 as [|b l2]; [reflexivity|].
    destruct (proj2 (Hmem b) (or_introl eq_refl)).
  - destruct H2 as [|b l2 Hs2 Hb].
    + destruct (proj1 (Hmem a) (or_introl eq_refl)).
    + rewrite Forall_forall in Ha, Hb.
      assert (a = b).
      { destruct (proj1 (Hmem a) (or_introl eq_refl)) as [E | Hin]; [auto|].
        destruct (proj2 (Hmem b) (or_introl eq_refl)) as [E | Hin']; [auto|].
        exfalso. apply (string_lt_irrefl a).
        apply (string_lt_trans a b a); [apply Ha, Hin' | apply Hb, Hin]. }
      subst b. f_equal. apply IH; [exact Hs2|].
      intros x. split; intros Hin.
      * destruct (proj1 (Hmem x) (or_intror Hin)) as [E | Hin2]; [|exact Hin2].
        subst x. destruct (string_lt_irrefl a (Ha a Hin)).
      * destruct (proj2 (Hmem x) (or_intror Hin)) as [E | Hin1]; [|exact Hin1].
        subst x. destruct (string_lt_irrefl a (Hb a Hin)).
Qed.

Section PythonPrefixes.

Context {cfg : Config}.

Lemma python_prefixes_after (g : globals) :
  python_prefixes g = [] ->
  let set := python_prefixes
               (parse_python_prefix (user_python_prefixes g)
                  (parse_python_prefix (Some PYTHON_INST_PREFIX) g)) in
  Sorted string_lt set /\ (forall x, In x set <-> In x (all_segments g)).
Proof.
  intros Hnil. unfold all_segments, parse_python_prefix.
  cbn [python_prefixes set_python_prefixes]. rewrite Hnil.
  destruct (user_python_prefixes g) as [u|];
    cbn [python_prefixes set_python_prefixes segments];
    rewrite !scan_prefix_split.
  - split.
    + apply fold_insert_Sorted, fold_insert_Sorted. constructor.
    + intros x. rewrite !fold_insert_In, in_app_iff. simpl. tauto.
  - split.
    + apply fold_insert_Sorted. constructor.
    + intros x. rewrite fold_insert_In, app_nil_r. simpl. tauto.
Qed.

(** With a segment to return, [getPythonPrefixes] returns the segments of
    the two lists that are not empty, each once, in increasing order,
    joined by colons. *)
Lemma getPythonPrefixes_segments (g : globals) :
  python_prefixes g = [] -> all_segments g <> [] ->
  exists L,
    getPythonPrefixes g = Returns (String.concat ":" L, set_python_prefixes L g) /\
    StronglySorted string_lt L /\
    (forall x, In x L <-> In x (all_segments g)).
Proof.
  intros Hnil Hne. destruct (python_prefixes_after g Hnil) as [Hs Hmem].
  unfold getPythonPrefixes.
  change (user_python_prefixes (parse_python_prefix (Some PYTHON_INST_PREFIX) g))
    with (user_python_prefixes g).
  set (g2 := parse_python_prefix (user_python_prefixes g)
               (parse_python_prefix (Some PYTHON_INST_PREFIX) g)) in *.
  assert (Hg2 : g2 = set_python_prefixes (python_prefixes g2) g).
  { unfold g2, parse_python_prefix. destruct (user_python_prefixes g); reflexivity. }
  cbv zeta in Hs, Hmem.
  destruct (python_prefixes g2) as [|x r] eqn:E.
  - exfalso. destruct (all_segments g) as [|y ys]; [contradiction Hne; reflexivity|].
    apply (proj2 (Hmem y)). left. reflexivity.
  - exists (x :: r). rewrite join_members, Hg2. split; [reflexivity|].
    split; [|exact Hmem].
    apply Sorted_StronglySorted; [|exact Hs].
    intros a b c. apply string_lt_trans.
Qed.

(** Without any segment the loop reads [*i] at [end()]. *)
Lemma getPythonPrefixes_no_segment (g : globals) :
  python_prefixes g = [] -> all_segments g = [] ->
  getPythonPrefixes g = Undefined.
Proof.
  intros Hnil Hempty. destruct (python_prefixes_after g Hnil) as [_ Hmem].
  unfold getPythonPrefixes.
  change (user_python_prefixes (parse_python_prefix (Some PYTHON_INST_PREFIX) g))
    with (user_python_prefixes g).
  set (g2 := parse_python_prefix (user_python_prefixes g)
               (parse_python_prefix (Some PYTHON_INST_PREFIX) g)) in *.
  cbv zeta in Hmem. rewrite Hempty in Hmem.
  destruct (python_prefixes g2) as [|x r]; [reflexivity|].
  destruct (proj1 (Hmem x) (or_introl eq_refl)).
Qed.

End PythonPrefixes.

(** The string returned depends on the set of segments only, not on their
    order or multiplicity in the two lists. *)
Lemma getPythonPrefixes_order_independent (c1 c2 : Config) (g1 g2 g1' g2' : globals)
  (s1 s2 : string) :
  python_prefixes g1 = [] -> python_prefixes g2 = [] ->
  (forall x, In x (@all_segments c1 g1) <-> In x (@all_segments c2 g2)) ->
  @getPythonPrefixes c1 g1 = Returns (s1, g1') ->
  @getPythonPrefixes c2 g2 = Returns (s2, g2') ->
  s1 = s2.
Proof.
  intros N1 N2 Hsame R1 R2.
  destruct (@all_segments c1 g1) as [|y ys] eqn:E1.
  { rewrite (@getPythonPrefixes_no_segment c1 g1 N1 E1) in R1. discriminate. }
  destruct (@all_segments c2 g2) as [|z zs] eqn:E2.
  { rewrite (@getPythonPrefixes_no_segment c2 g2 N2 E2) in R2. discriminate. }
  destruct (@getPythonPrefixes_segments c1 g1 N1) as (L1 & Q1 & S1 & M1);
    [rewrite E1; discriminate|].
  destruct (@getPythonPrefixes_segments c2 g2 N2) as (L2 & Q2 & S2 & M2);
    [rewrite E2; discriminate|].
  rewrite Q1 in R1. rewrite Q2 in R2.
  injection R1 as <- _. injection R2 as <- _.
  f_equal. apply sorted_members_unique; try assumption.
  intros x. rewrite M1, M2, E1, E2. apply Hsame.
Qed.

(** ** [multi_bits_set] *)

Lemma land_pow2_pred (n : Z) : 0 <= n -> Z.land (2 ^ n) (2 ^ n - 1) = 0.
Proof.
  intros Hn.
  replace (2 ^ n - 1) with (Z.ones n) by (rewrite Z.ones_equiv; lia).
  apply Z.bits_inj'; intros m Hm.
  rewrite Z.land_spec, Z.bits_0, Z.pow2_bits_eqb, Z.testbit_ones_nonneg by lia.
  destruct (Z.eqb_spec n m) as [->|]; [|reflexivity].
  rewrite Z.ltb_irrefl. reflexivity.
Qed.

Lemma land_pred_zero (v : Z) :
  0 < v -> Z.land v (v - 1) = 0 -> v = 2 ^ Z.log2 v.
Proof.
  intros Hv H0. destruct (Z.log2_spec v Hv) as [Hlo Hhi].
  pose proof (Z.log2_nonneg v) as Hn.
  rewrite Z.pow_succ_r in Hhi by assumption.
  destruct (Z.eq_dec v (2 ^ Z.log2 v)) as [E | Hne]; [exact E | exfalso].
  apply (f_equal (fun z => Z.testbit z (Z.log2 v))) in H0.
  rewrite Z.land_spec, Z.bits_0 in H0.
  replace v with (2 ^ Z.log2 v + (v - 2 ^ Z.log2 v)) in H0 at 1 by lia.
  rewrite testbit_pow2_plus in H0 by lia.
  replace (v - 1) with (2 ^ Z.log2 v + (v - 2 ^ Z.log2 v - 1)) in H0 by lia.
  rewrite testbit_pow2_plus in H0 by lia.
  discriminate.
Qed.

(** X13.  On an [unsigned long], [multi_bits_set] answers no exactly for 0
    and for the powers of two: it tells whether more than one bit is
    set. *)
Theorem X13_multi_bits_set (v : Z) :
  0 <= v < 2 ^ 64 ->
  (multi_bits_set v = false <-> v = 0 \/ exists n, 0 <= n < 64 /\ v = 2 ^ n).
Proof.
  intros Hv. unfold multi_bits_set. rewrite negb_false_iff, Z.eqb_eq. split.
  - intros H0. destruct (Z.eq_dec v 0) as [E | Hne]; [left; exact E | right].
    rewrite pred_ul_small in H0 by lia.
    exists (Z.log2 v). split.
    + split; [apply Z.log2_nonneg | apply Z.log2_lt_pow2; lia].
    + apply land_pred_zero; [lia | exact H0].
  - intros [-> | (n & Hn & ->)]; [apply Z.land_0_l|].
    assert (0 < 2 ^ n) by (apply Z.pow_pos_nonneg; lia).
    rewrite pred_ul_small by lia. apply land_pow2_pred. lia.
Qed.

(** ** [getLocation] *)

Lemma append_inv_head (a b c : string) : (a ++ b = a ++ c)%string -> b = c.
Proof.
  induction a as [|x a IH]; simpl; [tauto|]. intros [= H]. apply IH, H.
Qed.

Lemma to_int_not_nil (n : Z) :
  Z.to_int n <> Decimal.Pos Decimal.Nil /\ Z.to_int n <> Decimal.Neg Decimal.Nil.
Proof.
  destruct n as [|p|p]; simpl; split; try discriminate; intros [= H];
    exact (DecimalPos.Unsigned.to_uint_nonnil p H).
Qed.

Lemma snprintf_d_inj (n m : Z) : snprintf_d n = snprintf_d m -> n = m.
Proof.
  unfold snprintf_d. intros H.
  apply (f_equal NilZero.int_of_string) in H.
  destruct (to_int_not_nil n) as [N1 N2]. destruct (to_int_not_nil m) as [M1 M2].
  rewrite !NilZero.isi in H by assumption.
  injection H as H. apply DecimalZ.to_int_inj, H.
Qed.

(** A numeral without leading zeros is at least the power of ten of its
    length. *)
Lemma of_lu_lower (d : Decimal.uint) :
  DecimalFacts.nztail d <> Decimal.Nil ->
  (10 ^ N.of_nat (Decimal.nb_digits (DecimalFacts.nztail d) - 1)
   <= DecimalPos.Unsigned.of_lu d)%N.
Proof.
  induction d as [|d IH|d IH|d IH|d IH|d IH|d IH|d IH|d IH|d IH|d IH];
    cbn [DecimalFacts.nztail DecimalPos.Unsigned.of_lu]; intros H;
    try (contradiction H; reflexivity);
    destruct (DecimalFacts.nztail d) as [|u|u|u|u|u|u|u|u|u|u] eqn:E;
    try (contradiction H; reflexivity);
    try (specialize (IH ltac:(discriminate)));
    cbn [Decimal.nb_digits Nat.sub] in *;
    rewrite ?Nat.sub_0_r in *;
    rewrite ?Nat2N.inj_succ, ?N.pow_succ_r' in *;
    try (change (N.of_nat 0) with 0%N; rewrite N.pow_0_r); lia.
Qed.

Lemma string_of_uint_length (d : Decimal.uint) :
  String.length (NilEmpty.string_of_uint d) = Decimal.nb_digits d.
Proof. induction d; simpl; congruence. Qed.

Lemma to_little_uint_digits (p : positive) :
  (10 ^ N.of_nat (Decimal.nb_digits (Pos.to_little_uint p) - 1) <= N.pos p)%N.
Proof.
  pose proof (DecimalPos.Unsigned.of_to p) as Hof.
  unfold Pos.to_uint in Hof. rewrite DecimalPos.Unsigned.of_lu_rev in Hof.
  pose proof (DecimalPos.Unsigned.to_of_lu (Pos.to_little_uint p)) as Hn.
  rewrite Hof in Hn. cbn [DecimalPos.Unsigned.to_lu] in Hn.
  assert (Hnz : DecimalFacts.nztail (Pos.to_little_uint p) <> Decimal.Nil).
  { intros E. apply DecimalPos.Unsigned.of_lu_0 in E. rewrite Hof in E. discriminate. }
  pose proof (of_lu_lower _ Hnz) as Hlow. rewrite Hof in Hlow.
  unfold DecimalFacts.lnorm in Hn.
  destruct (DecimalFacts.nztail (Pos.to_little_uint p)) eqn:E;
    [contradiction Hnz; reflexivity | rewrite Hn in * ..]; exact Hlow.
Qed.

Lemma pos_digits (p : positive) :
  (Z.pos p < 2 ^ 31 + 1)%Z ->
  (String.length (NilZero.string_of_uint (Pos.to_uint p)) <= 10)%nat.
Proof.
  intros Hp. pose proof (to_little_uint_digits p) as Hlow.
  assert (Hnn : Pos.to_uint p <> Decimal.Nil)
    by apply DecimalPos.Unsigned.to_uint_nonnil.
  unfold NilZero.string_of_uint.
  destruct (Pos.to_uint p) eqn:E; [contradiction Hnn; reflexivity | rewrite <- E ..];
    rewrite string_of_uint_length; unfold Pos.to_uint;
    rewrite DecimalFacts.nb_digits_rev;
    destruct (le_lt_dec (Decimal.nb_digits (Pos.to_little_uint p)) 10) as [Hle | Hgt];
    try exact Hle; exfalso;
    assert (Hpow : (10 ^ 10 <= 10 ^ N.of_nat (Decimal.nb_digits (Pos.to_little_uint p) - 1))%N)
      by (apply N.pow_le_mono_r; lia);
    lia.
Qed.

Lemma snprintf_d_length (n : Z) :
  - 2 ^ 31 <= n < 2 ^ 31 -> (String.length (snprintf_d n) <= 11)%nat.
Proof.
  intros Hn. unfold snprintf_d. destruct n as [|p|p]; simpl.
  - lia.
  - pose proof (pos_digits p ltac:(lia)). lia.
  - pose proof (pos_digits p ltac:(lia)). simpl. lia.
Qed.

(** X14.  [getLocation] gives different directories for different numbers,
    and the buffer of 32 characters it prints the number into is never
    too short: an [int] prints in at most eleven characters. *)
Theorem X14_getLocation (n m : Z) (g : globals) :
  (getLocation n g = getLocation m g <-> n = m) /\
  (- 2 ^ 31 <= n < 2 ^ 31 -> (String.length (snprintf_d n) <= 11)%nat).
Proof.
  split; [|apply snprintf_d_length].
  split; [|intros ->; reflexivity].
  unfold getLocation. intros H.
  apply append_inv_head in H. apply append_inv_head in H.
  apply snprintf_d_inj, H.
Qed.
(** ** The set of python prefixes *)

Lemma Sorted_strong (l : list string) :
  Sorted string_lt l -> StronglySorted string_lt l.
Proof.
  apply Sorted_StronglySorted. intros a b c. apply string_lt_trans.
Qed.

Lemma scan_prefix_members (p : string) (set : list string) :
  Sorted string_lt set ->
  Sorted string_lt (scan_prefix EmptyString p set) /\
  (forall x, In x (scan_prefix EmptyString p set) <->
             In x set \/ In x (segments (Some p))).
Proof.
  intros Hs. rewrite scan_prefix_split. split.
  - apply fold_insert_Sorted, Hs.
  - intros x. rewrite fold_insert_In. reflexivity.
Qed.

(** What [parse_python_prefix] does to the set. *)
Lemma parse_python_prefix_members (p : option string) (g : globals) :
  Sorted string_lt (python_prefixes g) ->
  Sorted string_lt (python_prefixes (parse_python_prefix p g)) /\
  (forall x, In x (python_prefixes (parse_python_prefix p g)) <->
             In x (python_prefixes g) \/ In x (segments p)).
Proof.
  intros Hs. destruct p as [p|]; cbn [parse_python_prefix].
  - cbn [python_prefixes set_python_prefixes]. apply scan_prefix_members, Hs.
  - split; [exact Hs|]. simpl. tauto.
Qed.

(** A prefix list whose segments are all in the set leaves the variables
    as they are. *)
Lemma parse_python_prefix_absorbed (p : option string) (g : globals) :
  Sorted string_lt (python_prefixes g) ->
  (forall x, In x (segments p) -> In x (python_prefixes g)) ->
  parse_python_prefix p g = g.
Proof.
  intros Hs Hsub. destruct (parse_python_prefix_members p g Hs) as [Hs' Hmem].
  assert (E : python_prefixes (parse_python_prefix p g) = python_prefixes g).
  { apply sorted_members_unique; try (apply Sorted_strong; assumption).
    intros x. rewrite Hmem. split; [intros [H | H]; auto | auto]. }
  destruct p as [p|]; [|reflexivity].
  cbn [parse_python_prefix python_prefixes set_python_prefixes] in *.
  rewrite E. destruct g; reflexivity.
Qed.

(** X15.  [parse_python_prefix] adds to the set exactly the segments of
    the list that are not empty and keeps the set strictly increasing, so
    without duplicates; doing it again with the same list changes nothing,
    and so does a NULL list. *)
Theorem X15_parse_python_prefix (p : option string) (g : globals) :
  Sorted string_lt (python_prefixes g) ->
  StronglySorted string_lt (python_prefixes (parse_python_prefix p g)) /\
  NoDup (python_prefixes (parse_python_prefix p g)) /\
  (forall x, In x (python_prefixes (parse_python_prefix p g)) <->
             In x (python_prefixes g) \/ In x (segments p)) /\
  parse_python_prefix p (parse_python_prefix p g) = parse_python_prefix p g /\
  parse_python_prefix None g = g.
Proof.
  intros Hs. destruct (parse_python_prefix_members p g Hs) as [Hs' Hmem].
  pose proof (Sorted_strong _ Hs') as Hss.
  split; [exact Hss|]. split; [|split; [exact Hmem|split; [|reflexivity]]].
  - clear - Hss. induction Hss as [|a l Hl IH Ha]; constructor; [|exact IH].
    intros Hin. rewrite Forall_forall in Ha.
    exact (string_lt_irrefl a (Ha a Hin)).
  - apply parse_python_prefix_absorbed; [exact Hs'|].
    intros x Hx. apply Hmem. right. exact Hx.
Qed.

Lemma append_nil_r (s : string) : (s ++ EmptyString)%string = s.
Proof. induction s as [|c s IH]; simpl; [reflexivity | rewrite IH; reflexivity]. Qed.

Lemma colon_free_app (s t : string) :
  colon_free (s ++ t) = colon_free s && colon_free t.
Proof.
  induction s as [|c s IH]; simpl; [reflexivity|].
  rewrite IH. apply andb_assoc.
Qed.

(** The pieces between colons hold no colon. *)
Lemma split_colon_free (p seg x : string) :
  colon_free seg = true -> In x (split_colon seg p) -> colon_free x = true.
Proof.
  revert seg. induction p as [|c r IH]; intros seg Hseg; simpl.
  - intros [<- | []]. exact Hseg.
  - destruct (Ascii.eqb c ":") eqn:E.
    + intros [<- | H]; [exact Hseg|]. apply (IH EmptyString); [reflexivity | exact H].
    + apply IH. rewrite colon_free_app, Hseg. simpl. rewrite E. reflexivity.
Qed.

Lemma segments_spec (p : option string) (x : string) :
  In x (segments p) -> nonempty x = true /\ colon_free x = true.
Proof.
  destruct p as [p|]; simpl; [|contradiction].
  rewrite filter_In. intros [Hin Hne]. split; [exact Hne|].
  apply (split_colon_free p EmptyString x eq_refl Hin).
Qed.

Lemma split_colon_skip (x seg p : string) :
  colon_free x = true ->
  split_colon seg (x ++ p) = split_colon (seg ++ x) p.
Proof.
  revert seg. induction x as [|c x IH]; intros seg Hx; simpl.
  - rewrite append_nil_r. reflexivity.
  - simpl in Hx. apply andb_true_iff in Hx as [Hc Hx].
    apply negb_true_iff in Hc.
    change (String c (x ++ p)) with (String c x ++ p)%string.
    simpl. rewrite Hc, (IH _ Hx), append_assoc. reflexivity.
Qed.

(** Splitting a colon-joined list of colon-free strings gives the list. *)
Lemma split_colon_concat (x : string) (l : list string) :
  Forall (fun y => colon_free y = true) (x :: l) ->
  split_colon EmptyString (String.concat ":" (x :: l)) = x :: l.
Proof.
  revert x. induction l as [|y r IH]; intros x Hall.
  - inversion Hall as [|? ? Hx _]. simpl.
    rewrite <- (append_nil_r x) at 1. rewrite split_colon_skip by exact Hx.
    reflexivity.
  - inversion Hall as [|? ? Hx Hrest].
    change (String.concat ":" (x :: y :: r))
      with (x ++ String ":" (String.concat ":" (y :: r)))%string.
    rewrite split_colon_skip by exact Hx. cbn [append split_colon].
    rewrite Ascii.eqb_refl, (IH y Hrest). reflexivity.
Qed.

Lemma filter_all (A : Type) (f : A -> bool) (l : list A) :
  Forall (fun y => f y = true) l -> filter f l = l.
Proof.
  induction 1 as [|y l Hy _ IH]; simpl; [reflexivity|].
  rewrite Hy, IH. reflexivity.
Qed.

Section PythonPrefixResults.

Context {cfg : Config}.

(** The set after the two lists have been read, for any set before. *)
Lemma python_prefixes_read (g : globals) :
  Sorted string_lt (python_prefixes g) ->
  exists L,
    parse_python_prefix (user_python_prefixes g)
      (parse_python_prefix (Some PYTHON_INST_PREFIX) g)
    = set_python_prefixes L g /\
    Sorted string_lt L /\
    (forall x, In x L <-> In x (python_prefixes g) \/ In x (all_segments g)).
Proof.
  intros Hs.
  set (g1 := parse_python_prefix (Some PYTHON_INST_PREFIX) g).
  destruct (parse_python_prefix_members (Some PYTHON_INST_PREFIX) g Hs)
    as [Hs1 Hm1]. fold g1 in Hs1, Hm1.
  destruct (parse_python_prefix_members (user_python_prefixes g) g1 Hs1)
    as [Hs2 Hm2].
  exists (python_prefixes (parse_python_prefix (user_python_prefixes g) g1)).
  split; [|split; [exact Hs2|]].
  - unfold g1. destruct (user_python_prefixes g); destruct g; reflexivity.
  - intros x. rewrite Hm2, Hm1. unfold all_segments. rewrite in_app_iff. tauto.
Qed.

Lemma getPythonPrefixes_read (g : globals) :
  Sorted string_lt (python_prefixes g) ->
  exists L,
    Sorted string_lt L /\
    (forall x, In x L <-> In x (python_prefixes g) \/ In x (all_segments g)) /\
    getPythonPrefixes g = match L with
                          | [] => Undefined
                          | _ => Returns (String.concat ":" L, set_python_prefixes L g)
                          end.
Proof.
  intros Hs. destruct (python_prefixes_read g Hs) as (L & E & HL & Hmem).
  exists L. split; [exact HL|]. split; [exact Hmem|].
  unfold getPythonPrefixes.
  change (user_python_prefixes (parse_python_prefix (Some PYTHON_INST_PREFIX) g))
    with (user_python_prefixes g).
  rewrite E. cbn [python_prefixes set_python_prefixes].
  destruct L as [|x r]; [reflexivity|]. rewrite join_members. reflexivity.
Qed.

(** X17.  A second call of [getPythonPrefixes] returns the string of the
    first and leaves the variables as the first left them. *)
Theorem X17_python_prefixes_again (g g' : globals) (s : string) :
  Sorted string_lt (python_prefixes g) ->
  getPythonPrefixes g = Returns (s, g') ->
  getPythonPrefixes g' = Returns (s, g').
Proof.
  intros Hs Hrun.
  destruct (getPythonPrefixes_read g Hs) as (L & HL & Hmem & E).
  rewrite E in Hrun. destruct L as [|x r]; [discriminate|].
  injection Hrun as <- <-.
  assert (Hs' : Sorted string_lt (python_prefixes (set_python_prefixes (x :: r) g)))
    by exact HL.
  destruct (getPythonPrefixes_read _ Hs') as (L' & HL' & Hmem' & E').
  assert (EL : L' = x :: r).
  { apply sorted_members_unique; try (apply Sorted_strong; assumption).
    intros y. rewrite Hmem'.
    change (python_prefixes (set_python_prefixes (x :: r) g)) with (x :: r).
    change (all_segments (set_python_prefixes (x :: r) g)) with (all_segments g).
    rewrite (Hmem y). tauto. }
  rewrite E', EL. destruct g; reflexivity.
Qed.

(** X18.  Splitting the string [getPythonPrefixes] returns at its colons
    gives back the set: every piece is a member, none is empty, and they
    come in the order of the set. *)
Theorem X18_python_prefixes_split (g g' : globals) (s : string) :
  python_prefixes g = [] ->
  getPythonPrefixes g = Returns (s, g') ->
  split_colon EmptyString s = python_prefixes g' /\
  segments (Some s) = python_prefixes g' /\
  (forall x, In x (python_prefixes g') <-> In x (all_segments g)).
Proof.
  intros Hnil Hrun.
  assert (H0 : Sorted string_lt (python_prefixes g)) by (rewrite Hnil; constructor).
  destruct (getPythonPrefixes_read g H0) as (L & HL & Hmem & E).
  rewrite Hnil in Hmem. simpl in Hmem.
  rewrite E in Hrun. destruct L as [|x r]; [discriminate|].
  injection Hrun as <- <-. cbn [python_prefixes set_python_prefixes].
  assert (Hall : Forall (fun y => nonempty y = true /\ colon_free y = true) (x :: r)).
  { apply Forall_forall. intros y Hy. apply Hmem in Hy as [[] | Hy].
    unfold all_segments in Hy. apply in_app_or in Hy.
    destruct Hy as [Hy | Hy]; exact (segments_spec _ _ Hy). }
  assert (Hsplit : split_colon EmptyString (String.concat ":" (x :: r)) = x :: r).
  { apply split_colon_concat. eapply Forall_impl; [|exact Hall].
    intros y [_ Hy]. exact Hy. }
  split; [exact Hsplit|]. split.
  - change (filter nonempty (split_colon EmptyString (String.concat ":" (x :: r)))
            = x :: r).
    rewrite Hsplit. apply filter_all.
    eapply Forall_impl; [|exact Hall]. intros y [Hy _]. exact Hy.
  - intros y. rewrite (Hmem y). tauto.
Qed.

End PythonPrefixResults.

(** X16.  When one of the two lists has a segment that is not empty,
    [getPythonPrefixes] returns these segments joined by single colons,
    each once and in increasing order, and leaves them in the set; the
    string is the same for any compiled list and user list with the same
    segments, whatever their order and repetitions. *)
Theorem X16_python_prefixes_joined (cfg : Config) (g : globals) :
  python_prefixes g = [] -> all_segments g <> [] ->
  exists L,
    getPythonPrefixes g = Returns (String.concat ":" L, set_python_prefixes L g) /\
    StronglySorted string_lt L /\ NoDup L /\
    (forall x, In x L <-> In x (all_segments g)) /\
    (forall (cfg2 : Config) g2 s2 g2',
        python_prefixes g2 = [] ->
        (forall x, In x (@all_segments cfg2 g2) <-> In x (@all_segments cfg g)) ->
        @getPythonPrefixes cfg2 g2 = Returns (s2, g2') ->
        s2 = String.concat ":" L).
Proof.
  intros Hnil Hne.
  assert (H0 : Sorted string_lt (python_prefixes g)) by (rewrite Hnil; constructor).
  destruct (getPythonPrefixes_read g H0) as (L & HL & Hmem & E).
  rewrite Hnil in Hmem. simpl in Hmem.
  assert (Hmem' : forall x, In x L <-> In x (all_segments g))
    by (intros x; rewrite Hmem; tauto).
  exists L. pose proof (Sorted_strong _ HL) as Hss.
  destruct L as [|x r].
  { exfalso. destruct (all_segments g) as [|y ys]; [contradiction Hne; reflexivity|].
    apply (proj2 (Hmem' y)). left. reflexivity. }
  split; [exact E|]. split; [exact Hss|]. split; [|split; [exact Hmem'|]].
  - clear - Hss. induction Hss as [|a l Hl IH Ha]; constructor; [|exact IH].
    intros Hin. rewrite Forall_forall in Ha.
    exact (string_lt_irrefl a (Ha a Hin)).
  - intros cfg2 g2 s2 g2' Hnil2 Hsame Hrun.
    assert (H2 : Sorted string_lt (python_prefixes g2))
      by (rewrite Hnil2; constructor).
    destruct (@getPythonPrefixes_read cfg2 g2 H2) as (L2 & HL2 & Hmem2 & E2).
    rewrite Hnil2 in Hmem2. simpl in Hmem2.
    assert (EL : L2 = x :: r).
    { apply sorted_members_unique; try (apply Sorted_strong; assumption).
      intros y. rewrite Hmem2, Hmem', Hsame. tauto. }
    rewrite EL in E2. rewrite E2 in Hrun. injection Hrun as <- _. reflexivity.
Qed.


(** ** The python prefixes of a parsed command line *)

Section PrefixesAfterParse.

Context {hdr : Header} {cfg : Config}.
Hypothesis Hok : header_ok.

(** X23.  [parseArgs] leaves the set of python prefixes empty and the list
    of the python-prefix option given last in [user_python_prefixes]; so
    [getPythonPrefixes], called on what [parseArgs] returned, gives the
    segments of the compiled list and of that option's list, each once, in
    increasing order and joined by colons, and reads past the end of the
    set when there is none. *)
Theorem X23_prefixes_after_parse (cl : cmdline) (g : globals) (o : Z) :
  wf_cmdline cl -> parseArgs cl initial_globals = Returns (o, g) ->
  python_prefixes g = [] /\
  exists L,
    StronglySorted string_lt L /\
    (forall x, In x L <->
               In x (segments (Some PYTHON_INST_PREFIX)) \/
               In x (segments match last_arg PYTHONPREFIX (cl_opts cl) with
                              | Some a => a
                              | None => None
                              end)) /\
    getPythonPrefixes g = match L with
                          | [] => Undefined
                          | _ => Returns (String.concat ":" L, set_python_prefixes L g)
                          end.
Proof.
  intros Hwf Hrun.
  destruct (parseArgs_fields Hok cl _ g o Hwf Hrun)
    as (g1 & Hscan & _ & _ & _ & _ & _ & _ & _ & _ & _ & Hu & _ & _ & _ & _ & _ &
        Hp & _).
  destruct (parse_options_scalars Hok _ _ (set_done false initial_globals) g1 Hwf
              eq_refl Hscan) as (_ & Su & _ & _ & _ & _ & _ & _ & _ & _ & Sp).
  assert (Hnil : python_prefixes g = []) by (rewrite Hp, Sp; reflexivity).
  split; [exact Hnil|].
  assert (H0 : Sorted string_lt (python_prefixes g)) by (rewrite Hnil; constructor).
  destruct (getPythonPrefixes_read g H0) as (L & HL & Hmem & E).
  exists L. split; [apply Sorted_strong, HL|]. split; [|exact E].
  intros x. rewrite (Hmem x), Hnil. unfold all_segments.
  rewrite in_app_iff, Hu, Su. simpl. tauto.
Qed.

End PrefixesAfterParse.

(** ** Concrete runs *)

Lemma sample_header_ok : @header_ok sample_header.
Proof.
  constructor.
  - repeat constructor.
  - repeat constructor.
  - vm_compute. discriminate.
  - repeat constructor; vm_compute; congruence.
  - repeat constructor; simpl; intuition discriminate.
  - repeat constructor.
  - repeat constructor.
Qed.

(** C1.  In a build whose only security model is the LaunchMON key
    exchange, the run without options returns the union of the compiled
    defaults and the compiled port, but the security model it selects is
    the keyfile model, while the first (and only) security model of the
    option table is the LaunchMON one. *)
Theorem C1_lmon_build_default_security :
  exists g,
    @parseArgs sample_header lmon_config (sample_cmdline [])
      (@initial_globals lmon_config)
    = Returns (@default_opts sample_header lmon_config, g) /\
    getPort g = @SPINDLE_PORT lmon_config /\
    sec_model g = @OPT_SEC_KEYFILE sample_header /\
    @first_sec_candidate sample_header lmon_config
    = Some (@OPT_SEC_KEYLMON sample_header) /\
    @OPT_SEC_KEYFILE sample_header <> @OPT_SEC_KEYLMON sample_header.
Proof.
  eexists. split; [vm_compute; reflexivity|].
  repeat split; try reflexivity. discriminate.
Qed.

Lemma C2_witness :
  exists g,
    @argp_parse sample_header sample_config
      (sample_cmdline [(RELOCAOUT, Some "no"); (DEBUG, Some "yes")])
      (set_done false sample_globals) = Returns g /\
    Z.land (opts g) (@all_reloc_opts sample_header) =
      Z.ldiff (Z.lor (@default_reloc_opts sample_header)
                     (Z.land (enabled_opts g) (@all_reloc_opts sample_header)))
              (Z.land (disabled_opts g) (@all_reloc_opts sample_header)).
Proof.
  eexists. split; [vm_compute; reflexivity|].
  apply (@C2_bundle_groups sample_header sample_config sample_header_ok
           (sample_cmdline [(RELOCAOUT, Some "no"); (DEBUG, Some "yes")]));
    [reflexivity | vm_compute; reflexivity].
Defined.

Lemma C3_witness :
  @parseArgs sample_header sample_config
    (sample_cmdline [(RELOCAOUT, Some "yes"); (RELOCAOUT, Some "no")])
    sample_globals = Exits conflict_msg /\
  (forall r,
      @parseArgs sample_header sample_config
        (sample_cmdline [(STRIP, Some "y"); (PUSH, None); (STRIP, Some "n")])
        sample_globals <> Returns r) /\
  @parse sample_header sample_config ARGP_KEY_END None sample_state
    (set_disabled_opts 4 (set_enabled_opts 4 sample_globals))
  = Exits conflict_msg.
Proof.
  destruct (@C3_conflicting_directive sample_header sample_config sample_header_ok)
    as (H1 & H2 & H3).
  split; [|split].
  - eapply H2;
      [reflexivity | discriminate | vm_compute; reflexivity | vm_compute; discriminate].
  - apply (H3 _ _ STRIP "y" "n");
      [reflexivity | unfold yesno_keys; simpl; tauto | right; reflexivity
      | right; reflexivity | simpl; tauto | simpl; tauto].
  - apply H1. vm_compute. discriminate.
Defined.

Lemma C4_witness :
  (exists msg,
      @parse sample_header sample_config ARGP_KEY_END None sample_state
        (set_enabled_opts 96 sample_globals) = Exits msg /\
      msg = pushpull_msg) /\
  (forall r,
      @parseArgs sample_header sample_config
        (sample_cmdline [(PUSH, None); (PULL, None)]) sample_globals
      <> Returns r) /\
  (exists o g,
      @parseArgs sample_header sample_config
        (sample_cmdline [(STRIP, Some "no")]) sample_globals = Returns (o, g) /\
      Z.land o (@all_pushpull_opts sample_header) = @OPT_PUSH sample_header).
Proof.
  destruct (@C4_push_pull sample_header sample_config sample_header_ok)
    as (H1 & H2 & H3).
  split; [|split].
  - destruct (H1 None sample_state (set_enabled_opts 96 sample_globals))
      as (msg & Hm & Hmsg); [reflexivity | reflexivity|].
    exists msg. split; [exact Hm | apply Hmsg; reflexivity].
  - apply (H2 _ _ None None); [reflexivity | simpl; tauto | simpl; tauto].
  - eexists. eexists. split; [vm_compute; reflexivity|].
    refine (proj1 (H3 (sample_cmdline [(STRIP, Some "no")]) _ _ _ _ _ _));
      first [vm_compute; reflexivity | vm_compute; intuition discriminate].
Defined.

(** C5, as stated, fails: after a first security option a second one is
    taken without an error, and the run returns with the second model. *)
Lemma C5_second_selection_accepted :
  (exists g,
      @parse_options sample_header sample_config sample_state
        [(@SECKEYFILE sample_header, None); (@SECNULL sample_header, None)]
        sample_globals = Returns g /\
      sec_model g = @OPT_SEC_NULL sample_header) /\
  (exists o g,
      @parseArgs sample_header sample_config
        (sample_cmdline
           [(@SECKEYFILE sample_header, None); (@SECNULL sample_header, None)])
        sample_globals = Returns (o, g) /\
      sec_model g = @OPT_SEC_NULL sample_header).
Proof.
  split.
  - eexists. split; [vm_compute; reflexivity | reflexivity].
  - eexists. eexists. split; [vm_compute; reflexivity | reflexivity].
Qed.

Lemma C5_witness :
  @parse sample_header sample_config (@SECKEYFILE sample_header) None sample_state
    (set_sec_model (@OPT_SEC_MUNGE sample_header) sample_globals)
  = Returns (0, set_sec_model (@OPT_SEC_KEYFILE sample_header) sample_globals) /\
  @parse_options sample_header sample_config sample_state
    [(@SECKEYFILE sample_header, None); (@SECNULL sample_header, None)]
    sample_globals
  = Returns (set_sec_model (@OPT_SEC_NULL sample_header) sample_globals) /\
  (exists g',
      @parse_options sample_header sample_config sample_state
        [(@SECNULL sample_header, None); (STRIP, Some "no");
         (@SECMUNGE sample_header, None); (PUSH, None)]
        sample_globals = Returns g' /\
      sec_model g' = @OPT_SEC_MUNGE sample_header).
Proof.
  destruct (@C5_security_model_last_wins sample_header sample_config sample_header_ok)
    as (H1 & H2 & H3).
  split; [|split].
  - apply (H1 (@SECKEYFILE sample_header) None sample_state
              (set_sec_model (@OPT_SEC_MUNGE sample_header) sample_globals));
      [reflexivity | right; right; left; split; reflexivity].
  - apply (H2 (@SECKEYFILE sample_header) None (@SECNULL sample_header) None
              sample_state sample_globals);
      [reflexivity | right; right; left; split; reflexivity
      | right; right; right; split; reflexivity].
  - eexists. split; [vm_compute; reflexivity|].
    apply (H3 sample_state
              [(@SECNULL sample_header, None); (STRIP, Some "no");
               (@SECMUNGE sample_header, None); (PUSH, None)]
              sample_globals _ (@SECMUNGE sample_header));
      vm_compute; reflexivity.
Defined.

Lemma C6_witness :
  exists o g,
    @parseArgs sample_header sample_config
      (sample_cmdline
         [(RELOCAOUT, Some "yes"); (RELOCEXEC, Some "yes"); (DEBUG, Some "yes")])
      sample_globals = Returns (o, g) /\
    Z.land o (@OPT_DEBUG sample_header) <> 0 /\
    Z.land o (@OPT_RELOCAOUT sample_header) = 0 /\
    Z.land o (@OPT_RELOCEXEC sample_header) = 0 /\
    Z.land o (@OPT_REMAPEXEC sample_header) = @OPT_REMAPEXEC sample_header /\
    @debug_override sample_header 4010 = 4010.
Proof.
  destruct (@C6_debug_override sample_header sample_config sample_header_ok)
    as (H1 & H2 & H3).
  eexists. eexists. split; [vm_compute; reflexivity|].
  destruct (H1 4014) as (A1 & A2 & A3 & _); [vm_compute; discriminate|].
  split; [vm_compute; discriminate|].
  split; [exact A1|]. split; [exact A2|]. split; [exact A3|].
  apply H2. reflexivity.
Defined.

(** C7, as stated, fails: the argument 12abc is not a number, and the port
    option takes it and sets the port to 12. *)
Lemma C7_non_numeric_accepted :
  numeric "12abc" = false /\
  @parse sample_header sample_config PORT (Some "12abc") sample_state sample_globals
  = Returns (0, set_spindle_port 12 sample_globals).
Proof. split; reflexivity. Qed.

Lemma C7_witness :
  @parse sample_header sample_config PORT (Some "12345") sample_state sample_globals
  = Returns (0, set_spindle_port 12345 sample_globals) /\
  @parse sample_header sample_config PORT (Some "0") sample_state sample_globals
  = Exits "Port was given a 0 value" /\
  @parse sample_header sample_config PORT (Some "abc") sample_state sample_globals
  = Exits "Port was given a 0 value" /\
  (exists o g,
      @parseArgs sample_header sample_config (sample_cmdline [(STRIP, Some "no")])
        sample_globals = Returns (o, g) /\
      getPort g = @SPINDLE_PORT sample_config).
Proof.
  destruct (@C7_port sample_header sample_config sample_header_ok)
    as (_ & H2 & H3 & H4 & H5 & _).
  split; [|split; [|split]].
  - apply (H5 "12345" sample_state sample_globals);
      [reflexivity | reflexivity | vm_compute; split; reflexivity].
  - apply (H3 "0" sample_state sample_globals); reflexivity.
  - apply (H4 "abc" sample_state sample_globals); reflexivity.
  - eexists. eexists. split; [vm_compute; reflexivity|].
    eapply (H2 (sample_cmdline [(STRIP, Some "no")]));
      first [vm_compute; reflexivity | vm_compute; intuition discriminate].
Defined.

(** C8.  With a compiled prefix list that has no segment and no user list,
    the set is empty and [getPythonPrefixes] reads [*i] at [end()]: it
    returns no string. *)
Theorem C8_no_segment_undefined :
  @getPythonPrefixes (mk_config true true true true EmptyString)
    (@initial_globals (mk_config true true true true EmptyString))
  = Undefined /\
  @getPythonPrefixes (mk_config true true true true "::")
    (@initial_globals (mk_config true true true true "::"))
  = Undefined.
Proof. split; reflexivity. Qed.

(** The merge of the specification's example. *)
Lemma getPythonPrefixes_example :
  exists g,
    @getPythonPrefixes sample_config
      (set_user_python_prefixes (Some "/b:/c") sample_globals)
    = Returns ("/a:/b:/c", g).
Proof. eexists. vm_compute. reflexivity. Qed.

Lemma C9_witness :
  exists g',
    @parse sample_header sample_config ARGP_KEY_END None sample_state
      (set_enabled_opts 4 sample_globals) = Returns (0, g') /\
    @parse sample_header sample_config ARGP_KEY_END None sample_state g'
    = Returns (0, g').
Proof.
  eexists. split; [vm_compute; reflexivity|].
  refine (proj1 (@C9_finalize_idempotent sample_header sample_config
                   sample_header_ok None None sample_state sample_state
                   (set_enabled_opts 4 sample_globals) _ 0 _)).
  vm_compute. reflexivity.
Defined.

Lemma C10_witness :
  (exists o g,
      @parseArgs sample_header sample_config
        (sample_cmdline [(PRELOAD, Some "files.txt")]) sample_globals
      = Returns (o, g) /\
      Z.land o (@OPT_PRELOAD sample_header) = @OPT_PRELOAD sample_header /\
      getPreloadFile g = Some "files.txt") /\
  @parse sample_header sample_config PRELOAD (Some "files.txt") sample_state
    sample_globals
  = Returns (0, set_preload_file (Some "files.txt")
                  (set_enabled_opts (@OPT_PRELOAD sample_header) sample_globals)).
Proof.
  destruct (@C10_preload_bit sample_header sample_config sample_header_ok)
    as (H1 & _ & H3).
  split.
  - eexists. eexists. split; [vm_compute; reflexivity|].
    split; [|reflexivity].
    eapply (H3 (sample_cmdline [(PRELOAD, Some "files.txt")]));
      first [vm_compute; reflexivity | simpl; tauto].
  - apply (H1 (Some "files.txt") sample_state sample_globals). reflexivity.
Defined.

(** ** The further properties on concrete runs *)

Lemma X1_witness :
  exists o g,
    sample_run [(STRIP, Some "no")] = Returns (o, g) /\
    getAppArgs g = (2, ["mpirun"; "a.out"]).
Proof.
  eexists. eexists. split; [vm_compute; reflexivity|].
  refine (proj1 (@X1_command_captured sample_header sample_config sample_header_ok
                   (sample_cmdline [(STRIP, Some "no")]) sample_globals _ _ _ _));
    [reflexivity | vm_compute; reflexivity].
Defined.

Lemma X2_witness :
  @parseArgs sample_header sample_config (bare_cmdline [(STRIP, Some "no")])
    sample_globals
  = Exits "No MPI command line found".
Proof.
  eapply (proj2 (@X2_missing_command sample_header sample_config sample_header_ok
                   (bare_cmdline [(STRIP, Some "no")]) sample_globals _ _));
    vm_compute; reflexivity.
  Unshelve. all: reflexivity.
Defined.

Lemma X3_witness :
  @parse sample_header sample_config DEBUG (Some "maybe") sample_state sample_globals
  = Exits "debug must be 'yes' or 'no'" /\
  sample_run [(STRIP, Some "on")] = Exits "strip must be 'yes' or 'no'".
Proof.
  split; [|vm_compute; reflexivity].
  apply (proj1 (@X3_malformed_yesno sample_header sample_config sample_header_ok)
           DEBUG "debug" "maybe" sample_state sample_globals);
    [reflexivity | unfold yesno_names; simpl; tauto | reflexivity | reflexivity].
Defined.

Lemma X4_witness :
  exists o g,
    sample_run [(NOMPI, None); (STRIP, Some "no")] = Returns (o, g) /\
    isMPIJob g = false /\ hideFDs g = true /\
    Z.land o (@OPT_NOMPI sample_header) = @OPT_NOMPI sample_header.
Proof.
  eexists. eexists. split; [vm_compute; reflexivity|].
  refine (let H := @X4_nompi_nohide sample_header sample_config sample_header_ok
                     (sample_cmdline [(NOMPI, None); (STRIP, Some "no")]) _ _ _ _ in
          conj (proj1 H)
               (conj (proj1 (proj2 (proj2 H)))
                     (proj2 (proj1 (proj2 H)) eq_refl)));
    [reflexivity | vm_compute; reflexivity].
Defined.

Lemma X5_witness :
  exists o g,
    sample_run [(DISABLE_LOGGING, None)] = Returns (o, g) /\
    isLoggingEnabled g = false.
Proof.
  eexists. eexists. split; [vm_compute; reflexivity|].
  refine (@X5_logging sample_header sample_config sample_header_ok
            (sample_cmdline [(DISABLE_LOGGING, None)]) _ _ _ _);
    [reflexivity | vm_compute; reflexivity].
Defined.

Lemma X6_witness :
  exists o g,
    sample_run [(PRELOAD, Some "one"); (LOCATION, Some "/ram"); (PRELOAD, Some "two")]
    = Returns (o, g) /\
    getPreloadFile g = Some "two" /\ user_python_prefixes g = None /\
    Some "/ram" = Some (spindle_location g).
Proof.
  eexists. eexists. split; [vm_compute; reflexivity|].
  refine (@X6_last_occurrence_wins sample_header sample_config sample_header_ok
            (sample_cmdline
               [(PRELOAD, Some "one"); (LOCATION, Some "/ram"); (PRELOAD, Some "two")])
            _ _ _ _);
    [reflexivity | vm_compute; reflexivity].
Defined.

Lemma X7_witness :
  exists o g,
    sample_run [(PORT, Some "1000"); (PORT, Some "2000")] = Returns (o, g) /\
    exists s, Some "2000" = Some s /\ getPort g = to_uint (atoi s) /\
              0 < getPort g < 2 ^ 32.
Proof.
  eexists. eexists. split; [vm_compute; reflexivity|].
  refine (@X7_last_port sample_header sample_config sample_header_ok
            (sample_cmdline [(PORT, Some "1000"); (PORT, Some "2000")]) _ _ _ _);
    [reflexivity | vm_compute; reflexivity].
Defined.

Lemma X8_witness :
  exists o g,
    sample_run [(RELOCAOUT, Some "yes"); (NOCLEAN, Some "y"); (DEBUG, Some "yes")]
    = Returns (o, g) /\
    Z.land o (@OPT_RELOCAOUT sample_header) = 0 /\
    Z.land o (@OPT_NOCLEAN sample_header) = @OPT_NOCLEAN sample_header.
Proof.
  eexists. eexists. split; [vm_compute; reflexivity|].
  split.
  - refine (proj1 (@X8_yesno_option_bits sample_header sample_config sample_header_ok
                     (sample_cmdline
                        [(RELOCAOUT, Some "yes"); (NOCLEAN, Some "y");
                         (DEBUG, Some "yes")]) _ _ _ _ RELOCAOUT _));
      first [vm_compute; reflexivity | unfold yesno_keys; simpl; tauto].
  - refine (proj1 (@X8_yesno_option_bits sample_header sample_config sample_header_ok
                     (sample_cmdline
                        [(RELOCAOUT, Some "yes"); (NOCLEAN, Some "y");
                         (DEBUG, Some "yes")]) _ _ _ _ NOCLEAN _));
      first [vm_compute; reflexivity | unfold yesno_keys; simpl; tauto].
Defined.

Lemma X9_witness :
  exists o g,
    sample_run [(RELOCEXEC, Some "yes"); (DEBUG, Some "y")] = Returns (o, g) /\
    Z.land o (@OPT_REMAPEXEC sample_header) = @OPT_REMAPEXEC sample_header.
Proof.
  eexists. eexists. split; [vm_compute; reflexivity|].
  refine (proj2 (proj1 (proj2
            (@X9_debug_mode sample_header sample_config sample_header_ok
               (sample_cmdline [(RELOCEXEC, Some "yes"); (DEBUG, Some "y")])
               _ _ _ _))) eq_refl);
    [reflexivity | vm_compute; reflexivity].
Defined.

Lemma X10_witness :
  exists o g,
    sample_run [(PULL, None)] = Returns (o, g) /\
    Z.land o (@OPT_COBO sample_header) = @OPT_COBO sample_header /\
    Z.land o (@all_pushpull_opts sample_header) = @OPT_PULL sample_header.
Proof.
  eexists. eexists. split; [vm_compute; reflexivity|].
  refine (let H := @X10_network_and_model sample_header sample_config
                     sample_header_ok (sample_cmdline [(PULL, None)]) _ _ _ _ in
          conj (proj1 H) (proj1 (proj2 H)));
    [reflexivity | vm_compute; reflexivity].
Defined.


Lemma X12_witness :
  exists o g,
    sample_run [(@SECKEYFILE sample_header, None); (@SECNULL sample_header, None)]
    = Returns (o, g) /\
    sec_model g = @OPT_SEC_NULL sample_header /\
    Z.ldiff o (@all_flags sample_header)
    = Z.shiftl (sec_model g) (@OPT_SEC_SHIFT sample_header).
Proof.
  eexists. eexists. split; [vm_compute; reflexivity|].
  refine (let H := @X12_security_model sample_header sample_config sample_header_ok
                     (sample_cmdline
                        [(@SECKEYFILE sample_header, None);
                         (@SECNULL sample_header, None)]) _ _ _ _ in
          conj (proj1 H) (proj1 (proj2 (proj2 H))));
    [reflexivity | vm_compute; reflexivity].
Defined.

Lemma X13_witness :
  0 <= 8 < 2 ^ 64 /\ multi_bits_set 8 = false /\ multi_bits_set 0 = false.
Proof.
  split; [lia|]. split.
  - apply (proj2 (X13_multi_bits_set 8 ltac:(lia))).
    right. exists 3. split; [lia | reflexivity].
  - apply (proj2 (X13_multi_bits_set 0 ltac:(lia))). left. reflexivity.
Defined.

Lemma X15_witness :
  python_prefixes (parse_python_prefix (Some "/b::/a:/b") sample_globals)
  = ["/a"; "/b"] /\
  NoDup (python_prefixes (parse_python_prefix (Some "/b::/a:/b") sample_globals)).
Proof.
  split; [reflexivity|].
  apply (X15_parse_python_prefix (Some "/b::/a:/b") sample_globals).
  apply Sorted_nil.
Defined.

Lemma X16_witness :
  exists L,
    @getPythonPrefixes sample_config prefix_globals
    = Returns (String.concat ":" L, set_python_prefixes L prefix_globals) /\
    NoDup L.
Proof.
  destruct (X16_python_prefixes_joined sample_config prefix_globals)
    as (L & E & _ & N & _); [reflexivity | vm_compute; discriminate|].
  exists L. split; assumption.
Defined.

Lemma X17_witness :
  exists s g',
    @getPythonPrefixes sample_config prefix_globals = Returns (s, g') /\
    @getPythonPrefixes sample_config g' = Returns (s, g').
Proof.
  eexists. eexists. split; [vm_compute; reflexivity|].
  refine (@X17_python_prefixes_again sample_config prefix_globals _ _ _ _);
    [apply Sorted_nil | vm_compute; reflexivity].
Defined.

Lemma X18_witness :
  exists s g',
    @getPythonPrefixes sample_config prefix_globals = Returns (s, g') /\
    s = "/a:/b:/c" /\ segments (Some s) = python_prefixes g'.
Proof.
  eexists. eexists. split; [vm_compute; reflexivity|].
  split; [reflexivity|].
  refine (proj1 (proj2 (@X18_python_prefixes_split sample_config prefix_globals
                          _ _ _ _)));
    [reflexivity | vm_compute; reflexivity].
Defined.


Lemma X20_witness :
  exists o g,
    sample_run [(STRIP, Some "no"); (PULL, None); (DEBUG, Some "yes")]
    = Returns (o, g) /\
    o = @option_word sample_header sample_config
          [(STRIP, Some "no"); (PULL, None); (DEBUG, Some "yes")].
Proof.
  eexists. eexists. split; [vm_compute; reflexivity|].
  refine (@X20_option_word sample_header sample_config sample_header_ok
            (sample_cmdline [(STRIP, Some "no"); (PULL, None); (DEBUG, Some "yes")])
            _ _ _ _);
    [reflexivity | vm_compute; reflexivity].
Defined.

Lemma X21_witness :
  exists o g o' g',
    sample_run [(STRIP, Some "no"); (NOMPI, None)] = Returns (o, g) /\
    sample_run [(NOMPI, None); (STRIP, Some "no")] = Returns (o', g') /\
    Z.land o' (@all_flags sample_header) = Z.land o (@all_flags sample_header) /\
    isMPIJob g' = isMPIJob g.
Proof.
  eexists. eexists.
  destruct (@X21_option_order sample_header sample_config sample_header_ok
              (sample_cmdline [(STRIP, Some "no"); (NOMPI, None)])
              (sample_cmdline [(NOMPI, None); (STRIP, Some "no")]) _ _
              eq_refl (perm_swap _ _ _) ltac:(discriminate)
              ltac:(vm_compute; reflexivity))
    as (o' & g' & R & F & M & _).
  exists o', g'. split; [vm_compute; reflexivity|].
  split; [exact R|]. split; [exact F | exact M].
Defined.

Lemma X22_witness :
  find_entry PORT (@options sample_header sample_config)
  = mk_option "port" PORT (Some "number") 0 GROUP_NETWORK /\
  find_entry 1 (@options sample_header sample_config) = null_option.
Proof.
  destruct (@X22_table_lookup sample_header sample_config sample_header_ok)
    as (_ & H1 & H2).
  split.
  - apply (H1 (mk_option "port" PORT (Some "number") 0 GROUP_NETWORK)).
    + unfold options. simpl. tauto.
    + vm_compute. discriminate.
  - apply H2. reflexivity.
Defined.

Lemma X14_witness :
  - 2 ^ 31 <= -2147483648 < 2 ^ 31 /\
  (String.length (snprintf_d (-2147483648)) <= 11)%nat.
Proof.
  split; [lia|].
  apply (proj2 (X14_getLocation (-2147483648) 0 sample_globals)). lia.
Defined.

Lemma X23_witness :
  exists o g,
    sample_run [(PYTHONPREFIX, Some "/c:/b")] = Returns (o, g) /\
    python_prefixes g = [] /\
    exists g', @getPythonPrefixes sample_config g = Returns ("/a:/b:/c", g').
Proof.
  eexists. eexists. split; [vm_compute; reflexivity|].
  split; [|eexists; vm_compute; reflexivity].
  refine (proj1 (@X23_prefixes_after_parse sample_header sample_config
                   sample_header_ok
                   (sample_cmdline [(PYTHONPREFIX, Some "/c:/b")]) _ _ _ _));
    vm_compute; reflexivity.
Defined.

Lemma X24_witness :
  @parse sample_header sample_config ARGP_KEY_INIT None sample_state
    (set_enabled_opts 4 sample_globals)
  = Returns (0, set_enabled_opts 4 sample_globals) /\
  @parse sample_header sample_config 63 (Some "x") sample_state sample_globals
  = Returns (0, sample_globals).
Proof.
  split.
  - apply (@X24_unknown_key_ignored sample_header sample_config sample_header_ok);
      [vm_compute; reflexivity | vm_compute; intuition discriminate].
  - apply (@X24_unknown_key_ignored sample_header sample_config sample_header_ok);
      [vm_compute; reflexivity | vm_compute; intuition discriminate].
Defined.
